(** * DocxExporter: the block-to-document rendering engine of [ugc/admin.py]

    A shallow embedding of [DocxExporter] and [DocxMergeStyles] and the
    properties of the structural state tracker (tables, lists, header
    steps), of the text-run builder, of the markdown-table reader and of
    the error boundaries of picture insertion and style merging.

    Conventions of the embedding.
    - A Python [str] is a Rocq [string], one [ascii] per character: texts
      range over code points below 256.  The image marker glyph of
      [set_styles] lies outside that range, so removing it from a run's
      text leaves the characters of every modelled text as they are.
    - Python [int] is [Z].
    - A Python exception is a value of [Exn]; a method is a state
      transformer that returns [Ok] or [Raise], and mutations made before
      an exception stay in the state, as in Python.
    - The document sink (python-docx) is external.  It is modelled by the
      structure it builds (paragraphs of runs, tables of cells) after the
      interface of section 6 of the specification, with the three ways
      it refuses a call of the exporter: a paragraph style that the
      template of [Document()] does not have raises [KeyError], a text
      with a character that XML does not allow raises [ValueError], and
      indexing a row's cells out of range raises [IndexError].  Purely
      cosmetic calls (widths, borders, autofit, table style, style
      registry) are not recorded.
    - HTTP, the image codecs, the snippet database and URL parsing are
      external collaborators; they are the fields of [World]. *)

From Stdlib Require Import ZArith Lia Ascii DecimalString DecimalPos DecimalZ.
From stdpp Require Import base option list list_numbers strings gmap.

Local Open Scope Z_scope.

(** ** Python built-ins used by the exporter *)

(** The string ['\n']. *)
Definition newline : string := String "010"%char EmptyString.

Module Py.

(** [l[1:-1]] on a list. *)
Definition slice_1_m1 {A} (l : list A) : list A := removelast (tail l).

(** [s[1:-1]] on a string. *)
Definition str_slice_1_m1 (s : string) : string :=
  String.string_of_list_ascii (slice_1_m1 (String.list_ascii_of_string s)).

(** [s.split(sep)] for a one-character separator: never empty. *)
Fixpoint split_chars (sep : ascii) (cur : list ascii) (l : list ascii)
  : list string :=
  match l with
  | [] => [String.string_of_list_ascii (rev cur)]
  | c :: r =>
      if Ascii.eqb c sep
      then String.string_of_list_ascii (rev cur) :: split_chars sep [] r
      else split_chars sep (c :: cur) r
  end.

Definition split (sep : ascii) (s : string) : list string :=
  split_chars sep [] (String.list_ascii_of_string s).

(** [c.isspace()] for a code point below 256. *)
Definition isspace (c : ascii) : bool :=
  let n := N_of_ascii c in
  ((9 <=? n) && (n <=? 13) || (28 <=? n) && (n <=? 32)
   || (n =? 133) || (n =? 160))%N.

Fixpoint lstrip_chars (l : list ascii) : list ascii :=
  match l with
  | c :: r => if isspace c then lstrip_chars r else l
  | [] => []
  end.

(** [s.strip()] *)
Definition strip (s : string) : string :=
  String.string_of_list_ascii
    (rev (lstrip_chars (rev (lstrip_chars (String.list_ascii_of_string s))))).

(** [str(n)] for an [int]. *)
Definition str (n : Z) : string := NilZero.string_of_int (Z.to_int n).

(** [len(s)] *)
Definition len (s : string) : Z := Z.of_nat (String.length s).

(** [sub in s] for strings. *)
Fixpoint contains_chars (sub : string) (l : string) : bool :=
  String.prefix sub l ||
  match l with
  | EmptyString => false
  | String _ r => contains_chars sub r
  end.

Definition contains (sub s : string) : bool := contains_chars sub s.

(** [l.index(x)]: the first position of [x]; [None] stands for the
    [ValueError] Python raises when [x] is absent. *)
Fixpoint index (l : list string) (x : string) : option nat :=
  match l with
  | [] => None
  | y :: r => if String.eqb y x then Some 0%nat else S <$> index r x
  end.

(** [range(a, b)] *)
Definition range (a b : Z) : list Z := seqZ a (b - a).

(** [l[i]] for a Python list and an [int] index: negative indices count
    from the end; [None] stands for [IndexError]. *)
Definition getitem {A} (l : list A) (i : Z) : option A :=
  if 0 <=? i then l !! Z.to_nat i
  else if 0 <=? Z.of_nat (length l) + i
       then l !! Z.to_nat (Z.of_nat (length l) + i)
       else None.

End Py.

(** ** The input: blocks, ranges and entities *)

(** The value of an entity of the entity map.  [ent_href], [ent_src],
    [ent_size] and [ent_style] are the fields of its [data]; an absent one
    raises [KeyError] where the code subscripts it. *)
Record Entity := {
  ent_type : option string;
  ent_href : option string;
  ent_src : option string;
  ent_size : option Z;
  ent_style : option string
}.

(** The [style] of an inline style range: a token of the editor, or one
    of the two dictionaries [add_text] builds from an entity range. *)
Inductive Style :=
| StyleName (name : string)
| StyleLink (href : string)
| StyleImg (entity : Entity).

Record StyleRange := {
  sr_style : Style;
  sr_offset : Z;
  sr_length : Z
}.

(** An entity range; [er_key] is [str(range.get('key'))]. *)
Record EntityRange := {
  er_key : string;
  er_offset : Z;
  er_length : Z
}.

(** The [data] payload of a block.  [d_table] is [data.table.cols]. *)
Record BlockData := {
  d_src : option string;
  d_label : option string;
  d_type : option string;
  d_style : option string;
  d_align : option string;
  d_depth : option Z;
  d_table : option Z
}.

Definition no_data : BlockData :=
  {| d_src := None; d_label := None; d_type := None; d_style := None;
     d_align := None; d_depth := None; d_table := None |}.

(** A block as the editor stores it, with all its keys: [entityRanges]
    and [inlineStyleRanges] are the list objects of the block. *)
Record Block := {
  type : string;
  key : string;
  text : string;
  depth : Z;
  entityRanges : list EntityRange;
  inlineStyleRanges : list StyleRange;
  data : BlockData
}.

Definition set_depth (d : Z) (b : Block) : Block :=
  {| type := type b; key := key b; text := text b; depth := d;
     entityRanges := entityRanges b;
     inlineStyleRanges := inlineStyleRanges b; data := data b |}.

Definition set_inlineStyleRanges (l : list StyleRange) (b : Block) : Block :=
  {| type := type b; key := key b; text := text b; depth := depth b;
     entityRanges := entityRanges b;
     inlineStyleRanges := l; data := data b |}.

Record Article := {
  art_name : string;
  art_description : string;
  art_icon : option string;
  art_entity_map : gmap string Entity;
  art_blocks : list Block;
  art_doc_version : Z
}.

Record Book := {
  book_name : string;
  book_articles : list Article
}.

Record Shelf := {
  shelf_name : string;
  shelf_books : list Book;
  shelf_id : option string;
  shelf_request_user_id : option string
}.

(** ** The document sink *)

(** A picture: the stream or file it comes from, the pixel size declared
    for an inline image, and the width (EMU) of a body picture. *)
Record Picture := {
  pic_source : string;
  pic_px : option Z;
  pic_width : option Z
}.

(** A run.  [run_text] is the text assigned to the run (the sink keeps
    a tab as a tab and a line feed or a carriage return as a line
    break); [run_size] counts half-points ([Pt(12)] is 24, [Pt(10.5)]
    is 21).  Assigning [run.text] clears the run's content, hyperlink
    and pictures included. *)
Record Run := {
  run_text : string;
  run_bold : bool;
  run_italic : bool;
  run_underline : bool;
  run_size : option Z;
  run_font : option string;
  run_color : option (Z * Z * Z);
  run_shd : list string;
  run_link : option (string * string);
  run_pics : list Picture;
  run_page_break : bool
}.

Definition plain_run (t : string) : Run :=
  {| run_text := t; run_bold := false; run_italic := false;
     run_underline := false; run_size := None; run_font := None;
     run_color := None; run_shd := []; run_link := None; run_pics := [];
     run_page_break := false |}.

Record Paragraph := {
  par_style : string;
  par_alignment : option Z;
  par_runs : list Run
}.

Definition empty_paragraph (style : string) : Paragraph :=
  {| par_style := style; par_alignment := None; par_runs := [] |}.

(** A table cell: its first paragraph and the fills appended to it. *)
Record Cell := {
  cell_par : Paragraph;
  cell_shd : list string
}.

Definition empty_cell : Cell :=
  {| cell_par := empty_paragraph "Normal"; cell_shd := [] |}.

Record Table := {
  tbl_cols : nat;
  tbl_rows : list (list Cell)
}.

Inductive Element :=
| EParagraph (p : Paragraph)
| ETable (t : Table).

(** [document.add_table(rows, cols)] and [table.add_row()]. *)
Definition new_table (rows : nat) (cols : Z) : Table :=
  {| tbl_cols := Z.to_nat cols;
     tbl_rows := replicate rows (replicate (Z.to_nat cols) empty_cell) |}.

Definition table_add_row (t : Table) : Table :=
  {| tbl_cols := tbl_cols t;
     tbl_rows := tbl_rows t ++ [replicate (tbl_cols t) empty_cell] |}.

(** The visible text of a cell and of a table. *)
Definition par_text (p : Paragraph) : string :=
  foldr (fun r acc => run_text r +:+ acc) "" (par_runs p).

Definition table_texts (t : Table) : list (list string) :=
  map (map (fun c => par_text (cell_par c))) (tbl_rows t).

(** ** What the sink refuses *)

(** The sink keeps text as XML.  A control character other than tab,
    line feed and carriage return is no character of XML: assigning a
    text that holds one raises [ValueError]. *)
Definition xml_char (c : ascii) : bool :=
  let n := N_of_ascii c in
  ((32 <=? n) || (n =? 9) || (n =? 10) || (n =? 13))%N.

Definition xml_text (t : string) : bool :=
  forallb xml_char (String.list_ascii_of_string t).

(** A tab, a line feed or a carriage return: the sink writes the piece
    of text before it, then the tab or the break. *)
Definition is_break (c : ascii) : bool :=
  let n := N_of_ascii c in ((n =? 9) || (n =? 10) || (n =? 13))%N.

(** What [run.text = t] has written when it returns or raises: the
    pieces and breaks before the first piece the sink refuses; [piece]
    is the piece being read. *)
Fixpoint written_chars (piece : list ascii) (l : list ascii)
  : list ascii :=
  match l with
  | [] => if forallb xml_char piece then piece else []
  | c :: r =>
      if is_break c
      then if forallb xml_char piece
           then piece ++ c :: written_chars [] r
           else []
      else written_chars (piece ++ [c]) r
  end.

Definition written (t : string) : string :=
  String.string_of_list_ascii
    (written_chars [] (String.list_ascii_of_string t)).

(** The paragraph styles of the template of [Document()], by the names
    [paragraph.style = name] finds them under: among the list styles
    there are [List Bullet] and [List Number], bare and with 2 and
    3. *)
Definition template_styles : list string :=
  ["Normal"; "Header"; "header"; "Footer"; "footer";
   "Heading 1"; "Heading 2"; "Heading 3"; "Heading 4"; "Heading 5";
   "Heading 6"; "Heading 7"; "Heading 8"; "Heading 9";
   "heading 1"; "heading 2"; "heading 3"; "heading 4"; "heading 5";
   "heading 6"; "heading 7"; "heading 8"; "heading 9";
   "Title"; "Subtitle"; "No Spacing"; "List Paragraph";
   "Body Text"; "Body Text 2"; "Body Text 3";
   "List"; "List 2"; "List 3";
   "List Bullet"; "List Bullet 2"; "List Bullet 3";
   "List Number"; "List Number 2"; "List Number 3";
   "List Continue"; "List Continue 2"; "List Continue 3";
   "macro"; "Macro Text"; "Quote"; "Intense Quote";
   "Caption"; "caption"; "TOC Heading"].

Definition template_has_style (name : string) : bool :=
  bool_decide (name ∈ template_styles).

(** ** Exceptions and the exporter's state *)

Inductive Exn :=
| IndexError
| KeyError
| AttributeError
| TypeError
| ValueError
| ZeroDivisionError
| UnrecognizedImageError
| ExternalError.

Inductive Res (A : Type) :=
| Ok (a : A)
| Raise (e : Exn).
Arguments Ok {A} a.
Arguments Raise {A} e.

(** The fields of a [DocxExporter] built without a template
    ([based_template] is [None], so [__merge__] does nothing).
    [captured] is the log of [raven.captureException()]. *)
Record Exporter := {
  shelf : Shelf;
  document : list Element;
  _paragraph : option nat;
  depth_level : Z;
  table : option nat;
  table_col_index : Z;
  cols_num : Z;
  cells_d : Z;
  rows_d : Z;
  step_header_elems : Z;
  step_list_items : Z;
  cells : Z;
  rows : Z;
  dict : option nat;
  entity_map : gmap string Entity;
  article_blocks : list Block;
  keys : list string;
  doc_version : Z;
  captured : list Exn
}.

(** Field updates ([self.field = v]). *)

Definition with_document (v : list Element) (s : Exporter) : Exporter :=
  {| shelf := shelf s; document := v; _paragraph := _paragraph s;
     depth_level := depth_level s; table := table s;
     table_col_index := table_col_index s; cols_num := cols_num s;
     cells_d := cells_d s; rows_d := rows_d s;
     step_header_elems := step_header_elems s;
     step_list_items := step_list_items s; cells := cells s;
     rows := rows s; dict := dict s; entity_map := entity_map s;
     article_blocks := article_blocks s; keys := keys s;
     doc_version := doc_version s; captured := captured s |}.

Definition with_paragraph (v : option nat) (s : Exporter) : Exporter :=
  {| shelf := shelf s; document := document s; _paragraph := v;
     depth_level := depth_level s; table := table s;
     table_col_index := table_col_index s; cols_num := cols_num s;
     cells_d := cells_d s; rows_d := rows_d s;
     step_header_elems := step_header_elems s;
     step_list_items := step_list_items s; cells := cells s;
     rows := rows s; dict := dict s; entity_map := entity_map s;
     article_blocks := article_blocks s; keys := keys s;
     doc_version := doc_version s; captured := captured s |}.

Definition with_depth_level (v : Z) (s : Exporter) : Exporter :=
  {| shelf := shelf s; document := document s; _paragraph := _paragraph s;
     depth_level := v; table := table s;
     table_col_index := table_col_index s; cols_num := cols_num s;
     cells_d := cells_d s; rows_d := rows_d s;
     step_header_elems := step_header_elems s;
     step_list_items := step_list_items s; cells := cells s;
     rows := rows s; dict := dict s; entity_map := entity_map s;
     article_blocks := article_blocks s; keys := keys s;
     doc_version := doc_version s; captured := captured s |}.

Definition with_table (v : option nat) (s : Exporter) : Exporter :=
  {| shelf := shelf s; document := document s; _paragraph := _paragraph s;
     depth_level := depth_level s; table := v;
     table_col_index := table_col_index s; cols_num := cols_num s;
     cells_d := cells_d s; rows_d := rows_d s;
     step_header_elems := step_header_elems s;
     step_list_items := step_list_items s; cells := cells s;
     rows := rows s; dict := dict s; entity_map := entity_map s;
     article_blocks := article_blocks s; keys := keys s;
     doc_version := doc_version s; captured := captured s |}.

Definition with_table_col_index (v : Z) (s : Exporter) : Exporter :=
  {| shelf := shelf s; document := document s; _paragraph := _paragraph s;
     depth_level := depth_level s; table := table s; table_col_index := v;
     cols_num := cols_num s; cells_d := cells_d s; rows_d := rows_d s;
     step_header_elems := step_header_elems s;
     step_list_items := step_list_items s; cells := cells s;
     rows := rows s; dict := dict s; entity_map := entity_map s;
     article_blocks := article_blocks s; keys := keys s;
     doc_version := doc_version s; captured := captured s |}.

Definition with_cols_num (v : Z) (s : Exporter) : Exporter :=
  {| shelf := shelf s; document := document s; _paragraph := _paragraph s;
     depth_level := depth_level s; table := table s;
     table_col_index := table_col_index s; cols_num := v;
     cells_d := cells_d s; rows_d := rows_d s;
     step_header_elems := step_header_elems s;
     step_list_items := step_list_items s; cells := cells s;
     rows := rows s; dict := dict s; entity_map := entity_map s;
     article_blocks := article_blocks s; keys := keys s;
     doc_version := doc_version s; captured := captured s |}.

Definition with_cells_d (v : Z) (s : Exporter) : Exporter :=
  {| shelf := shelf s; document := document s; _paragraph := _paragraph s;
     depth_level := depth_level s; table := table s;
     table_col_index := table_col_index s; cols_num := cols_num s;
     cells_d := v; rows_d := rows_d s;
     step_header_elems := step_header_elems s;
     step_list_items := step_list_items s; cells := cells s;
     rows := rows s; dict := dict s; entity_map := entity_map s;
     article_blocks := article_blocks s; keys := keys s;
     doc_version := doc_version s; captured := captured s |}.

Definition with_rows_d (v : Z) (s : Exporter) : Exporter :=
  {| shelf := shelf s; document := document s; _paragraph := _paragraph s;
     depth_level := depth_level s; table := table s;
     table_col_index := table_col_index s; cols_num := cols_num s;
     cells_d := cells_d s; rows_d := v;
     step_header_elems := step_header_elems s;
     step_list_items := step_list_items s; cells := cells s;
     rows := rows s; dict := dict s; entity_map := entity_map s;
     article_blocks := article_blocks s; keys := keys s;
     doc_version := doc_version s; captured := captured s |}.

Definition with_step_header_elems (v : Z) (s : Exporter) : Exporter :=
  {| shelf := shelf s; document := document s; _paragraph := _paragraph s;
     depth_level := depth_level s; table := table s;
     table_col_index := table_col_index s; cols_num := cols_num s;
     cells_d := cells_d s; rows_d := rows_d s; step_header_elems := v;
     step_list_items := step_list_items s; cells := cells s;
     rows := rows s; dict := dict s; entity_map := entity_map s;
     article_blocks := article_blocks s; keys := keys s;
     doc_version := doc_version s; captured := captured s |}.

Definition with_step_list_items (v : Z) (s : Exporter) : Exporter :=
  {| shelf := shelf s; document := document s; _paragraph := _paragraph s;
     depth_level := depth_level s; table := table s;
     table_col_index := table_col_index s; cols_num := cols_num s;
     cells_d := cells_d s; rows_d := rows_d s;
     step_header_elems := step_header_elems s; step_list_items := v;
     cells := cells s; rows := rows s; dict := dict s;
     entity_map := entity_map s; article_blocks := article_blocks s;
     keys := keys s; doc_version := doc_version s;
     captured := captured s |}.

Definition with_cells (v : Z) (s : Exporter) : Exporter :=
  {| shelf := shelf s; document := document s; _paragraph := _paragraph s;
     depth_level := depth_level s; table := table s;
     table_col_index := table_col_index s; cols_num := cols_num s;
     cells_d := cells_d s; rows_d := rows_d s;
     step_header_elems := step_header_elems s;
     step_list_items := step_list_items s; cells := v; rows := rows s;
     dict := dict s; entity_map := entity_map s;
     article_blocks := article_blocks s; keys := keys s;
     doc_version := doc_version s; captured := captured s |}.

Definition with_rows (v : Z) (s : Exporter) : Exporter :=
  {| shelf := shelf s; document := document s; _paragraph := _paragraph s;
     depth_level := depth_level s; table := table s;
     table_col_index := table_col_index s; cols_num := cols_num s;
     cells_d := cells_d s; rows_d := rows_d s;
     step_header_elems := step_header_elems s;
     step_list_items := step_list_items s; cells := cells s; rows := v;
     dict := dict s; entity_map := entity_map s;
     article_blocks := article_blocks s; keys := keys s;
     doc_version := doc_version s; captured := captured s |}.

Definition with_dict (v : option nat) (s : Exporter) : Exporter :=
  {| shelf := shelf s; document := document s; _paragraph := _paragraph s;
     depth_level := depth_level s; table := table s;
     table_col_index := table_col_index s; cols_num := cols_num s;
     cells_d := cells_d s; rows_d := rows_d s;
     step_header_elems := step_header_elems s;
     step_list_items := step_list_items s; cells := cells s;
     rows := rows s; dict := v; entity_map := entity_map s;
     article_blocks := article_blocks s; keys := keys s;
     doc_version := doc_version s; captured := captured s |}.

Definition with_entity_map (v : gmap string Entity) (s : Exporter) : Exporter :=
  {| shelf := shelf s; document := document s; _paragraph := _paragraph s;
     depth_level := depth_level s; table := table s;
     table_col_index := table_col_index s; cols_num := cols_num s;
     cells_d := cells_d s; rows_d := rows_d s;
     step_header_elems := step_header_elems s;
     step_list_items := step_list_items s; cells := cells s;
     rows := rows s; dict := dict s; entity_map := v;
     article_blocks := article_blocks s; keys := keys s;
     doc_version := doc_version s; captured := captured s |}.

Definition with_article_blocks (v : list Block) (s : Exporter) : Exporter :=
  {| shelf := shelf s; document := document s; _paragraph := _paragraph s;
     depth_level := depth_level s; table := table s;
     table_col_index := table_col_index s; cols_num := cols_num s;
     cells_d := cells_d s; rows_d := rows_d s;
     step_header_elems := step_header_elems s;
     step_list_items := step_list_items s; cells := cells s;
     rows := rows s; dict := dict s; entity_map := entity_map s;
     article_blocks := v; keys := keys s; doc_version := doc_version s;
     captured := captured s |}.

Definition with_keys (v : list string) (s : Exporter) : Exporter :=
  {| shelf := shelf s; document := document s; _paragraph := _paragraph s;
     depth_level := depth_level s; table := table s;
     table_col_index := table_col_index s; cols_num := cols_num s;
     cells_d := cells_d s; rows_d := rows_d s;
     step_header_elems := step_header_elems s;
     step_list_items := step_list_items s; cells := cells s;
     rows := rows s; dict := dict s; entity_map := entity_map s;
     article_blocks := article_blocks s; keys := v;
     doc_version := doc_version s; captured := captured s |}.

Definition with_doc_version (v : Z) (s : Exporter) : Exporter :=
  {| shelf := shelf s; document := document s; _paragraph := _paragraph s;
     depth_level := depth_level s; table := table s;
     table_col_index := table_col_index s; cols_num := cols_num s;
     cells_d := cells_d s; rows_d := rows_d s;
     step_header_elems := step_header_elems s;
     step_list_items := step_list_items s; cells := cells s;
     rows := rows s; dict := dict s; entity_map := entity_map s;
     article_blocks := article_blocks s; keys := keys s; doc_version := v;
     captured := captured s |}.

Definition with_captured (v : list Exn) (s : Exporter) : Exporter :=
  {| shelf := shelf s; document := document s; _paragraph := _paragraph s;
     depth_level := depth_level s; table := table s;
     table_col_index := table_col_index s; cols_num := cols_num s;
     cells_d := cells_d s; rows_d := rows_d s;
     step_header_elems := step_header_elems s;
     step_list_items := step_list_items s; cells := cells s;
     rows := rows s; dict := dict s; entity_map := entity_map s;
     article_blocks := article_blocks s; keys := keys s;
     doc_version := doc_version s; captured := v |}.

(** ** A state monad with Python exceptions *)

Definition M (A : Type) : Type := Exporter → Res A * Exporter.

Definition ret {A} (a : A) : M A := fun s => (Ok a, s).

Definition bind {A B} (m : M A) (f : A → M B) : M B :=
  fun s =>
    match m s with
    | (Ok a, s') => f a s'
    | (Raise e, s') => (Raise e, s')
    end.

Definition raise {A} (e : Exn) : M A := fun s => (Raise e, s).

Definition gets {A} (f : Exporter → A) : M A := fun s => (Ok (f s), s).

Definition modify (f : Exporter → Exporter) : M unit :=
  fun s => (Ok tt, f s).

Declare Scope py_scope.
Delimit Scope py_scope with py.
Notation "x <- m ;; k" := (bind m (fun x => k))
  (at level 100, m at next level, right associativity) : py_scope.
Notation "m ;; k" := (bind m (fun _ => k))
  (at level 100, right associativity) : py_scope.
Local Open Scope py_scope.

(** [try: m except ...: h] for the exceptions [catches] selects. *)
Definition try_except {A} (catches : Exn → bool) (m : M A) (h : Exn → M A)
  : M A :=
  fun s =>
    match m s with
    | (Ok a, s') => (Ok a, s')
    | (Raise e, s') => if catches e then h e s' else (Raise e, s')
    end.

Definition any_exn (e : Exn) : bool := true.

Definition is_exn (e0 e : Exn) : bool :=
  match e0, e with
  | IndexError, IndexError | KeyError, KeyError
  | AttributeError, AttributeError | TypeError, TypeError
  | ValueError, ValueError | ZeroDivisionError, ZeroDivisionError
  | UnrecognizedImageError, UnrecognizedImageError
  | ExternalError, ExternalError => true
  | _, _ => false
  end.

(** [raven.captureException()] *)
Definition captureException (e : Exn) : M unit :=
  modify (fun s => with_captured (captured s ++ [e]) s).

(** [try: m except Exception: raven.captureException()] *)
Definition guarded (m : M unit) : M unit :=
  try_except any_exn m captureException.

(** A lookup that raises [e] when it has no result. *)
Definition lookup_or {A} (e : Exn) (o : option A) : M A :=
  match o with
  | Some a => ret a
  | None => raise e
  end.

Definition lift_res {A} (r : Res A) : M A :=
  match r with
  | Ok a => ret a
  | Raise e => raise e
  end.

(** [for x in l: f x] *)
Fixpoint for_each {A} (l : list A) (f : A → M unit) : M unit :=
  match l with
  | [] => ret tt
  | x :: r => f x ;; for_each r f
  end.

(** ** External collaborators *)

Record Response := {
  resp_content : string;
  resp_content_type : option string
}.

Record World := {
  (** [requests.get(url)]; [None]: the request raises. *)
  http_get : string → option Response;
  (** python-docx reading an image stream in [add_picture]: its width
      and height, or the exception it raises. *)
  docx_picture : string → Res (Z * Z);
  (** Decoding the payload of a data URL and re-encoding it with PIL. *)
  data_url_image : string → option string;
  (** [svg2png], when cairosvg could be imported. *)
  svg2png : option (string → option string);
  (** PIL pasting an image on its border and re-encoding it. *)
  pil_border : string → option string;
  (** An icon file of the blockquote can be read as a picture. *)
  icon_file : string → bool;
  (** The thumbnail [images.get('big_image')] of a video URL. *)
  video_big_image : string → option string;
  (** The blocks a snippet id resolves to, already filtered by key;
      [None]: the database lookup raises. *)
  resolve_snippet : string → option (list Block)
}.

(** ** Style resolver: [set_styles] *)

(** [run.text = t]: the content of the run is cleared first. *)
Definition run_set_text (t : string) (r : Run) : Run :=
  {| run_text := t; run_bold := run_bold r; run_italic := run_italic r;
     run_underline := run_underline r; run_size := run_size r;
     run_font := run_font r; run_color := run_color r; run_shd := run_shd r;
     run_link := None; run_pics := []; run_page_break := false |}.

Definition run_set_bold (r : Run) : Run :=
  {| run_text := run_text r; run_bold := true; run_italic := run_italic r;
     run_underline := run_underline r; run_size := run_size r;
     run_font := run_font r; run_color := run_color r; run_shd := run_shd r;
     run_link := run_link r; run_pics := run_pics r;
     run_page_break := run_page_break r |}.

Definition run_set_italic (r : Run) : Run :=
  {| run_text := run_text r; run_bold := run_bold r; run_italic := true;
     run_underline := run_underline r; run_size := run_size r;
     run_font := run_font r; run_color := run_color r; run_shd := run_shd r;
     run_link := run_link r; run_pics := run_pics r;
     run_page_break := run_page_break r |}.

Definition run_set_underline (r : Run) : Run :=
  {| run_text := run_text r; run_bold := run_bold r;
     run_italic := run_italic r; run_underline := true;
     run_size := run_size r; run_font := run_font r;
     run_color := run_color r; run_shd := run_shd r;
     run_link := run_link r; run_pics := run_pics r;
     run_page_break := run_page_break r |}.

Definition run_set_size (v : Z) (r : Run) : Run :=
  {| run_text := run_text r; run_bold := run_bold r;
     run_italic := run_italic r; run_underline := run_underline r;
     run_size := Some v; run_font := run_font r;
     run_color := run_color r; run_shd := run_shd r;
     run_link := run_link r; run_pics := run_pics r;
     run_page_break := run_page_break r |}.

Definition run_set_font (v : string) (r : Run) : Run :=
  {| run_text := run_text r; run_bold := run_bold r;
     run_italic := run_italic r; run_underline := run_underline r;
     run_size := run_size r; run_font := Some v;
     run_color := run_color r; run_shd := run_shd r;
     run_link := run_link r; run_pics := run_pics r;
     run_page_break := run_page_break r |}.

Definition run_set_color (v : Z * Z * Z) (r : Run) : Run :=
  {| run_text := run_text r; run_bold := run_bold r;
     run_italic := run_italic r; run_underline := run_underline r;
     run_size := run_size r; run_font := run_font r;
     run_color := Some v; run_shd := run_shd r;
     run_link := run_link r; run_pics := run_pics r;
     run_page_break := run_page_break r |}.

Definition run_add_shd (fill : string) (r : Run) : Run :=
  {| run_text := run_text r; run_bold := run_bold r;
     run_italic := run_italic r; run_underline := run_underline r;
     run_size := run_size r; run_font := run_font r;
     run_color := run_color r; run_shd := run_shd r ++ [fill];
     run_link := run_link r; run_pics := run_pics r;
     run_page_break := run_page_break r |}.

Definition run_set_link (l : string * string) (r : Run) : Run :=
  {| run_text := run_text r; run_bold := run_bold r;
     run_italic := run_italic r; run_underline := run_underline r;
     run_size := run_size r; run_font := run_font r;
     run_color := run_color r; run_shd := run_shd r;
     run_link := Some l; run_pics := run_pics r;
     run_page_break := run_page_break r |}.

Definition run_add_picture (p : Picture) (r : Run) : Run :=
  {| run_text := run_text r; run_bold := run_bold r;
     run_italic := run_italic r; run_underline := run_underline r;
     run_size := run_size r; run_font := run_font r;
     run_color := run_color r; run_shd := run_shd r;
     run_link := run_link r; run_pics := run_pics r ++ [p];
     run_page_break := run_page_break r |}.

Definition run_add_break (r : Run) : Run :=
  {| run_text := run_text r; run_bold := run_bold r;
     run_italic := run_italic r; run_underline := run_underline r;
     run_size := run_size r; run_font := run_font r;
     run_color := run_color r; run_shd := run_shd r;
     run_link := run_link r; run_pics := run_pics r;
     run_page_break := true |}.

(** The exporter's defaults: [__font_size], [__font_name],
    [__font_color_rgb]. *)
Definition font_size : Z := 24.
Definition font_name : string := "Inter".
Definition font_color_rgb : Z * Z * Z := (64, 64, 64).

Section Exporter.

Variable W : World.

(** [_add_link_by_run(run_old, href, text)]: the relationship is added
    to the part of [self._paragraph]; the run loses its text and gets
    the hyperlink.  [None] when the method caught an exception. *)
Definition _add_link_by_run (has_paragraph : bool) (run_old : Run)
    (href text : string) : Run * bool :=
  if has_paragraph
  then (run_set_link (href, text) (run_set_text "" run_old), true)
  else (run_old, false).

(** The inline image of an [img] style: fetched, sized and added. *)
Definition inline_picture (e : Entity) : option Picture :=
  src ← ent_src e;
  resp ← http_get W src;
  size ← ent_size e;
  match docx_picture W (resp_content resp) with
  | Ok _ =>
      Some {| pic_source := resp_content resp; pic_px := Some size;
              pic_width := None |}
  | Raise _ => None
  end.

(** [set_styles(name, run, self, text)] on a run object: the state of
    the object afterwards, and whether the call returned it ([false]:
    the body raised and the function returned [None]). *)
Definition set_styles (has_paragraph : bool) (name : Style) (run : Run)
    (text : string) : Run * bool :=
  match name with
  | StyleLink href => _add_link_by_run has_paragraph run href text
  | StyleImg e =>
      let run := run_set_text (run_text run) run in
      match inline_picture e with
      | Some p => (run_add_picture p run, true)
      | None => (run, false)
      end
  | StyleName name =>
      if Py.contains "link" name then (run, false)
      else if Py.contains "img" name
      then (run_set_text (run_text run) run, false)
      else if String.eqb name "header-step"
      then (run_set_size 21 (run_set_bold run), true)
      else if String.eqb name "BOLD" then (run_set_bold run, true)
      else if String.eqb name "ITALIC" then (run_set_italic run, true)
      else if String.eqb name "UNDERLINE"
      then (run_set_underline run, true)
      else if String.eqb name "CODE"
      then (run_set_font "Times New Roman"
              (run_set_size 24 (run_set_color (68, 114, 196) run)), true)
      else if String.eqb name "KBD"
      then (run_add_shd "e7e6e6"
              (run_set_font "Courier New" (run_set_size 22 run)), true)
      else if String.eqb name "DFN"
      then (run_add_shd "#b3c6e7" run, true)
      else (run, true)
  end.

(** ** Text run builder: [add_text] *)

(** Folding one entity range into the inline style ranges (the body of
    the loop over [entity_ranges]). *)
Definition fold_entity (em : gmap string Entity)
    (ranges : list StyleRange) (er : EntityRange)
  : Res (list StyleRange) :=
  match em !! er_key er with
  | None => Ok ranges
  | Some e =>
      match ent_type e with
      | None => Ok ranges
      | Some entity_type =>
          if String.eqb entity_type "LINK" then
            match ent_href e with
            | Some href =>
                Ok (ranges ++ [{| sr_style := StyleLink href;
                                  sr_offset := er_offset er;
                                  sr_length := er_length er |}])
            | None => Raise KeyError
            end
          else if String.eqb entity_type "IMG" then
            Ok (ranges ++ [{| sr_style := StyleImg e;
                              sr_offset := er_offset er;
                              sr_length := er_length er |}])
          else Ok ranges
      end
  end.

(** The loop: the list as appended to so far, and the exception that
    stopped the loop, if any. *)
Fixpoint fold_entities (em : gmap string Entity)
    (ers : list EntityRange) (ranges : list StyleRange)
  : list StyleRange * option Exn :=
  match ers with
  | [] => (ranges, None)
  | er :: rest =>
      match fold_entity em ranges er with
      | Ok ranges' => fold_entities em rest ranges'
      | Raise e => (ranges, Some e)
      end
  end.

(** The synthetic range of a header-step block. *)
Definition header_step_range (b : Block) : StyleRange :=
  {| sr_style := StyleName "header-step"; sr_offset := 0;
     sr_length := Py.len (text b) |}.

Definition append_header_step (b : Block) (ranges : list StyleRange)
  : list StyleRange :=
  if String.eqb (type b) "header-step"
  then ranges ++ [header_step_range b]
  else ranges.

(** One inner loop of the bubble sort: [k] compare-and-swap steps from
    the front of the list. *)
Fixpoint bubble_pass (k : nat) (l : list StyleRange) : list StyleRange :=
  match k, l with
  | S k', x :: y :: r =>
      if sr_offset x >? sr_offset y
      then y :: bubble_pass k' (x :: r)
      else x :: bubble_pass k' (y :: r)
  | _, _ => l
  end.

(** The bubble sort of [add_text], on the list it sorts in place. *)
Definition bubble_sort (l : list StyleRange) : list StyleRange :=
  let n := length l in
  foldl (fun l i => bubble_pass (n - i - 1) l) l (seq 0 (n - 1)).

(** What [add_text] leaves in the [inlineStyleRanges] list of the
    block, and the exception that escaped the folding, if any. *)
Definition styled_ranges (em : gmap string Entity) (b : Block)
  : list StyleRange * option Exn :=
  match fold_entities em (entityRanges b) (inlineStyleRanges b) with
  | (ranges, Some e) => (ranges, Some e)
  | (ranges, None) => (bubble_sort (append_header_step b ranges), None)
  end.

(** An entry of [saves]: the run object, whether [saves] still refers
    to it, and the character of the text. *)
Record Slot := {
  slot_run : Run;
  slot_alive : bool;
  slot_text : string
}.

Definition new_slot (c : ascii) : Slot :=
  let t := String c EmptyString in
  {| slot_run :=
       run_set_color font_color_rgb
         (run_set_font font_name (run_set_size font_size (plain_run t)));
     slot_alive := true; slot_text := t |}.

Definition style_slot (has_paragraph : bool) (st : Style) (sl : Slot)
  : Slot :=
  if slot_alive sl then
    let '(r, ok) := set_styles has_paragraph st (slot_run sl) (slot_text sl)
    in {| slot_run := r; slot_alive := ok; slot_text := slot_text sl |}
  else sl.

(** [if word_i in saves: ...] *)
Definition style_at (has_paragraph : bool) (st : Style)
    (slots : list Slot) (word_i : Z) : list Slot :=
  if 0 <=? word_i
  then alter (style_slot has_paragraph st) (Z.to_nat word_i) slots
  else slots.

Definition apply_styling (has_paragraph : bool) (slots : list Slot)
    (styling : StyleRange) : list Slot :=
  foldl (style_at has_paragraph (sr_style styling)) slots
    (Py.range (sr_offset styling) (sr_offset styling + sr_length styling)).

(** The runs [add_text] appends for a text and its sorted ranges. *)
Definition build_runs (has_paragraph : bool) (t : string)
    (ranges : list StyleRange) : list Run :=
  slot_run <$>
    foldl (apply_styling has_paragraph)
      (new_slot <$> String.list_ascii_of_string t) ranges.

(** The runs of the loop that creates one run per character, when the
    sink refuses a character: the runs of the characters before it,
    and the run of that character, left without text and without
    font. *)
Fixpoint refused_runs (l : list ascii) : list Run :=
  match l with
  | [] => []
  | c :: r =>
      if xml_char c then slot_run (new_slot c) :: refused_runs r
      else [plain_run ""]
  end.

(** A block passed to a method: an object of [article_blocks], or a
    dictionary literal. *)
Inductive BlockRef :=
| InArticle (i : nat)
| Literal (b : Block).

(** A paragraph of the document: a body paragraph, or the first
    paragraph of a table cell. *)
Inductive Target :=
| TPar (i : nat)
| TCell (t r c : nat).

Definition par_add_runs (rs : list Run) (p : Paragraph) : Paragraph :=
  {| par_style := par_style p; par_alignment := par_alignment p;
     par_runs := par_runs p ++ rs |}.

Definition par_set_alignment (a : Z) (p : Paragraph) : Paragraph :=
  {| par_style := par_style p; par_alignment := Some a;
     par_runs := par_runs p |}.

Definition par_set_style (st : string) (p : Paragraph) : Paragraph :=
  {| par_style := st; par_alignment := par_alignment p;
     par_runs := par_runs p |}.

Definition cell_map_par (f : Paragraph → Paragraph) (c : Cell) : Cell :=
  {| cell_par := f (cell_par c); cell_shd := cell_shd c |}.

Definition cell_add_shd (fill : string) (c : Cell) : Cell :=
  {| cell_par := cell_par c; cell_shd := cell_shd c ++ [fill] |}.

Definition table_map_cell (r c : nat) (f : Cell → Cell) (t : Table)
  : Table :=
  {| tbl_cols := tbl_cols t;
     tbl_rows := alter (alter f c) r (tbl_rows t) |}.

Definition table_cell (t : Table) (r c : nat) : option Cell :=
  row ← tbl_rows t !! r; row !! c.

Definition doc_table (doc : list Element) (i : nat) : option Table :=
  match doc !! i with
  | Some (ETable t) => Some t
  | _ => None
  end.

Definition doc_paragraph (doc : list Element) (i : nat)
  : option Paragraph :=
  match doc !! i with
  | Some (EParagraph p) => Some p
  | _ => None
  end.

Definition target_paragraph (doc : list Element) (tg : Target)
  : option Paragraph :=
  match tg with
  | TPar i => doc_paragraph doc i
  | TCell t r c =>
      tb ← doc_table doc t; cell_par <$> table_cell tb r c
  end.

Definition map_target (tg : Target) (f : Paragraph → Paragraph)
    (doc : list Element) : list Element :=
  match tg with
  | TPar i =>
      alter (fun e => match e with
                      | EParagraph p => EParagraph (f p)
                      | ETable t => ETable t
                      end) i doc
  | TCell t r c =>
      alter (fun e => match e with
                      | EParagraph p => EParagraph p
                      | ETable tb =>
                          ETable (table_map_cell r c (cell_map_par f) tb)
                      end) t doc
  end.

(** Mutating the paragraph object [tg] refers to. *)
Definition on_paragraph (tg : option Target) (f : Paragraph → Paragraph)
  : M unit :=
  doc <- gets document ;;
  match tg with
  | Some tg =>
      match target_paragraph doc tg with
      | Some _ => modify (with_document (map_target tg f doc))
      | None => raise AttributeError
      end
  | None => raise AttributeError
  end.

Definition read_block (ref : BlockRef) : M Block :=
  match ref with
  | Literal b => ret b
  | InArticle i =>
      blocks <- gets article_blocks ;; lookup_or IndexError (blocks !! i)
  end.

(** The list object [block['inlineStyleRanges']] is mutated in place:
    for a block of the article the change is seen by every later use of
    that block. *)
Definition store_ranges (ref : BlockRef) (ranges : list StyleRange)
  : M unit :=
  match ref with
  | Literal _ => ret tt
  | InArticle i =>
      modify (fun s =>
        with_article_blocks
          (alter (set_inlineStyleRanges ranges) i (article_blocks s)) s)
  end.

Definition add_text (ref : BlockRef) (paragraph : option Target) : M unit :=
  guarded (
    block <- read_block ref ;;
    self_paragraph <- gets _paragraph ;;
    let paragraph :=
      match paragraph with
      | Some tg => Some tg
      | None => TPar <$> self_paragraph
      end in
    em <- gets entity_map ;;
    match styled_ranges em block with
    | (ranges, Some e) => store_ranges ref ranges ;; raise e
    | (ranges, None) =>
        store_ranges ref ranges ;;
        if String.eqb (text block) "" then ret tt
        else if xml_text (text block) then
          on_paragraph paragraph
            (par_add_runs
               (build_runs (bool_decide (is_Some self_paragraph))
                  (text block) ranges))
        else
          on_paragraph paragraph
            (par_add_runs
               (refused_runs (String.list_ascii_of_string (text block)))) ;;
          raise ValueError
    end).

(** ** Paragraphs, resets and header steps *)

(** [__add_paragraph(self.document, style)]: every call of the exporter
    passes the document as position.  The sink appends the paragraph
    before it looks the style up: when the template has no such style,
    the paragraph stays in the document with the style it was created
    with, and [self._paragraph] is not assigned. *)
Definition __add_paragraph (style : string) : M unit :=
  guarded (
    if template_has_style style then
      modify (fun s =>
        let p :=
          if String.eqb style "Caption"
          then par_set_alignment 1 (empty_paragraph style)
          else empty_paragraph style in
        with_paragraph (Some (length (document s)))
          (with_document (document s ++ [EParagraph p]) s))
    else
      modify (fun s =>
        with_document
          (document s ++ [EParagraph (empty_paragraph "Normal")]) s) ;;
      raise KeyError).

Definition __reset_non_general : M unit :=
  guarded (
    modify (fun s =>
      with_cols_num 0 (with_table_col_index 0 (with_table None s)))).

(** [self._paragraph.add_run(t)] followed by [f] on the new run.  The
    run is in the paragraph before its text is assigned: when the sink
    refuses the text, the run stays with what was written of it. *)
Definition add_run (t : string) (f : Run → Run) : M unit :=
  self_paragraph <- gets _paragraph ;;
  if xml_text t
  then on_paragraph (TPar <$> self_paragraph)
         (par_add_runs [f (plain_run t)])
  else on_paragraph (TPar <$> self_paragraph)
         (par_add_runs [plain_run (written t)]) ;;
       raise ValueError.

(** The dictionary literal [_add_header_step] passes to [add_text] for
    the prefix; its absent [key], [depth] and [data] are never read. *)
Definition header_step_prefix (num : string) : Block :=
  {| type := "unstyled"; key := ""; text := num; depth := 0;
     entityRanges := [];
     inlineStyleRanges :=
       [{| sr_style := StyleName "header-step"; sr_offset := 0;
           sr_length := Py.len num |}];
     data := no_data |}.

Definition _add_header_step (ref : BlockRef) : M unit :=
  guarded (
    block <- read_block ref ;;
    modify (with_depth_level (depth block)) ;;
    __add_paragraph "Normal" ;;
    modify (fun s => with_step_header_elems (step_header_elems s + 1) s) ;;
    n <- gets step_header_elems ;;
    let num := Py.str n +:+ ". " in
    add_text (Literal (header_step_prefix num)) None ;;
    add_text ref None).

(** ** Lists *)

(** [depth_level + 2 if depth_level + 2 <= 4 else 3] *)
Definition ordered_depth_level (depth_level : Z) : Z :=
  if depth_level + 2 <=? 4 then depth_level + 2 else 3.

(** [depth_level += 2] *)
Definition unordered_depth_level (depth_level : Z) : Z := depth_level + 2.

Definition _add_list_item (ref : BlockRef) : M unit :=
  guarded (
    block <- read_block ref ;;
    let depth_level := depth block in
    (if String.eqb (type block) "ordered-list-item" then
       let depth_level := ordered_depth_level depth_level in
       let style_now := "List Number " +:+ Py.str depth_level in
       doc <- gets document ;;
       self_paragraph <- gets _paragraph ;;
       p <- lookup_or AttributeError
              (self_paragraph ≫= doc_paragraph doc) ;;
       (if negb (String.eqb (par_style p) style_now)
        then __add_paragraph "Normal" ;; add_run newline id
        else ret tt) ;;
       __add_paragraph style_now
     else if String.eqb (type block) "unordered-list-item" then
       let depth_level := unordered_depth_level depth_level in
       __add_paragraph ("List Bullet " +:+ Py.str depth_level)
     else ret tt) ;;
    add_text ref None).

(** ** Tables of cell blocks *)

(** The column count of the table [_add_table_cell] opens on the
    legacy path, by the depth of the block. *)
Definition cols_for_depth (depth : Z) : Z :=
  if depth =? 0 then 2
  else if depth =? 1 then 4
  else if depth =? 3 then 3
  else if depth =? 2 then 2
  else 1.

(** [self.document.add_table(rows, cols)]: the index of the table. *)
Definition add_table (rows : nat) (cols : Z) : M nat :=
  doc <- gets document ;;
  modify (with_document (doc ++ [ETable (new_table rows cols)])) ;;
  ret (length doc).

(** [table.add_row()] on the table object at [t]. *)
Definition add_row (t : nat) : M unit :=
  modify (fun s =>
    with_document
      (alter (fun e => match e with
                       | ETable tb => ETable (table_add_row tb)
                       | EParagraph p => EParagraph p
                       end) t (document s)) s).

(** The table object a handle refers to; a [None] handle raises
    [AttributeError] on its first attribute access. *)
Definition the_table (t : option nat) : M (nat * Table) :=
  doc <- gets document ;;
  match t with
  | Some i =>
      match doc_table doc i with
      | Some tb => ret (i, tb)
      | None => raise AttributeError
      end
  | None => raise AttributeError
  end.

(** [row.cells[c]] in the last row of [tb]. *)
Definition last_row_cell (tb : Table) (c : Z) : option Cell :=
  row ← last (tbl_rows tb); Py.getitem row c.

(** The position [c] designates in a row of [n] cells. *)
Definition cell_position (n : nat) (c : Z) : nat :=
  if 0 <=? c then Z.to_nat c else Z.to_nat (Z.of_nat n + c).

(** [row.cells[c].paragraphs[0]] in the last row of the table. *)
Definition last_row_target (tb : nat * Table) (c : Z) : Target :=
  TCell tb.1 (length (tbl_rows tb.2) - 1)
    (cell_position (tbl_cols tb.2) c).

Definition _add_table_cell (ref : BlockRef) : M unit :=
  guarded (
    block <- read_block ref ;;
    version <- gets doc_version ;;
    (if version =? 3 then
       match d_table (data block) with
       | Some cols =>
           t <- add_table 1 cols ;;
           modify (with_table (Some t)) ;;
           modify (with_cells 0)
       | None => ret tt
       end
     else
       ks <- gets keys ;;
       i <- lookup_or ValueError (Py.index ks (key block)) ;;
       let index_old := Z.of_nat i - 1 in
       blocks <- gets article_blocks ;;
       old_block <- lookup_or IndexError (Py.getitem blocks index_old) ;;
       (if negb (String.eqb (type old_block) "cell")
           || (index_old <? 0)
           || negb (depth old_block =? depth block)
        then modify (with_table None)
        else ret tt) ;;
       current <- gets table ;;
       match current with
       | Some _ => ret tt
       | None =>
           t <- add_table 1 (cols_for_depth (depth block)) ;;
           modify (with_table (Some t))
       end) ;;
    current <- gets table ;;
    tb <- the_table current ;;
    c <- gets cells ;;
    (match last_row_cell tb.2 c with
     | Some _ => ret tt
     | None => modify (with_cells 0) ;; add_row tb.1
     end) ;;
    tb <- the_table current ;;
    c <- gets cells ;;
    _ <- lookup_or IndexError (last_row_cell tb.2 c) ;;
    add_text ref (Some (last_row_target tb c)) ;;
    modify (fun s => with_cells (cells s + 1) s)).

(** ** Dictionaries *)

(** Shading every cell of row [r] of the table at [t]. *)
Definition shade_row (t r : nat) (fill : string) : M unit :=
  modify (fun s =>
    with_document
      (alter (fun e =>
         match e with
         | ETable tb =>
             ETable {| tbl_cols := tbl_cols tb;
                       tbl_rows :=
                         alter (fun row : list Cell => cell_add_shd fill <$> row) r
                           (tbl_rows tb) |}
         | EParagraph p => EParagraph p
         end) t (document s)) s).

Definition _add_dict (ref : BlockRef) : M unit :=
  guarded (
    block <- read_block ref ;;
    ks <- gets keys ;;
    i <- lookup_or ValueError (Py.index ks (key block)) ;;
    let index_old := Z.of_nat i - 1 in
    blocks <- gets article_blocks ;;
    old_block <- lookup_or IndexError (Py.getitem blocks index_old) ;;
    (if negb (String.eqb (type old_block) "dictionary") || (0 >? index_old)
     then modify (with_dict None)
     else ret tt) ;;
    current <- gets dict ;;
    (match current with
     | Some _ => ret tt
     | None =>
         t <- add_table 1 3 ;;
         modify (with_dict (Some t)) ;;
         modify (with_cells_d 0) ;;
         modify (with_rows_d 0)
     end) ;;
    current <- gets dict ;;
    tb <- the_table current ;;
    c <- gets cells_d ;;
    (match last_row_cell tb.2 c with
     | Some _ => ret tt
     | None => modify (with_cells_d 0) ;; add_row tb.1
     end) ;;
    tb <- the_table current ;;
    let last_row := (length (tbl_rows tb.2) - 1)%nat in
    (if Z.of_nat last_row mod 2 =? 0
     then shade_row tb.1 last_row "E7E7F9"
     else ret tt) ;;
    c <- gets cells_d ;;
    (if c =? 1 then modify (with_cells_d 2) else ret tt) ;;
    c <- gets cells_d ;;
    _ <- lookup_or IndexError (last_row_cell tb.2 c) ;;
    add_text ref (Some (last_row_target tb c)) ;;
    modify (fun s => with_cells_d (cells_d s + 1) s)).

(** ** Markdown tables *)

(** [d[k] = v] on a dictionary kept in insertion order. *)
Fixpoint dict_set (k v : string) (d : list (string * string))
  : list (string * string) :=
  match d with
  | [] => [(k, v)]
  | (k', v') :: r =>
      if String.eqb k' k then (k', v) :: r else (k', v') :: dict_set k v r
  end.

(** [[t.strip() for t in line.split('|')[1:-1]]] *)
Definition md_cells (line : string) : list string :=
  Py.strip <$> Py.slice_1_m1 (Py.split "|" line).

(** The dictionary of one data line: [data[col] = value] over
    [zip(header, values)]. *)
Definition md_row (header : list string) (line : string)
  : list (string * string) :=
  foldl (fun d cv => dict_set cv.1 cv.2 d) [] (zip header (md_cells line)).

Definition _read_markdown_table (table : string)
  : list (list (string * string)) :=
  let lines := Py.split "010" (Py.str_slice_1_m1 table) in
  let header :=
    match lines with
    | line :: _ => md_cells line
    | [] => []
    end in
  md_row header <$> drop 2 lines.

(** [cell.text = t]: the cell holds one paragraph with one run. *)
Definition cell_set_text (t : string) (c : Cell) : Cell :=
  cell_map_par (fun p =>
    {| par_style := par_style p; par_alignment := par_alignment p;
       par_runs := [plain_run t] |}) c.

(** [table.rows[-1].cells[cell_id].text = t] on the table at [t]; when
    the sink refuses the text, the cell holds what was written of
    it. *)
Definition set_last_row_text (t : nat) (cell_id : nat) (txt : string)
  : M unit :=
  tb <- the_table (Some t) ;;
  _ <- lookup_or IndexError (last_row_cell tb.2 (Z.of_nat cell_id)) ;;
  modify (fun s =>
    with_document
      (alter (fun e =>
         match e with
         | ETable tb =>
             ETable (table_map_cell (length (tbl_rows tb) - 1) cell_id
                       (cell_set_text (written txt)) tb)
         | EParagraph p => EParagraph p
         end) t (document s)) s) ;;
  if xml_text txt then ret tt else raise ValueError.

Definition _add_mdtable (ref : BlockRef) : M unit :=
  block <- read_block ref ;;
  let json_table := _read_markdown_table (text block) in
  match json_table with
  | [] => ret tt
  | first :: _ =>
      let rows := fst <$> first in
      let columns :=
        (fun row : list (string * string) => snd <$> row) <$> json_table in
      t <- add_table 0 (Z.of_nat (length first)) ;;
      add_row t ;;
      for_each (imap pair rows)
        (fun ir => set_last_row_text t ir.1 ir.2) ;;
      for_each columns (fun columns_ =>
        add_row t ;;
        for_each (imap pair columns_)
          (fun ic => set_last_row_text t ic.1 ic.2))
  end.

(** ** Pictures *)

(** [Cm(14.8)] in EMU. *)
Definition images_max_width : Z := 5328000.

(** The part of [_set_picture] that obtains the image stream: the data
    URL branch or the download, with the label it leaves. *)
Definition image_stream (url label : string) (border : bool)
  : M (string * string) :=
  sh <- gets shelf ;;
  _ <- lookup_or KeyError (shelf_id sh) ;;
  _ <- lookup_or KeyError (shelf_request_user_id sh) ;;
  if Py.contains "data:image" url then
    match Py.split "," url with
    | [header; content] =>
        stream <- lookup_or ExternalError (data_url_image W content) ;;
        _ <- lookup_or IndexError (Py.split "/" header !! 1%nat) ;;
        ret (stream, "")
    | _ => raise ValueError
    end
  else
    response <- lookup_or ExternalError (http_get W url) ;;
    let content := resp_content response in
    content_type <- lookup_or KeyError (resp_content_type response) ;;
    r <- (if String.eqb content_type "image/svg+xml" then
            match svg2png W with
            | Some convert =>
                png <- lookup_or ExternalError (convert content) ;;
                ret (png, false, "")
            | None => raise ValueError
            end
          else ret (content, border, label)) ;;
    if r.1.2
    then stream <- lookup_or ExternalError (pil_border W r.1.1) ;;
         ret (stream, r.2)
    else ret (r.1.1, r.2).

(** Mutating the last run of [self._paragraph]. *)
Definition on_last_run (f : Run → Run) : M unit :=
  self_paragraph <- gets _paragraph ;;
  on_paragraph (TPar <$> self_paragraph)
    (fun p =>
       {| par_style := par_style p; par_alignment := par_alignment p;
          par_runs := alter f (length (par_runs p) - 1)%nat (par_runs p) |}).

(** Mutating the run before the last run of [self._paragraph]. *)
Definition on_run_before_last (f : Run → Run) : M unit :=
  self_paragraph <- gets _paragraph ;;
  on_paragraph (TPar <$> self_paragraph)
    (fun p =>
       {| par_style := par_style p; par_alignment := par_alignment p;
          par_runs := alter f (length (par_runs p) - 2)%nat (par_runs p) |}).

Definition set_alignment (a : Z) : M unit :=
  self_paragraph <- gets _paragraph ;;
  on_paragraph (TPar <$> self_paragraph) (par_set_alignment a).

(** [_set_picture(url, label, depth, alignment=..., border=...)] with
    [reset_non_general], [position] and [set_automaticly] at their
    defaults, as in every call of the exporter.  A picture wider than
    [images_max_width] is scaled by its aspect ratio, a division by
    its height. *)
Definition _set_picture (url label : string) (depth alignment : Z)
    (border : bool) : M unit :=
  guarded (
    if String.eqb url "" then ret tt
    else
      modify (fun s => with_depth_level (depth_level s + depth) s) ;;
      __reset_non_general ;;
      __add_paragraph "Normal" ;;
      set_alignment alignment ;;
      sl <- image_stream url label border ;;
      add_run "" id ;;
      figure <- try_except (is_exn UnrecognizedImageError)
                  (lift_res (docx_picture W sl.1))
                  (fun e => raise e) ;;
      (if (images_max_width <? figure.1) && (figure.2 =? 0)
       then on_last_run
              (run_add_picture
                 {| pic_source := sl.1; pic_px := None;
                    pic_width := Some figure.1 |}) ;;
            raise ZeroDivisionError
       else on_last_run
              (run_add_picture
                 {| pic_source := sl.1; pic_px := None;
                    pic_width := Some (Z.min figure.1 images_max_width) |})) ;;
      (if String.eqb sl.2 "" then ret tt
       else __add_paragraph "Caption" ;;
            add_run sl.2 (fun r => run_set_bold
                                     (run_set_color font_color_rgb r))) ;;
      modify (fun s => with_depth_level (depth_level s - depth) s)).

Definition _add_figure (ref : BlockRef) : M unit :=
  guarded (
    block <- read_block ref ;;
    let position := default "" (d_align (data block)) in
    let align :=
      if String.eqb position "center" then 1
      else if String.eqb position "right" then 2
      else if String.eqb position "left" then 0
      else 1 in
    _set_picture (default "" (d_src (data block)))
      (default "" (d_label (data block)))
      (default 0 (d_depth (data block))) align true).

(** ** Headers, fall-back text and block links *)

Definition _add_headers (ref : BlockRef) : M unit :=
  block <- read_block ref ;;
  if String.eqb (type block) "header-two" then
    __add_paragraph "heading 1" ;;
    add_run (text block)
      (fun r => run_set_bold
                  (run_set_font "Inter"
                     (run_set_color (52, 171, 118) (run_set_size 32 r))))
  else if String.eqb (type block) "header-three" then
    __add_paragraph "Normal" ;;
    add_run (text block)
      (fun r => run_set_bold
                  (run_set_color font_color_rgb
                     (run_set_font font_name (run_set_size 24 r))))
  else ret tt.

(** [reset(block)]: the text of a block of any other type. *)
Definition reset (ref : BlockRef) : M unit :=
  guarded (add_text ref None).

(** The entity range refers to an entity whose data has style
    ['block']. *)
Definition is_block_link (em : gmap string Entity) (er : EntityRange)
  : bool :=
  match em !! er_key er with
  | Some e => bool_decide (ent_style e = Some "block")
  | None => false
  end.

Definition add_block_link (ref : BlockRef) : M unit :=
  guarded (
    block <- read_block ref ;;
    __add_paragraph "Normal" ;;
    em <- gets entity_map ;;
    let ht :=
      foldl (fun ht er =>
               if is_block_link em er
               then (default "" (em !! er_key er ≫= ent_href), text block)
               else ht)
        ("", "") (entityRanges block) in
    add_run (ht.2 +:+ newline) (run_set_color (76, 174, 227)) ;;
    add_run ht.1 id ;;
    let f := fun r =>
      run_set_font font_name (run_set_size 24 (run_set_italic r)) in
    on_last_run f ;;
    on_run_before_last f).

(** ** Blockquotes, code blocks, gists and videos *)

(** Mutating the cell [(r, c)] of the table at [t]. *)
Definition on_cell (t r c : nat) (f : Cell → Cell) : M unit :=
  modify (fun s =>
    with_document
      (alter (fun e => match e with
                       | ETable tb => ETable (table_map_cell r c f tb)
                       | EParagraph p => EParagraph p
                       end) t (document s)) s).

Definition par_on_first_run (f : Run → Run) (p : Paragraph) : Paragraph :=
  {| par_style := par_style p; par_alignment := par_alignment p;
     par_runs := alter f 0%nat (par_runs p) |}.

Definition _add_blockquote (ref : BlockRef) (style : option string)
  : M unit :=
  guarded (
    block <- read_block ref ;;
    modify (fun s => with_depth_level (depth_level s + depth block) s) ;;
    __reset_non_general ;;
    let look :=
      if bool_decide (style = Some "warning")
      then ("FFD9D9", "warning",
            "docsie/converters/converters/source/warning.png")
      else if bool_decide (style = Some "question")
      then ("E7FDF8", "question",
            "docsie/converters/converters/source/question.png")
      else ("EAEEF2", "default",
            "docsie/converters/converters/source/info.png") in
    let shadow_color := look.1.1 in
    let style_type := look.1.2 in
    let img := look.2 in
    __add_paragraph "Normal" ;;
    t <- add_table 1 2 ;;
    add_text ref (Some (TCell t 0 1)) ;;
    on_cell t 0 0 (cell_map_par (par_add_runs [plain_run ""])) ;;
    (if icon_file W img then ret tt else raise ExternalError) ;;
    on_cell t 0 0
      (cell_map_par (fun p =>
         par_set_style (style_type +:+ "docsie")
           {| par_style := par_style p; par_alignment := par_alignment p;
              par_runs :=
                alter (run_add_picture
                         {| pic_source := img; pic_px := None;
                            pic_width := None |})
                  (length (par_runs p) - 1)%nat (par_runs p) |})) ;;
    on_cell t 0 1
      (cell_map_par (fun p =>
         par_on_first_run (run_set_size font_size)
           (par_set_style (style_type +:+ "docsie") p))) ;;
    on_cell t 0 1 (cell_add_shd shadow_color) ;;
    on_cell t 0 0 (cell_add_shd shadow_color) ;;
    modify (fun s => with_depth_level (depth_level s - depth block) s)).

(** [cell.text = txt] on the cell [(r, c)] of the table at [t]. *)
Definition set_cell_text (t r c : nat) (txt : string) : M unit :=
  on_cell t r c (cell_set_text (written txt)) ;;
  if xml_text txt then ret tt else raise ValueError.

(** Mutating [cell.paragraphs[0].runs[0]]. *)
Definition on_cell_run (t r c : nat) (f : Run → Run) : M unit :=
  on_cell t r c (cell_map_par (par_on_first_run f)).

Definition _add_block_code (ref : BlockRef) : M unit :=
  guarded (
    block <- read_block ref ;;
    __add_paragraph "Normal" ;;
    information_table <- add_table 1 2 ;;
    let f := fun r => run_set_font font_name (run_set_size font_size r) in
    set_cell_text information_table 0 0
      (default "" (d_label (data block))) ;;
    set_cell_text information_table 0 1
      (default "" (d_type (data block))) ;;
    on_cell_run information_table 0 0 f ;;
    on_cell_run information_table 0 1 f ;;
    block_code_table <- add_table 1 1 ;;
    set_cell_text block_code_table 0 0 (text block) ;;
    on_cell_run block_code_table 0 0
      (fun r => run_set_font "Courier New" (run_set_size 20 r))).

Definition _add_gist (ref : BlockRef) : M unit :=
  guarded (
    block <- read_block ref ;;
    __add_paragraph "Normal" ;;
    block_code_table <- add_table 1 1 ;;
    set_cell_text block_code_table 0 0 (default "" (d_src (data block))) ;;
    on_cell_run block_code_table 0 0
      (fun r => run_set_font "Courier New" (run_set_size 20 r))).

Definition _add_video (ref : BlockRef) : M unit :=
  guarded (
    block <- read_block ref ;;
    __add_paragraph "Normal" ;;
    set_alignment 1 ;;
    match d_src (data block) with
    | None => ret tt
    | Some url =>
        (match video_big_image W url with
         | Some big_image => _set_picture big_image "" 0 1 true
         | None => ret tt
         end) ;;
        let label := default "" (d_label (data block)) in
        __add_paragraph "Caption" ;;
        add_run label run_set_bold ;;
        add_run newline id ;;
        add_run url run_set_bold
    end).

(** ** Article head, book title and title page *)

Definition _set_article (article : Article) : M unit :=
  guarded (
    __add_paragraph "Normal" ;;
    (match art_icon article with
     | Some icon => _set_picture icon "" 0 1 false
     | None => ret tt
     end) ;;
    __add_paragraph "Normal" ;;
    add_run newline id ;;
    add_run (art_name article)
      (fun r => run_set_bold
                  (run_set_color font_color_rgb
                     (run_set_font font_name (run_set_size 36 r)))) ;;
    set_alignment 1 ;;
    __add_paragraph "Normal" ;;
    add_run (art_description article)
      (fun r => run_set_bold
                  (run_set_color font_color_rgb
                     (run_set_font font_name (run_set_size 24 r)))) ;;
    set_alignment 1 ;;
    __add_paragraph "Normal").

Definition _add_book_title (name : string) : M unit :=
  guarded (
    add_run name
      (fun r => run_set_bold
                  (run_set_color font_color_rgb
                     (run_set_size 48 (run_set_font "Inter" r))))).

(** Modelled from the spec: [add_float_picture] of [source.xml_templates]
    is not among the sources; the title block of section 4.5 is taken
    to anchor the background picture in the paragraph it is given. *)
Definition add_float_picture (path : string) : M unit :=
  add_run ""
    (run_add_picture
       {| pic_source := path; pic_px := None; pic_width := None |}).

Definition _add_title_page (name : string) : M unit :=
  guarded (
    __add_paragraph "Normal" ;;
    add_run name
      (fun r => run_set_bold
                  (run_set_color (52, 171, 118)
                     (run_set_size 56 (run_set_font "Inter" r)))) ;;
    __add_paragraph "Normal" ;;
    add_float_picture "background.jpg").

(** ** The depth-normalization pre-pass of [export] *)

(** The [depths] list of one cell block: the depths of the three
    blocks from the first position of its key, or [[1, 1, 1]] when the
    peek runs past the end ([IndexError]).  [None]: the key is not in
    [keys] ([ValueError], which the inner handler does not catch). *)
Definition peek_depths (ks : list string) (blocks : list Block)
    (b : Block) : option (Z * Z * Z) :=
  p ← Py.index ks (key b);
  Some match blocks !! p, blocks !! (p + 1)%nat, blocks !! (p + 2)%nat with
       | Some b0, Some b1, Some b2 => (depth b0, depth b1, depth b2)
       | _, _, _ => (1, 1, 1)
       end.

(** One iteration of the [while] loop at [index_cell]: the blocks
    afterwards and the next value of [index_cell]; [None] when an
    exception leaves the loop. *)
Definition normalize_cell (ks : list string) (blocks : list Block)
    (index_cell : nat) : list Block * option nat :=
  match blocks !! index_cell with
  | None => (blocks, None)
  | Some b =>
      if String.eqb (type b) "cell" then
        match peek_depths ks blocks b with
        | None => (blocks, None)
        | Some depths =>
            if (depth b =? 1) && (depths.2 =? 2) then
              let blocks1 := alter (set_depth 3) index_cell blocks in
              if bool_decide (index_cell + 1 < length blocks)%nat then
                let blocks2 :=
                  alter (set_depth 3) (index_cell + 1)%nat blocks1 in
                if bool_decide (index_cell + 2 < length blocks)%nat then
                  (alter (set_depth 3) (index_cell + 2)%nat blocks2,
                   Some (index_cell + 2)%nat)
                else (blocks2, None)
              else (blocks1, None)
            else (blocks, Some (index_cell + 1)%nat)
        end
      else (blocks, Some (index_cell + 1)%nat)
  end.

(** The [while index_cell < len(self.article_blocks)] loop, with the
    number of iterations it may still take. *)
Fixpoint normalize_loop (fuel : nat) (ks : list string)
    (blocks : list Block) (index_cell : nat) : list Block :=
  match fuel with
  | O => blocks
  | S fuel' =>
      if bool_decide (index_cell < length blocks)%nat then
        match normalize_cell ks blocks index_cell with
        | (blocks', Some next) => normalize_loop fuel' ks blocks' next
        | (blocks', None) => blocks'
        end
      else blocks
  end.

(** The pre-pass: [index_cell] grows at every iteration, so the loop
    ends within [len(self.article_blocks)] iterations. *)
Definition normalize_depths (ks : list string) (blocks : list Block)
  : list Block :=
  normalize_loop (length blocks) ks blocks 0.

(** ** The block dispatcher and the assembly driver *)

(** The synthetic terminal block of an article; it has no [key] in the
    source, and none is read from it. *)
Definition terminal_block : Block :=
  {| type := "unstyled"; key := ""; text := ""; depth := 0;
     entityRanges := []; inlineStyleRanges := []; data := no_data |}.

(** The [if]/[elif] chain of the loop body of [export], on the type
    tag of the block. *)
Definition route (ref : BlockRef) (block : Block) : M unit :=
  em <- gets entity_map ;;
  let ty := type block in
  if String.eqb ty "unstyled"
     && existsb (is_block_link em) (entityRanges block)
  then add_block_link ref
  else if String.eqb ty "unstyled" then
    __reset_non_general ;;
    __add_paragraph "Normal" ;;
    modify (fun s => with_depth_level (depth_level s + depth block) s) ;;
    add_text ref None ;;
    modify (fun s => with_depth_level (depth_level s - depth block) s)
  else if String.eqb ty "figure" then _add_figure ref
  else if String.eqb ty "mdtable" then _add_mdtable ref
  else if String.eqb ty "header-two" || String.eqb ty "header-three"
  then _add_headers ref
  else if String.eqb ty "ordered-list-item"
          || String.eqb ty "unordered-list-item"
  then _add_list_item ref
  else if String.eqb ty "dictionary" then _add_dict ref
  else if String.eqb ty "cell" then _add_table_cell ref
  else if String.eqb ty "blockquote"
  then _add_blockquote ref (d_style (data block))
  else if String.eqb ty "header-step" then _add_header_step ref
  else if String.eqb ty "code-block" then _add_block_code ref
  else if String.eqb ty "video" then _add_video ref
  else if String.eqb ty "gist-block" then _add_gist ref
  else reset ref.

(** The body of [for block in self.article_blocks], for the block
    object at position [i]. *)
Definition dispatch (i : nat) : M unit :=
  try_except any_exn (
    block <- read_block (InArticle i) ;;
    route (InArticle i) block ;;
    modify (with_depth_level 1))
  captureException.

(** Resolving the snippet blocks of an article into [parsed_blocks]. *)
Fixpoint parse_blocks (blocks : list Block) : M (list Block) :=
  match blocks with
  | [] => ret []
  | block :: rest =>
      head <- (if String.eqb (type block) "snippet" then
                 src <- lookup_or KeyError (d_src (data block)) ;;
                 lookup_or ExternalError (resolve_snippet W src)
               else ret [block]) ;;
      tail <- parse_blocks rest ;;
      ret (head ++ tail)
  end.

(** The body of [for article in articles]. *)
Definition export_article (article : Article) : M unit :=
  modify (with_entity_map (art_entity_map article)) ;;
  parsed_blocks <- parse_blocks (art_blocks article) ;;
  modify (with_article_blocks parsed_blocks) ;;
  modify (with_keys (key <$> parsed_blocks)) ;;
  modify (with_doc_version (art_doc_version article)) ;;
  _set_article article ;;
  version <- gets doc_version ;;
  (if version <=? 2
   then modify (fun s =>
          with_article_blocks
            (normalize_depths (keys s) (article_blocks s)) s)
   else ret tt) ;;
  modify (fun s =>
    with_article_blocks (article_blocks s ++ [terminal_block]) s) ;;
  blocks <- gets article_blocks ;;
  for_each (seq 0 (length blocks)) dispatch.

(** The per-book reset of [export]. *)
Definition reset_book (s : Exporter) : Exporter :=
  with_dict None
    (with_rows 0
       (with_cells 0
          (with_step_list_items 0
             (with_step_header_elems 0 (with_depth_level 1 s))))).

(** The body of [for i, book in enumerate(self.shelf['books'])]. *)
Definition export_book (book : Book) : M unit :=
  guarded (
    _add_book_title (book_name book) ;;
    modify reset_book ;;
    for_each (book_articles book) export_article) ;;
  add_run "" run_add_break.

Definition export : M unit :=
  guarded (
    sh <- gets shelf ;;
    _add_title_page (shelf_name sh) ;;
    for_each (shelf_books sh) export_book).

(** [DocxExporter(shelf_data)]: the fields [__init__] sets; the others
    are set by [export] before they are read. *)
Definition new_exporter (shelf_data : Shelf) : Exporter :=
  {| shelf := shelf_data; document := []; _paragraph := None;
     depth_level := 1; table := None; table_col_index := 0;
     cols_num := 0; cells_d := 0; rows_d := 0; step_header_elems := 0;
     step_list_items := 0; cells := 0; rows := 0; dict := None;
     entity_map := ∅; article_blocks := []; keys := [];
     doc_version := 0; captured := [] |}.

End Exporter.

(** ** Style merge post-processor: [DocxMergeStyles] *)

Module MergeStyles.

(** A Python object as the merge sees it: a value, or an object with
    attributes.  [getattr] raises [AttributeError] for an attribute the
    object does not have. *)
#[warnings="-register-all"]
Inductive PyObj :=
| PyValue (v : string)
| PyObject (attrs : list (string * PyObj)).

Fixpoint assoc_get (name : string) (attrs : list (string * PyObj))
  : option PyObj :=
  match attrs with
  | [] => None
  | (k, v) :: r => if String.eqb k name then Some v else assoc_get name r
  end.

Fixpoint assoc_set (name : string) (v : PyObj)
    (attrs : list (string * PyObj)) : list (string * PyObj) :=
  match attrs with
  | [] => [(name, v)]
  | (k, v') :: r =>
      if String.eqb k name then (k, v) :: r
      else (k, v') :: assoc_set name v r
  end.

Definition getattr (o : PyObj) (name : string) : Res PyObj :=
  match o with
  | PyObject attrs =>
      match assoc_get name attrs with
      | Some v => Ok v
      | None => Raise AttributeError
      end
  | PyValue _ => Raise AttributeError
  end.

(** [setattr(o, name, v)], as the object [o] afterwards. *)
Definition setattr (o : PyObj) (name : string) (v : PyObj) : Res PyObj :=
  match o with
  | PyObject attrs => Ok (PyObject (assoc_set name v attrs))
  | PyValue _ => Raise AttributeError
  end.

Definition res_bind {A B} (r : Res A) (f : A → Res B) : Res B :=
  match r with
  | Ok a => f a
  | Raise e => Raise e
  end.

(** [reduce(getattr, path, o)] *)
Fixpoint reduce_getattr (path : list string) (o : PyObj) : Res PyObj :=
  match path with
  | [] => Ok o
  | name :: rest => res_bind (getattr o name) (reduce_getattr rest)
  end.

(** [setattr(reduce(getattr, path[:-1], o), path[-1], v)], as the
    object [o] afterwards: the inner object is mutated in place. *)
Fixpoint setattr_path (path : list string) (v : PyObj) (o : PyObj)
  : Res PyObj :=
  match path with
  | [] => Raise IndexError
  | [name] => setattr o name v
  | name :: rest =>
      res_bind (getattr o name) (fun child =>
      res_bind (setattr_path rest v child) (fun child' =>
      setattr o name child'))
  end.

(** The body of [for attr in self.__copy_attrs]: the style font of the
    paragraph after the copy, or the exception. *)
Definition copy_attr (based_style font : PyObj) (attr : string)
  : Res PyObj :=
  if Py.contains "." attr then
    let path := Py.split "." attr in
    res_bind (reduce_getattr (removelast path) font) (fun _ =>
    res_bind (reduce_getattr path based_style) (fun bs =>
    setattr_path path bs font))
  else
    res_bind (getattr based_style attr) (setattr font attr).

(** The loop over the attributes: the font as left by the copies made,
    and the exception that ended the loop, if any. *)
Fixpoint copy_attrs_loop (based_style font : PyObj) (attrs : list string)
  : PyObj * option Exn :=
  match attrs with
  | [] => (font, None)
  | attr :: rest =>
      match copy_attr based_style font attr with
      | Ok font' => copy_attrs_loop based_style font' rest
      | Raise e => (font, Some e)
      end
  end.

(** A template document: per paragraph, its style name and the fonts of
    its runs ([None]: [getattr(run, 'font', None)] is not truthy). *)
Definition BasedDoc : Type := list (string * list (option PyObj)).

(** A produced document: the style names of its paragraphs, and the
    font object of each paragraph style (shared by the paragraphs of
    that style; a style never seen has a font without attributes). *)
Record InputDoc := {
  paragraphs : list string;
  style_fonts : gmap string PyObj
}.

Definition style_font (fonts : gmap string PyObj) (name : string)
  : PyObj :=
  default (PyObject []) (fonts !! name).

(** The first loop of [__merge]: the last font seen for a style name
    wins. *)
Definition based_fonts (based_doc : BasedDoc) : gmap string PyObj :=
  foldl (fun fonts pr =>
           foldl (fun fonts run =>
                    match run with
                    | Some font => <[pr.1 := font]> fonts
                    | None => fonts
                    end) fonts pr.2)
    ∅ based_doc.

(** The loop over the paragraphs of the produced document. *)
Fixpoint merge_paragraphs (based : gmap string PyObj)
    (copy_attrs : list string) (pars : list string)
    (fonts : gmap string PyObj) : gmap string PyObj * option Exn :=
  match pars with
  | [] => (fonts, None)
  | name :: rest =>
      match based !! name with
      | Some based_style =>
          match copy_attrs_loop based_style (style_font fonts name)
                  copy_attrs with
          | (font, None) =>
              merge_paragraphs based copy_attrs rest (<[name := font]> fonts)
          | (font, Some e) => (<[name := font]> fonts, Some e)
          end
      | None => merge_paragraphs based copy_attrs rest fonts
      end
  end.

(** [DocxMergeStyles(copy_attrs).__copy_attrs] *)
Definition default_copy_attrs : list string :=
  ["italic"; "math"; "no_proof"; "web_hidden"; "strike"; "subscript";
   "rtl"; "size"; "color.rgb"; "shadow"; "highlight_color"; "hidden";
   "cs_bold"; "name"].

Definition init_copy_attrs (copy_attrs : list string) : list string :=
  match copy_attrs with
  | [] => default_copy_attrs
  | _ => copy_attrs
  end.

(** The outcome of a merge: the produced document as the merge left it,
    what the call returned ([None] after an exception) and the
    exceptions sent to [raven]. *)
Record Outcome := {
  out_doc : InputDoc;
  out_returned : option InputDoc;
  out_captured : list Exn
}.

(** [DocxMergeStyles(copy_attrs).__merge(input_doc, based_doc)] *)
Definition __merge (copy_attrs : list string) (input_doc : InputDoc)
    (based_doc : BasedDoc) : Outcome :=
  let r := merge_paragraphs (based_fonts based_doc)
             (init_copy_attrs copy_attrs) (paragraphs input_doc)
             (style_fonts input_doc) in
  let doc := {| paragraphs := paragraphs input_doc;
                style_fonts := r.1 |} in
  match r.2 with
  | None =>
      {| out_doc := doc; out_returned := Some doc; out_captured := [] |}
  | Some e =>
      {| out_doc := doc; out_returned := None; out_captured := [e] |}
  end.

(** [DocxMergeStyles.merge(input_doc, based_doc)] *)
Definition merge (input_doc : InputDoc) (based_doc : BasedDoc) : Outcome :=
  __merge [] input_doc based_doc.

End MergeStyles.

(** * Definitions used by the statements and the proofs *)

(** ** Frame conditions *)

(** [m] leaves the observation [f] of the exporter as it is. *)
Definition preserves {A B} (f : Exporter → B) (m : M A) : Prop :=
  ∀ s, f (m s).2 = f s.

(** ** Paragraphs and the styles of the template *)

(** [__add_paragraph] for a style the template has: the paragraph is
    appended with that style and becomes the current one. *)
Definition new_paragraph (style : string) : M unit :=
  guarded (
    modify (fun s =>
      let p :=
        if String.eqb style "Caption"
        then par_set_alignment 1 (empty_paragraph style)
        else empty_paragraph style in
      with_paragraph (Some (length (document s)))
        (with_document (document s ++ [EParagraph p]) s))).

(** [__add_paragraph] for a style the template lacks: an unstyled
    paragraph is left in the document, the current paragraph is the
    one before, and [KeyError] is reported. *)
Definition stray_paragraph (s : Exporter) : Exporter :=
  with_captured (captured s ++ [KeyError])
    (with_document
       (document s ++ [EParagraph (empty_paragraph "Normal")]) s).

(** [add_run] for a text the sink takes. *)
Definition put_run (t : string) (f : Run → Run) : M unit :=
  self_paragraph <- gets _paragraph ;;
  on_paragraph (TPar <$> self_paragraph) (par_add_runs [f (plain_run t)]).

(** ** What [add_text] renders and where *)

(** The runs [add_text] appends for a block: none when the folding of
    its entity ranges raised, the unstyled runs up to the character
    the sink refused when it refused one. *)
Definition rendered_runs (W : World) (has_paragraph : bool)
    (em : gmap string Entity) (b : Block) : list Run :=
  match styled_ranges em b with
  | (ranges, None) =>
      if xml_text (text b)
      then build_runs W has_paragraph (text b) ranges
      else refused_runs (String.list_ascii_of_string (text b))
  | (_, Some _) => []
  end.

(** The paragraph [add_text] writes to. *)
Definition effective_target (tg : option Target) (s : Exporter)
  : option Target :=
  match tg with
  | Some t => Some t
  | None => TPar <$> _paragraph s
  end.


(** The entry [add_text] appends for one entity range, if any. *)
Definition entity_style (em : gmap string Entity) (er : EntityRange)
  : option StyleRange :=
  e ← em !! er_key er;
  entity_type ← ent_type e;
  if String.eqb entity_type "LINK" then
    href ← ent_href e;
    Some {| sr_style := StyleLink href; sr_offset := er_offset er;
            sr_length := er_length er |}
  else if String.eqb entity_type "IMG" then
    Some {| sr_style := StyleImg e; sr_offset := er_offset er;
            sr_length := er_length er |}
  else None.

(** A range that refers to a LINK entity finds its [href]. *)
Definition link_ok (em : gmap string Entity) (er : EntityRange) : Prop :=
  ∀ e, em !! er_key er = Some e → ent_type e = Some "LINK" →
       is_Some (ent_href e).

(** Everything one call of [add_text] appends to the list. *)
Definition added_ranges (em : gmap string Entity) (b : Block)
  : list StyleRange :=
  omap (entity_style em) (entityRanges b) ++
  (if String.eqb (type b) "header-step" then [header_step_range b] else []).

(** The run of one character of a header-step prefix: bold, 10.5 pt. *)
Definition header_step_run (c : ascii) : Run :=
  run_set_size 21 (run_set_bold (slot_run (new_slot c))).

(** ** Tables filled cell by cell *)

(** A cell that received the runs [runs], and the cell of a position
    that may not have been reached yet. *)
Definition filled (runs : list Run) : Cell :=
  cell_map_par (par_add_runs runs) empty_cell.

Definition cell_of (o : option (list Run)) : Cell :=
  match o with
  | Some runs => filled runs
  | None => empty_cell
  end.

(** A cell whose text was assigned. *)
Definition text_cell (t : string) : Cell := cell_set_text t empty_cell.

(** The cursor and the number of rows after [k] cells were placed in a
    table of [cols] columns that started with one row and cursor 0. *)
Definition cursor_after (cols k : nat) : nat :=
  match k with
  | O => O
  | S k' => S (k' mod cols)
  end.

Definition rows_after (cols k : nat) : nat :=
  match k with
  | O => 1
  | S k' => S (k' / cols)
  end.

(** The table holds the contents [cs], row by row, in [cols] columns;
    the positions after them are empty cells. *)
Definition table_holds (cols : nat) (cs : list (list Run)) (tb : Table)
  : Prop :=
  tbl_cols tb = cols ∧
  length (tbl_rows tb) = rows_after cols (length cs) ∧
  Forall (λ row, length row = cols) (tbl_rows tb) ∧
  ∀ r c, (r < length (tbl_rows tb))%nat → (c < cols)%nat →
    table_cell tb r c = Some (cell_of (cs !! (r * cols + c)%nat)).

(** Where the next cell goes: in the last row at the cursor when it is
    within the row, else at the start of a row appended to the table. *)
Definition next_table (cols k : nat) (tb : Table) : Table :=
  if decide (cursor_after cols k < cols)%nat then tb else table_add_row tb.

Definition next_column (cols k : nat) : nat :=
  if decide (cursor_after cols k < cols)%nat then cursor_after cols k else O.

(** ** The two halves of [_add_table_cell] *)

(** Lines 1111-1143: finding or opening the table of the block. *)
Definition open_table (version : Z) (block : Block) : M unit :=
  if version =? 3 then
    match d_table (data block) with
    | Some cols =>
        t <- add_table 1 cols ;;
        modify (with_table (Some t)) ;;
        modify (with_cells 0)
    | None => ret tt
    end
  else
    ks <- gets keys ;;
    i <- lookup_or ValueError (Py.index ks (key block)) ;;
    let index_old := Z.of_nat i - 1 in
    blocks <- gets article_blocks ;;
    old_block <- lookup_or IndexError (Py.getitem blocks index_old) ;;
    (if negb (String.eqb (type old_block) "cell")
        || (index_old <? 0)
        || negb (depth old_block =? depth block)
     then modify (with_table None)
     else ret tt) ;;
    current <- gets table ;;
    match current with
    | Some _ => ret tt
    | None =>
        t <- add_table 1 (cols_for_depth (depth block)) ;;
        modify (with_table (Some t))
    end.

(** Lines 1145-1154: placing the text in the last row. *)
Definition place_cell (W : World) (ref : BlockRef) : M unit :=
  current <- gets table ;;
  tb <- the_table current ;;
  c <- gets cells ;;
  (match last_row_cell tb.2 c with
   | Some _ => ret tt
   | None => modify (with_cells 0) ;; add_row tb.1
   end) ;;
  tb <- the_table current ;;
  c <- gets cells ;;
  _ <- lookup_or IndexError (last_row_cell tb.2 c) ;;
  add_text W ref (Some (last_row_target tb c)) ;;
  modify (fun s => with_cells (cells s + 1) s).

(** A table as the sink builds it: at least one row, every row as wide
    as the table, at least one column. *)
Definition wf_table (tb : Table) : Prop :=
  (0 < length (tbl_rows tb))%nat ∧
  Forall (λ row, length row = tbl_cols tb) (tbl_rows tb) ∧
  (0 < tbl_cols tb)%nat.

(** The column the cursor designates and the table the cell is placed
    in. *)
Definition placed_column (tb : Table) (c : Z) : nat :=
  if decide (c < Z.of_nat (tbl_cols tb)) then Z.to_nat c else O.

Definition placed_table (tb : Table) (c : Z) : Table :=
  if decide (c < Z.of_nat (tbl_cols tb)) then tb else table_add_row tb.

(** The test of line 1121 that drops the current table. *)
Definition drops_table (old_block block : Block) (i : nat) : bool :=
  negb (String.eqb (type old_block) "cell")
  || (Z.of_nat i - 1 <? 0)
  || negb (depth old_block =? depth block).

(** The length of the document and the width of the table at [n]. *)
Definition shape_at (n : nat) (s : Exporter) : nat * option nat :=
  (length (document s), tbl_cols <$> doc_table (document s) n).

(** ** A run of cell blocks *)

(** What the tracker reads of the blocks: type, key and depth. *)
Definition skeleton (l : list Block) : list (string * string * Z) :=
  (λ b, (type b, key b, depth b)) <$> l.

(** The width of the table of a run at depth [d], and the content of
    the cell of a block of the run that starts in state [s0]. *)
Definition run_cols (d : Z) : nat := Z.to_nat (cols_for_depth d).

Definition run_content (W : World) (s0 : Exporter) (b : Block) : list Run :=
  rendered_runs W (bool_decide (is_Some (_paragraph s0))) (entity_map s0) b.

(** The state after the first [k] blocks of the run [bs] that starts
    at position [p] in state [s0]. *)
Definition run_inv (W : World) (s0 : Exporter) (p : nat) (bs : list Block)
    (d : Z) (k : nat) (s : Exporter) : Prop :=
  doc_version s = doc_version s0 ∧
  keys s = keys s0 ∧
  entity_map s = entity_map s0 ∧
  _paragraph s = _paragraph s0 ∧
  skeleton (article_blocks s) = skeleton (article_blocks s0) ∧
  (∀ j, (p + k ≤ j)%nat → article_blocks s !! j = article_blocks s0 !! j) ∧
  ∃ tb,
    document s = document s0 ++ [ETable tb] ∧
    table s = Some (length (document s0)) ∧
    table_holds (run_cols d) (run_content W s0 <$> take k bs) tb ∧
    cells s = Z.of_nat (cursor_after (run_cols d) k).

(** ** The depth-normalization pre-pass *)

(** The cell block at [i] exhibits the depth pattern [1, ?, 2]. *)
Definition has_pattern (blocks : list Block) (i : nat) : bool :=
  match blocks !! i, blocks !! (i + 2)%nat with
  | Some b, Some b2 =>
      String.eqb (type b) "cell" && (depth b =? 1) && (depth b2 =? 2)
  | _, _ => false
  end.

(** No cell block exhibits the pattern. *)
Definition normalized (blocks : list Block) : Prop :=
  ∀ i, has_pattern blocks i = false.

(** The blocks after a rewrite of the triple at [i]. *)
Definition rewrite_triple (i : nat) (blocks : list Block) : list Block :=
  alter (set_depth 3) (i + 2)%nat
    (alter (set_depth 3) (i + 1)%nat (alter (set_depth 3) i blocks)).

(** ** Counting header steps *)

(** The number of header-step blocks among blocks, by their types. *)
Definition count_header_steps (tys : list string) : nat :=
  length (filter (λ ty, ty = "header-step") tys).

Definition header_steps (blocks : list Block) : nat :=
  count_header_steps (type <$> blocks).

Definition book_header_steps (book : Book) : nat :=
  sum_list (header_steps ∘ art_blocks <$> book_articles book).

(** No block is a snippet reference. *)
Definition no_snippets (blocks : list Block) : Prop :=
  Forall (λ b, type b ≠ "snippet") blocks.

(** The types of the blocks of the current article. *)
Definition types (s : Exporter) : list string := type <$> article_blocks s.

(** ** Markdown sample text *)

(** The text [|h1|h2|\n|--|--|\n|a|b|\n]. *)
Definition md_text : string :=
  "|h1|h2|" +:+ newline +:+ "|--|--|" +:+ newline +:+ "|a|b|" +:+ newline.

(** ** The style merge as the specification words it *)

Module MergeSpec.
Import MergeStyles.

(** The loop over the attributes where a failing copy is skipped and
    the loop goes on with the next attribute. *)
Fixpoint copy_attrs_skipping (based_style font : PyObj)
    (attrs : list string) : PyObj :=
  match attrs with
  | [] => font
  | attr :: rest =>
      match copy_attr based_style font attr with
      | Ok font' => copy_attrs_skipping based_style font' rest
      | Raise _ => copy_attrs_skipping based_style font rest
      end
  end.

(** The loop over the paragraphs on top of it. *)
Fixpoint merge_paragraphs_skipping (based : gmap string PyObj)
    (copy_attrs : list string) (pars : list string)
    (fonts : gmap string PyObj) : gmap string PyObj :=
  match pars with
  | [] => fonts
  | name :: rest =>
      match based !! name with
      | Some based_style =>
          merge_paragraphs_skipping based copy_attrs rest
            (<[name := copy_attrs_skipping based_style
                         (style_font fonts name) copy_attrs]> fonts)
      | None => merge_paragraphs_skipping based copy_attrs rest fonts
      end
  end.

End MergeSpec.

(** ** Sample inputs *)

Module Sample.

(** No network, no image codec, no snippet database. *)
Definition offline : World :=
  {| http_get := λ _, None;
     docx_picture := λ _, Raise UnrecognizedImageError;
     data_url_image := λ _, None;
     svg2png := None;
     pil_border := λ _, None;
     icon_file := λ _, false;
     video_big_image := λ _, None;
     resolve_snippet := λ _, None |}.

(** Every URL is served as [image/webp]: a payload that PIL reads and
    re-encodes as it is, and that the document sink does not recognize
    as an image. *)
Definition undecodable : World :=
  {| http_get := λ _, Some {| resp_content := "RIFF";
                              resp_content_type := Some "image/webp" |};
     docx_picture := λ _, Raise UnrecognizedImageError;
     data_url_image := λ _, None;
     svg2png := None;
     pil_border := λ content, Some content;
     icon_file := λ _, false;
     video_big_image := λ _, None;
     resolve_snippet := λ _, None |}.

Definition the_shelf : Shelf :=
  {| shelf_name := "shelf"; shelf_books := [];
     shelf_id := Some "1"; shelf_request_user_id := Some "7" |}.

(** A block without ranges or payload. *)
Definition block_of (ty k t : string) (d : Z) : Block :=
  {| type := ty; key := k; text := t; depth := d;
     entityRanges := []; inlineStyleRanges := []; data := no_data |}.

(** The exporter in the middle of an article of the given version. *)
Definition in_article (version : Z) (blocks : list Block) : Exporter :=
  with_doc_version version
    (with_keys (key <$> blocks)
       (with_article_blocks blocks (new_exporter the_shelf))).

(** The same with a current paragraph. *)
Definition in_paragraph (version : Z) (blocks : list Block) : Exporter :=
  with_paragraph (Some 0%nat)
    (with_document [EParagraph (empty_paragraph "Normal")]
       (in_article version blocks)).

(** Cells. *)
Definition cell_A : Block := block_of "cell" "a" "A" 0.
Definition cell_B : Block := block_of "cell" "b" "B" 0.
Definition cell_C : Block := block_of "cell" "c" "C" 0.

(** A version-3 cell that carries the width of its table. *)
Definition cell_A3 : Block :=
  {| type := "cell"; key := "a"; text := "A"; depth := 0;
     entityRanges := []; inlineStyleRanges := [];
     data := {| d_src := None; d_label := None; d_type := None;
                d_style := None; d_align := None; d_depth := None;
                d_table := Some 3 |} |}.

Definition cell_wide : Block :=
  {| type := "cell"; key := "w"; text := "W"; depth := 0;
     entityRanges := []; inlineStyleRanges := [];
     data := {| d_src := None; d_label := None; d_type := None;
                d_style := None; d_align := None; d_depth := None;
                d_table := Some 5 |} |}.

(** A cell at depth 1. *)
Definition cell_deep : Block := block_of "cell" "d" "D" 1.

(** Blocks without the depth pattern, and blocks with it. *)
Definition flat_cells : list Block :=
  [block_of "cell" "k0" "x" 1; block_of "cell" "k1" "y" 1;
   block_of "cell" "k2" "z" 3].

Definition triple_cells : list Block :=
  [block_of "cell" "k0" "x" 1; block_of "cell" "k1" "y" 1;
   block_of "cell" "k2" "z" 2; block_of "unstyled" "k3" "t" 0].

(** Blocks without the depth pattern in which a key comes twice, as
    after a snippet was spliced in: the cell [a] at depth 1 is followed
    two positions later by a block at depth 0, and the first block of
    key [a] by a block at depth 2. *)
Definition repeated_key : list Block :=
  [block_of "unstyled" "a" "p" 0; block_of "unstyled" "b" "q" 0;
   block_of "unstyled" "c" "r" 2; block_of "cell" "a" "x" 1;
   block_of "cell" "d" "y" 0; block_of "cell" "e" "z" 0].

(** Markdown tables. *)
Definition md_block : Block := block_of "mdtable" "m" md_text 0.
Definition md_block_framed : Block :=
  block_of "mdtable" "m" (newline +:+ md_text) 0.


(** Header steps, one per article of a book. *)
Definition step_x : Block := block_of "header-step" "x" "x" 0.
Definition step_y : Block := block_of "header-step" "y" "y" 0.

Definition article_of (name : string) (blocks : list Block) : Article :=
  {| art_name := name; art_description := ""; art_icon := None;
     art_entity_map := ∅; art_blocks := blocks; art_doc_version := 2 |}.

Definition two_articles : Book :=
  {| book_name := "book";
     book_articles := [article_of "first" [step_x];
                       article_of "second" [step_y]] |}.

(** The texts of the paragraphs of a document that have one. *)
Definition paragraph_texts (doc : list Element) : list string :=
  filter (λ t, t ≠ "")
    (omap (λ e, match e with
                | EParagraph p => Some (par_text p)
                | ETable _ => None
                end) doc).

(** The tables of a document, by the texts of their cells. *)
Definition tables_texts (doc : list Element) : list (list (list string)) :=
  omap (λ e, match e with
             | ETable t => Some (table_texts t)
             | EParagraph _ => None
             end) doc.

(** A figure and the text after it. *)
Definition figure_block : Block :=
  {| type := "figure"; key := "f"; text := ""; depth := 0;
     entityRanges := []; inlineStyleRanges := [];
     data := {| d_src := Some "http://host/picture.webp";
                d_label := Some "caption"; d_type := None;
                d_style := None; d_align := None; d_depth := None;
                d_table := None |} |}.

Definition text_after : Block := block_of "unstyled" "t" "after" 0.

(** A link entity and a header-step block that refers to it. *)
Definition link_entity : Entity :=
  {| ent_type := Some "LINK"; ent_href := Some "http://h";
     ent_src := None; ent_size := None; ent_style := None |}.

Definition linked_step : Block :=
  {| type := "header-step"; key := "s"; text := "go";
     depth := 0;
     entityRanges := [{| er_key := "0"; er_offset := 0; er_length := 2 |}];
     inlineStyleRanges :=
       [{| sr_style := StyleName "BOLD"; sr_offset := 0; sr_length := 1 |}];
     data := no_data |}.

Definition with_link (s : Exporter) : Exporter :=
  with_entity_map {["0" := link_entity]} s.

(** The same block with its bold range on the second character: the
    entries [add_text] appends have a smaller offset. *)
Definition late_bold_step : Block :=
  {| type := "header-step"; key := "s"; text := "go";
     depth := 0;
     entityRanges := [{| er_key := "0"; er_offset := 0; er_length := 2 |}];
     inlineStyleRanges :=
       [{| sr_style := StyleName "BOLD"; sr_offset := 1; sr_length := 1 |}];
     data := no_data |}.

(** A LINK entity whose data has no href, under the key of the
    header-step blocks above. *)
Definition no_href_entity : Entity :=
  {| ent_type := Some "LINK"; ent_href := None; ent_src := None;
     ent_size := None; ent_style := None |}.

Definition without_href (s : Exporter) : Exporter :=
  with_entity_map {["0" := no_href_entity]} s.

(** Style merge: a template whose [Normal] font has no [math]. *)
Import MergeStyles.

Definition template_font : PyObj :=
  PyObject [("italic", PyValue "True"); ("size", PyValue "12")].

Definition template : BasedDoc :=
  [("Normal", [Some template_font]); ("Title", [Some template_font])].

Definition produced : InputDoc :=
  {| paragraphs := ["Normal"; "Title"]; style_fonts := ∅ |}.

Definition three_attrs : list string := ["italic"; "math"; "size"].

End Sample.

(** * Definitions used by the further properties *)

(** ** Sorted style ranges *)

(** The offsets of the list never decrease. *)
Fixpoint ascending (l : list StyleRange) : Prop :=
  match l with
  | [] => True
  | x :: r => Forall (λ y, sr_offset x ≤ sr_offset y) r ∧ ascending r
  end.

(** ** Ranges without hyperlinks *)

(** The style is the dictionary of a hyperlink. *)
Definition is_link (st : Style) : bool :=
  match st with
  | StyleLink _ => true
  | _ => false
  end.

(** The entity range does not refer to a LINK entity. *)
Definition not_link_entity (em : gmap string Entity) (er : EntityRange)
  : Prop :=
  ∀ e, em !! er_key er = Some e → ent_type e ≠ Some "LINK".

(** ** Texts and ranges that styling leaves alone *)

(** A character the sink stores and gives back as it is: no control
    character but tab and line feed (a carriage return is stored as a
    line break). *)
Definition plain_char (c : ascii) : bool :=
  let n := N_of_ascii c in ((32 <=? n) || (n =? 9) || (n =? 10))%N.

Definition plain_text (t : string) : bool :=
  forallb plain_char (String.list_ascii_of_string t).

(** A style token of the editor that names neither a link nor an
    image: [set_styles] applies it, or ignores it, without touching
    the text of the run and without an exception. *)
Definition plain_style (st : Style) : bool :=
  match st with
  | StyleName name =>
      negb (Py.contains "link" name) && negb (Py.contains "img" name)
  | _ => false
  end.

(** The entity range refers to no LINK and no IMG entity. *)
Definition plain_entity (em : gmap string Entity) (er : EntityRange)
  : Prop :=
  ∀ e, em !! er_key er = Some e →
       ent_type e ≠ Some "LINK" ∧ ent_type e ≠ Some "IMG".

(** The text of a list of runs. *)
Definition runs_text (rs : list Run) : string :=
  foldr (fun r acc => run_text r +:+ acc) "" rs.

(** The run of a character no style was applied to. *)
Definition default_run (c : ascii) : Run := slot_run (new_slot c).

(** ** [remove_crap] *)

(** [st.replace(sub, '')]: the occurrences of [sub] found from left to
    right, without overlap, are dropped; [skip] counts the characters
    of the occurrence being dropped.  An empty [sub] changes nothing. *)
Fixpoint str_remove_go (sub : string) (skip : nat) (st : string) : string :=
  match st with
  | EmptyString => EmptyString
  | String c r =>
      match skip with
      | S k => str_remove_go sub k r
      | O =>
          if negb (String.eqb sub "") && String.prefix sub st
          then str_remove_go sub (String.length sub - 1) r
          else String c (str_remove_go sub 0 r)
      end
  end.

Definition str_remove (sub st : string) : string := str_remove_go sub 0 st.

(** [remove_crap(craplist, st)] for a list of strings and a string:
    nothing in the body raises. *)
Definition remove_crap (craplist : list string) (st : string) : string :=
  foldl (fun st c => str_remove c st) st craplist.

(** The list [crap_list] of [_set_picture]. *)
Definition crap_list : list string := ["%"; "#"; "+"; "@"].

(** ** Printing a markdown table *)

(** The line [|c1|...|cn|] of the cells [c1 ... cn]. *)
Definition md_line (cells : list string) : string :=
  String.concat "|" ("" :: cells ++ [""]).

(** The text of a markdown-table block: one character, the header
    line, a separator line, the data lines, and one character after
    the last line. *)
Definition md_print (first : ascii) (header : list string)
    (separator : string) (rows : list (list string)) (final : ascii)
  : string :=
  String first
    (String.concat newline
       (md_line header :: separator :: (md_line <$> rows))
     +:+ String final EmptyString).

(** A cell that survives printing and reading: no pipe, no newline, no
    space around it. *)
Definition md_clean (cell : string) : Prop :=
  ("|"%char ∉ String.list_ascii_of_string cell) ∧
  ("010"%char ∉ String.list_ascii_of_string cell) ∧
  Py.strip cell = cell.

(** The table [_add_mdtable] builds for a header and data rows. *)
Definition md_table (header : list string) (rows : list (list string))
  : Table :=
  {| tbl_cols := length header;
     tbl_rows := (text_cell <$> header)
                 :: ((fun row : list string => text_cell <$> row) <$> rows) |}.

(** ** What rendering reads of the article *)

(** A block without its [inlineStyleRanges]. *)
Definition block_content (b : Block)
  : string * string * string * Z * list EntityRange * BlockData :=
  (type b, key b, text b, depth b, entityRanges b, data b).

(** The article as the handlers read it, but for the style ranges of
    its blocks. *)
Definition article_input (s : Exporter)
  : list (string * string * string * Z * list EntityRange * BlockData)
    * list string * gmap string Entity * Z * Shelf :=
  (block_content <$> article_blocks s, keys s, entity_map s,
   doc_version s, shelf s).

(** ** Invariants of the exporter *)

(** [m] keeps the invariant [I], whether it returns or raises. *)
Definition keeps {A} (I : Exporter → Prop) (m : M A) : Prop :=
  ∀ s, I s → I (m s).2.

(** [self._paragraph] is a paragraph of the document. *)
Definition par_ok (s : Exporter) : Prop :=
  ∃ i p, _paragraph s = Some i ∧ doc_paragraph (document s) i = Some p.

(** ** The two halves of [_add_dict] *)

(** Finding or opening the table of a dictionary block. *)
Definition open_dict (block : Block) : M unit :=
  ks <- gets keys ;;
  i <- lookup_or ValueError (Py.index ks (key block)) ;;
  let index_old := Z.of_nat i - 1 in
  blocks <- gets article_blocks ;;
  old_block <- lookup_or IndexError (Py.getitem blocks index_old) ;;
  (if negb (String.eqb (type old_block) "dictionary") || (0 >? index_old)
   then modify (with_dict None)
   else ret tt) ;;
  current <- gets dict ;;
  match current with
  | Some _ => ret tt
  | None =>
      t <- add_table 1 3 ;;
      modify (with_dict (Some t)) ;;
      modify (with_cells_d 0) ;;
      modify (with_rows_d 0)
  end.

(** Placing the text in the last row. *)
Definition place_entry (W : World) (ref : BlockRef) : M unit :=
  current <- gets dict ;;
  tb <- the_table current ;;
  c <- gets cells_d ;;
  (match last_row_cell tb.2 c with
   | Some _ => ret tt
   | None => modify (with_cells_d 0) ;; add_row tb.1
   end) ;;
  tb <- the_table current ;;
  let last_row := (length (tbl_rows tb.2) - 1)%nat in
  (if Z.of_nat last_row mod 2 =? 0
   then shade_row tb.1 last_row "E7E7F9"
   else ret tt) ;;
  c <- gets cells_d ;;
  (if c =? 1 then modify (with_cells_d 2) else ret tt) ;;
  c <- gets cells_d ;;
  _ <- lookup_or IndexError (last_row_cell tb.2 c) ;;
  add_text W ref (Some (last_row_target tb c)) ;;
  modify (fun s => with_cells_d (cells_d s + 1) s).

(** The fill [shade_row] appends to every cell of row [r]. *)
Definition shade_table (r : nat) (fill : string) (tb : Table) : Table :=
  {| tbl_cols := tbl_cols tb;
     tbl_rows :=
       alter (fun row : list Cell => cell_add_shd fill <$> row) r
         (tbl_rows tb) |}.

(** The row a dictionary entry is written to is shaded when its index
    is even. *)
Definition shade_even (tb : Table) : Table :=
  if Z.of_nat (length (tbl_rows tb) - 1) mod 2 =? 0
  then shade_table (length (tbl_rows tb) - 1) "E7E7F9" tb
  else tb.

(** The column of a dictionary entry: the dividing column 1 is
    skipped. *)
Definition entry_column (c : nat) : nat :=
  if Z.of_nat c =? 1 then 2%nat else c.

(** The test of [_add_dict] that drops the current dictionary. *)
Definition drops_dict (old_block : Block) (i : nat) : bool :=
  negb (String.eqb (type old_block) "dictionary") || (0 >? Z.of_nat i - 1).

(** ** Further sample inputs *)

Module More.

(** Every URL is served as a PNG image 9 000 000 EMU wide. *)
Definition decodable : World :=
  {| http_get := λ _, Some {| resp_content := "PNG";
                              resp_content_type := Some "image/png" |};
     docx_picture := λ _, Ok (9000000, 4500000);
     data_url_image := λ _, None;
     svg2png := None;
     pil_border := λ content, Some content;
     icon_file := λ _, true;
     video_big_image := λ _, None;
     resolve_snippet := λ _, None |}.

(** The text [hi] with its first character in bold. *)
Definition bold_h : Block :=
  {| type := "unstyled"; key := "k"; text := "hi"; depth := 0;
     entityRanges := [];
     inlineStyleRanges :=
       [{| sr_style := StyleName "BOLD"; sr_offset := 0; sr_length := 1 |}];
     data := no_data |}.

(** A LINK entity whose data has no href, and a block that refers to
    it. *)
Definition broken_link : Entity :=
  {| ent_type := Some "LINK"; ent_href := None; ent_src := None;
     ent_size := None; ent_style := None |}.

Definition broken_block : Block :=
  {| type := "unstyled"; key := "k"; text := "see"; depth := 0;
     entityRanges := [{| er_key := "9"; er_offset := 0; er_length := 3 |}];
     inlineStyleRanges := [];
     data := no_data |}.

(** A version-3 article whose table of three columns is open, with one
    cell written. *)
Definition open_v3 : Exporter :=
  with_cells 1
    (with_table (Some 0%nat)
       (with_document [ETable (new_table 1 3)]
          (Sample.in_article 3 [Sample.cell_A3; Sample.cell_B]))).

(** A markdown block printed from a header and one row. *)
Definition printed_block : Block :=
  Sample.block_of "mdtable" "m"
    (md_print "010" ["h1"; "h2"] "|--|--|" [["a"; "b"]] "010") 0.

(** A video without thumbnail. *)
Definition video_block : Block :=
  {| type := "video"; key := "v"; text := ""; depth := 0;
     entityRanges := []; inlineStyleRanges := [];
     data := {| d_src := Some "http://host/clip"; d_label := Some "clip";
                d_type := None; d_style := None; d_align := None;
                d_depth := None; d_table := None |} |}.

(** A snippet reference, and a book whose second article holds it. *)
Definition snippet_block : Block :=
  {| type := "snippet"; key := "s"; text := ""; depth := 0;
     entityRanges := []; inlineStyleRanges := [];
     data := {| d_src := Some "17"; d_label := None; d_type := None;
                d_style := None; d_align := None; d_depth := None;
                d_table := None |} |}.

Definition book_with_snippet : Book :=
  {| book_name := "book";
     book_articles :=
       [Sample.article_of "first" [Sample.step_x];
        Sample.article_of "second"
          [Sample.text_after; snippet_block; Sample.step_y];
        Sample.article_of "third" [Sample.step_y]] |}.

(** A term of a dictionary and its definition. *)
Definition term_block : Block := Sample.block_of "dictionary" "t" "term" 0.
Definition definition_block : Block :=
  Sample.block_of "dictionary" "d" "meaning" 0.

Definition open_dictionary : Exporter :=
  with_cells_d 1
    (with_dict (Some 0%nat)
       (with_document [ETable (new_table 1 3)]
          (Sample.in_article 2 [term_block; definition_block]))).

(** Style merge: the attributes [italic] and [size], and a produced
    document none of whose styles is in the template. *)
Definition two_attrs : list string := ["italic"; "size"].

Definition unmatched : MergeStyles.InputDoc :=
  {| MergeStyles.paragraphs := ["Body"];
     MergeStyles.style_fonts := ∅ |}.

End More.

(** * Properties *)

(** ** Running the monad *)

Lemma bind_ok {A B} (m : M A) (k : A → M B) s a s' :
  m s = (Ok a, s') → bind m k s = k a s'.
Proof. intros H. unfold bind. by rewrite H. Qed.

Lemma bind_raise {A B} (m : M A) (k : A → M B) s e s' :
  m s = (Raise e, s') → bind m k s = (Raise e, s').
Proof. intros H. unfold bind. by rewrite H. Qed.

(** Every guarded method returns normally. *)
Lemma guarded_ok m s : (guarded m s).1 = Ok tt.
Proof.
  unfold guarded, try_except. destruct (m s) as [[[]|e] s']; done.
Qed.

(** ** Paragraph styles *)

Lemma add_paragraph_known style :
  template_has_style style = true →
  __add_paragraph style = new_paragraph style.
Proof. intros H. unfold __add_paragraph, new_paragraph. by rewrite H. Qed.

Lemma add_paragraph_Normal : __add_paragraph "Normal" = new_paragraph "Normal".
Proof. by apply add_paragraph_known. Qed.

Lemma add_paragraph_Caption :
  __add_paragraph "Caption" = new_paragraph "Caption".
Proof. by apply add_paragraph_known. Qed.

Lemma add_paragraph_missing style s :
  template_has_style style = false →
  __add_paragraph style s = (Ok tt, stray_paragraph s).
Proof. intros H. unfold __add_paragraph. by rewrite H. Qed.






(** ** Texts the sink takes *)

Lemma xml_text_app a b :
  xml_text (a +:+ b) = xml_text a && xml_text b.
Proof.
  unfold xml_text. induction a as [|c a IH]; [done|].
  change (String c a +:+ b) with (String c (a +:+ b)).
  cbn [String.list_ascii_of_string forallb]. by rewrite IH, andb_assoc.
Qed.

Lemma xml_text_uint d : xml_text (NilEmpty.string_of_uint d) = true.
Proof.
  unfold xml_text.
  induction d;
    cbn [NilEmpty.string_of_uint String.list_ascii_of_string forallb];
    done.
Qed.

(** [str(n)] holds digits and a sign. *)
Lemma xml_text_str n : xml_text (Py.str n) = true.
Proof.
  unfold Py.str, NilZero.string_of_int, NilZero.string_of_uint.
  destruct (Z.to_int n) as [d|d]; destruct d; try done;
    first [ apply (xml_text_uint (Decimal.D0 d))
          | apply (xml_text_uint (Decimal.D1 d))
          | apply (xml_text_uint (Decimal.D2 d))
          | apply (xml_text_uint (Decimal.D3 d))
          | apply (xml_text_uint (Decimal.D4 d))
          | apply (xml_text_uint (Decimal.D5 d))
          | apply (xml_text_uint (Decimal.D6 d))
          | apply (xml_text_uint (Decimal.D7 d))
          | apply (xml_text_uint (Decimal.D8 d))
          | apply (xml_text_uint (Decimal.D9 d)) ].
Qed.

Lemma written_chars_xml piece l :
  forallb xml_char piece = true → forallb xml_char l = true →
  written_chars piece l = piece ++ l.
Proof.
  revert piece. induction l as [|c l IH]; intros piece Hp Hl; simpl.
  - by rewrite Hp, app_nil_r.
  - simpl in Hl. apply andb_prop in Hl as [Hc Hl].
    destruct (is_break c).
    + rewrite Hp. by rewrite (IH [] eq_refl Hl).
    + rewrite IH; [by rewrite <- app_assoc| |done].
      rewrite forallb_app, Hp. simpl. by rewrite Hc.
Qed.

(** A text the sink takes is written as it is. *)
Lemma written_xml t : xml_text t = true → written t = t.
Proof.
  intros H. unfold written. rewrite written_chars_xml; [|done|done].
  simpl. apply String.string_of_list_ascii_of_string.
Qed.

Lemma add_run_xml t f : xml_text t = true → add_run t f = put_run t f.
Proof. intros H. unfold add_run, put_run. by rewrite H. Qed.

Lemma add_run_newline f : add_run newline f = put_run newline f.
Proof. by apply add_run_xml. Qed.

Lemma add_run_empty f : add_run "" f = put_run "" f.
Proof. by apply add_run_xml. Qed.

(** ** Frame conditions *)

Section Preserves.
Context {B : Type} (f : Exporter → B).

Lemma pres_ret {A} (a : A) : preserves f (ret a).
Proof. done. Qed.

Lemma pres_raise {A} e : preserves f (@raise A e).
Proof. done. Qed.

Lemma pres_gets {A} (g : Exporter → A) : preserves f (gets g).
Proof. done. Qed.

Lemma pres_modify g : (∀ s, f (g s) = f s) → preserves f (modify g).
Proof. intros H s. apply H. Qed.

Lemma pres_bind {A C} (m : M A) (k : A → M C) :
  preserves f m → (∀ a, preserves f (k a)) → preserves f (bind m k).
Proof.
  intros Hm Hk s. unfold bind. specialize (Hm s).
  destruct (m s) as [[a|e] s']; simpl in *; [|done].
  by rewrite Hk.
Qed.

Lemma pres_try_except {A} c (m : M A) h :
  preserves f m → (∀ e, preserves f (h e)) →
  preserves f (try_except c m h).
Proof.
  intros Hm Hh s. unfold try_except. specialize (Hm s).
  destruct (m s) as [[a|e] s']; simpl in *; [done|].
  destruct (c e); [by rewrite Hh | done].
Qed.

Lemma pres_lookup_or {A} e (o : option A) : preserves f (lookup_or e o).
Proof. by destruct o. Qed.

Lemma pres_lift_res {A} (r : Res A) : preserves f (lift_res r).
Proof. by destruct r. Qed.

Lemma pres_for_each {A} (l : list A) k :
  (∀ a, preserves f (k a)) → preserves f (for_each l k).
Proof.
  intros Hk. induction l as [|a l IH]; [done|].
  simpl. apply pres_bind; [apply Hk | intros; apply IH].
Qed.

End Preserves.

Create HintDb frame discriminated.

Ltac head_of t :=
  lazymatch t with
  | ?f _ => head_of f
  | _ => t
  end.

(** One step of a frame proof: split the method along its structure;
    at a field update, the observation reads a field the update leaves
    alone (a goal is left when that is not immediate); a method is
    replaced by its body unless a frame lemma for it is at hand. *)
Ltac frame_step :=
  lazymatch goal with
  | |- preserves _ (bind _ _) => apply pres_bind; [|intros ?]
  | |- preserves _ (ret _) => apply pres_ret
  | |- preserves _ (raise _) => apply pres_raise
  | |- preserves _ (gets _) => apply pres_gets
  | |- preserves _ (modify _) => apply pres_modify; intros ?; try reflexivity
  | |- preserves _ (try_except _ _ _) => apply pres_try_except; [|intros ?]
  | |- preserves _ (lookup_or _ _) => apply pres_lookup_or
  | |- preserves _ (lift_res _) => apply pres_lift_res
  | |- preserves _ (for_each _ _) => apply pres_for_each; intros ?
  | |- preserves _ (match ?x with _ => _ end) => destruct x
  | |- preserves _ (let _ := _ in _) => cbv zeta
  | |- preserves _ ?m =>
      first [ solve [eauto 2 with frame]
            | let h := head_of m in progress unfold h ]
  end.

Ltac frame := repeat frame_step.

Section Frames.
Variable W : World.

Lemma add_text_cells ref tg : preserves cells (add_text W ref tg).
Proof. frame. Qed.

Lemma route_cells ref b :
  type b ≠ "cell" → preserves cells (route W ref b).
Proof.
  intros Hty. apply String.eqb_neq in Hty.
  unfold route. rewrite Hty. frame.
Qed.

Lemma route_step_header_elems ref b :
  type b ≠ "header-step" → preserves step_header_elems (route W ref b).
Proof.
  intros Hty. apply String.eqb_neq in Hty.
  unfold route. rewrite Hty. frame.
Qed.

End Frames.

(** Unfolding the monad and the primitive methods. *)
Ltac mrun :=
  cbv [bind gets modify ret raise lookup_or lift_res guarded try_except
       captureException read_block store_ranges on_paragraph any_exn].

Section AddText.
Variable W : World.

Lemma par_add_runs_nil p : par_add_runs [] p = p.
Proof. destruct p. unfold par_add_runs. simpl. by rewrite app_nil_r. Qed.

Lemma map_target_nil tg doc : map_target tg (par_add_runs []) doc = doc.
Proof.
  destruct tg; simpl; apply list_alter_id; intros [p|t0]; try done.
  - by rewrite par_add_runs_nil.
  - f_equal. destruct t0 as [nc rs]. unfold table_map_cell. simpl. f_equal.
    apply list_alter_id. intros row. apply list_alter_id. intros [p shd].
    unfold cell_map_par. simpl. by rewrite par_add_runs_nil.
Qed.

Lemma build_runs_empty hp ranges : build_runs W hp "" ranges = [].
Proof.
  unfold build_runs. simpl. induction ranges as [|r ranges IH]; [done|].
  simpl. replace (apply_styling W hp [] r) with (@nil Slot); [done|].
  unfold apply_styling.
  generalize (Py.range (sr_offset r) (sr_offset r + sr_length r)).
  intros l. induction l as [|z l IHl]; [done|].
  simpl. unfold style_at at 2. by destruct (0 <=? z).
Qed.

Lemma read_block_article i s b :
  article_blocks s !! i = Some b → read_block (InArticle i) s = (Ok b, s).
Proof. intros H. unfold read_block. mrun. by rewrite H. Qed.

(** The document after [add_text], for a target that exists. *)
Lemma add_text_document_gen ref tg s b t p :
  read_block ref s = (Ok b, s) →
  effective_target tg s = Some t →
  target_paragraph (document s) t = Some p →
  document (add_text W ref tg s).2 =
    map_target t
      (par_add_runs
         (rendered_runs W (bool_decide (is_Some (_paragraph s)))
            (entity_map s) b))
      (document s).
Proof.
  intros Hb Ht Hp. unfold add_text, rendered_runs.
  cbv [guarded try_except bind]. rewrite Hb.
  cbv [gets modify ret raise captureException any_exn on_paragraph bind].
  fold (effective_target tg s). rewrite Ht.
  destruct (styled_ranges (entity_map s) b) as [ranges [e|]].
  - destruct ref; cbv [store_ranges modify ret raise]; simpl;
      by rewrite map_target_nil.
  - destruct (String.eqb_spec (text b) "") as [Htx|Htx].
    + rewrite Htx. change (xml_text "") with true. cbv iota.
      rewrite build_runs_empty, map_target_nil.
      destruct ref; cbv [store_ranges modify ret raise]; done.
    + destruct (xml_text (text b));
        destruct ref; cbv [store_ranges modify ret raise bind]; simpl;
        by rewrite Hp.
Qed.

Lemma add_text_document i tg s b p :
  article_blocks s !! i = Some b →
  target_paragraph (document s) tg = Some p →
  document (add_text W (InArticle i) (Some tg) s).2 =
    map_target tg
      (par_add_runs
         (rendered_runs W (bool_decide (is_Some (_paragraph s)))
            (entity_map s) b))
      (document s).
Proof.
  intros Hb Hp. eapply add_text_document_gen; [|done|done].
  by apply read_block_article.
Qed.

Lemma add_text_ok ref tg s : (add_text W ref tg s).1 = Ok tt.
Proof. apply guarded_ok. Qed.

Lemma add_text_run ref tg s :
  add_text W ref tg s = (Ok tt, (add_text W ref tg s).2).
Proof.
  rewrite <- (add_text_ok ref tg s). by destruct (add_text W ref tg s).
Qed.

(** The blocks of the article after [add_text] on the block at [i]. *)
Lemma add_text_blocks i tg s b :
  article_blocks s !! i = Some b →
  article_blocks (add_text W (InArticle i) tg s).2 =
    alter (set_inlineStyleRanges (styled_ranges (entity_map s) b).1) i
      (article_blocks s).
Proof.
  intros Hb. unfold add_text. mrun. rewrite Hb.
  destruct (styled_ranges (entity_map s) b) as [ranges [e|]]; simpl; [done|].
  destruct (String.eqb (text b) ""); simpl; [done|].
  destruct (xml_text (text b)); destruct tg as [tg|]; simpl.
  - destruct (target_paragraph (document s) tg); done.
  - destruct (_paragraph s) as [j|]; simpl; [|done].
    destruct (doc_paragraph (document s) j); done.
  - destruct (target_paragraph (document s) tg); done.
  - destruct (_paragraph s) as [j|]; simpl; [|done].
    destruct (doc_paragraph (document s) j); done.
Qed.

End AddText.

(** ** Tables filled cell by cell *)

Lemma table_cell_map_eq tb r c f cl :
  table_cell tb r c = Some cl →
  table_cell (table_map_cell r c f tb) r c = Some (f cl).
Proof.
  unfold table_cell, table_map_cell. simpl. intros H.
  rewrite list_lookup_alter_eq.
  destruct (tbl_rows tb !! r) as [row|]; simpl in *; [|done].
  rewrite list_lookup_alter_eq. by rewrite H.
Qed.

Lemma table_cell_map_ne tb r c r' c' f :
  (r, c) ≠ (r', c') →
  table_cell (table_map_cell r c f tb) r' c' = table_cell tb r' c'.
Proof.
  unfold table_cell, table_map_cell. simpl. intros H.
  destruct (decide (r = r')) as [->|Hr].
  - rewrite list_lookup_alter_eq.
    destruct (tbl_rows tb !! r') as [row|]; simpl; [|done].
    rewrite list_lookup_alter_ne; [done|congruence].
  - by rewrite list_lookup_alter_ne.
Qed.

Lemma table_cell_add_row_old tb r c :
  (r < length (tbl_rows tb))%nat →
  table_cell (table_add_row tb) r c = table_cell tb r c.
Proof.
  intros H. unfold table_cell, table_add_row. simpl.
  by rewrite lookup_app_l.
Qed.

Lemma table_cell_add_row_new tb c :
  (c < tbl_cols tb)%nat →
  table_cell (table_add_row tb) (length (tbl_rows tb)) c = Some empty_cell.
Proof.
  intros H. unfold table_cell, table_add_row. simpl.
  rewrite lookup_app_r by lia. rewrite Nat.sub_diag. simpl.
  by apply lookup_replicate_2.
Qed.

Lemma position_unique cols r c k :
  (c < cols)%nat → (r * cols + c = k)%nat →
  r = (k / cols)%nat ∧ c = (k mod cols)%nat.
Proof.
  intros Hc <-. split.
  - apply Nat.div_unique with c; lia.
  - apply Nat.mod_unique with r; lia.
Qed.

Lemma cursor_fits cols k :
  (0 < cols)%nat → (cursor_after cols k < cols)%nat →
  (rows_after cols k - 1)%nat = (k / cols)%nat ∧
  cursor_after cols k = (k mod cols)%nat.
Proof.
  intros Hc. destruct k as [|k]; simpl.
  - intros _. rewrite Nat.Div0.div_0_l, Nat.Div0.mod_0_l. done.
  - intros Hfit.
    pose proof (Nat.div_mod_eq k cols) as Hk.
    assert (S k = cols * (k / cols) + S (k mod cols))%nat as HS by lia.
    split.
    + rewrite Nat.sub_0_r. apply Nat.div_unique with (S (k mod cols)); lia.
    + apply Nat.mod_unique with (k / cols)%nat; lia.
Qed.

Lemma cursor_wraps cols k :
  (0 < cols)%nat → ¬ (cursor_after cols k < cols)%nat →
  rows_after cols k = (k / cols)%nat ∧ (k mod cols)%nat = 0%nat.
Proof.
  intros Hc. destruct k as [|k]; simpl; [lia|].
  intros Hfit.
  pose proof (Nat.div_mod_eq k cols) as Hk.
  pose proof (Nat.mod_upper_bound k cols) as Hm.
  assert (S k = cols * S (k / cols) + 0)%nat as HS by lia.
  split.
  - apply Nat.div_unique with 0%nat; lia.
  - symmetry. apply Nat.mod_unique with (S (k / cols)); lia.
Qed.

Lemma cursor_after_le cols k :
  (0 < cols)%nat → (cursor_after cols k ≤ cols)%nat.
Proof.
  intros Hc. destruct k as [|k]; simpl; [lia|].
  pose proof (Nat.mod_upper_bound k cols). lia.
Qed.

Lemma next_position cols k tb :
  (0 < cols)%nat →
  length (tbl_rows tb) = rows_after cols k →
  (length (tbl_rows (next_table cols k tb)) - 1)%nat = (k / cols)%nat ∧
  next_column cols k = (k mod cols)%nat ∧
  S (next_column cols k) = cursor_after cols (S k) ∧
  length (tbl_rows (next_table cols k tb)) = rows_after cols (S k).
Proof.
  intros Hc Hrows. unfold next_table, next_column. simpl.
  destruct (decide _) as [Hfit|Hfit].
  - destruct (cursor_fits cols k Hc Hfit) as [H1 H2].
    rewrite Hrows, H1, H2. repeat split; try done.
    rewrite <- H1. destruct k; simpl; lia.
  - destruct (cursor_wraps cols k Hc Hfit) as [H1 H2].
    unfold table_add_row. simpl. rewrite length_app. simpl.
    rewrite Hrows, H1, H2. repeat split; lia.
Qed.

Lemma table_holds_place cols cs tb runs :
  (0 < cols)%nat →
  table_holds cols cs tb →
  let k := length cs in
  let tb1 := next_table cols k tb in
  let r := (length (tbl_rows tb1) - 1)%nat in
  let c := next_column cols k in
  table_cell tb1 r c = Some empty_cell ∧
  table_holds cols (cs ++ [runs])
    (table_map_cell r c (cell_map_par (par_add_runs runs)) tb1).
Proof.
  intros Hc (Hcols & Hrows & Hlen & Hcells) k tb1 r c.
  destruct (next_position cols k tb Hc Hrows) as (Hr & Hcm & Hcur & Hrows1).
  fold tb1 in Hr, Hrows1. fold r in Hr. fold c in Hcm.
  assert (c < cols)%nat as Hclt.
  { rewrite Hcm. by apply Nat.mod_upper_bound, Nat.neq_0_lt_0. }
  assert (r < length (tbl_rows tb1))%nat as Hrlt.
  { unfold r. rewrite Hrows1. simpl. lia. }
  assert (r * cols + c = k)%nat as Hpos.
  { rewrite Hr, Hcm. pose proof (Nat.div_mod_eq k cols). lia. }
  assert (tbl_cols tb1 = cols) as Hcols1.
  { unfold tb1, next_table. by destruct (decide _). }
  assert (Forall (λ row, length row = cols) (tbl_rows tb1)) as Hlen1.
  { unfold tb1, next_table. destruct (decide _); [done|].
    unfold table_add_row. simpl. apply Forall_app. split; [done|].
    constructor; [|done]. by rewrite length_replicate. }
  assert (∀ r' c', (r' < length (tbl_rows tb1))%nat → (c' < cols)%nat →
            table_cell tb1 r' c' = Some (cell_of (cs !! (r' * cols + c')%nat)))
    as Hcells1.
  { intros r' c' Hr' Hc'. unfold tb1, next_table in *.
    destruct (decide _) as [Hfit|Hfit]; [by apply Hcells|].
    destruct (decide (r' < length (tbl_rows tb))%nat) as [Hold|Hnew].
    - rewrite table_cell_add_row_old by done. by apply Hcells.
    - assert (r' = length (tbl_rows tb)) as ->.
      { unfold table_add_row in Hr'. simpl in Hr'.
        rewrite length_app in Hr'. simpl in Hr'. lia. }
      rewrite table_cell_add_row_new by lia.
      rewrite lookup_ge_None_2; [done|].
      destruct (cursor_wraps cols k Hc Hfit) as [H1 H2].
      pose proof (Nat.div_mod_eq k cols) as Hk.
      unfold k in *. rewrite Hrows, H1. nia. }
  assert (table_cell tb1 r c = Some empty_cell) as Hempty.
  { rewrite Hcells1 by done. rewrite Hpos.
    rewrite lookup_ge_None_2; [done|]. unfold k. lia. }
  split; [done|].
  split; [done|]. split.
  { unfold table_map_cell. simpl. rewrite length_alter, length_app. simpl.
    rewrite Hrows1. f_equal. fold k. lia. }
  split.
  { unfold table_map_cell. simpl.
    apply Forall_forall. intros row Hin.
    apply list_elem_of_lookup in Hin as [j Hj].
    destruct (decide (r = j)) as [<-|Hne].
    - rewrite list_lookup_alter_eq in Hj.
      destruct (tbl_rows tb1 !! r) as [row0|] eqn:Hrow; simplify_eq/=.
      rewrite length_alter.
      eapply (Forall_lookup_1 _ _ _ _ Hlen1 Hrow).
    - rewrite list_lookup_alter_ne in Hj by done.
      eapply (Forall_lookup_1 _ _ _ _ Hlen1 Hj). }
  intros r' c' Hr' Hc'.
  unfold table_map_cell in Hr'. simpl in Hr'. rewrite length_alter in Hr'.
  destruct (decide ((r, c) = (r', c'))) as [Heq|Hne].
  - injection Heq as <- <-. rewrite (table_cell_map_eq _ _ _ _ _ Hempty).
    rewrite Hpos. unfold k. rewrite lookup_app_r by lia.
    by rewrite Nat.sub_diag.
  - rewrite table_cell_map_ne by done. rewrite Hcells1 by done.
    f_equal. f_equal.
    assert (r' * cols + c' ≠ k)%nat as Hk.
    { intros Hk. destruct (position_unique cols r' c' k Hc' Hk) as [-> ->].
      apply Hne. by rewrite Hr, Hcm. }
    destruct (decide (r' * cols + c' < k)%nat).
    + by rewrite lookup_app_l.
    + rewrite !lookup_ge_None_2; [done| |]; [|unfold k in *; lia].
      rewrite length_app. simpl. unfold k in *. lia.
Qed.

(** ** The two halves of [_add_table_cell] *)

Section TableCell.
Variable W : World.

Lemma _add_table_cell_split ref :
  _add_table_cell W ref =
  guarded (block <- read_block ref ;;
           version <- gets doc_version ;;
           open_table version block ;;
           place_cell W ref).
Proof. reflexivity. Qed.

Lemma last_row_cell_lookup tb c :
  wf_table tb → 0 ≤ c →
  last_row_cell tb c =
    table_cell tb (length (tbl_rows tb) - 1) (Z.to_nat c).
Proof.
  intros (Hrows & _ & _) Hc. unfold last_row_cell, table_cell.
  rewrite last_lookup. replace (pred (length (tbl_rows tb)))
    with (length (tbl_rows tb) - 1)%nat by lia.
  destruct (tbl_rows tb !! _) as [row|]; simpl; [|done].
  unfold Py.getitem. by rewrite (proj2 (Z.leb_le 0 c) Hc).
Qed.

Lemma table_cell_is_Some tb r c :
  wf_table tb → (r < length (tbl_rows tb))%nat →
  is_Some (table_cell tb r c) ↔ (c < tbl_cols tb)%nat.
Proof.
  intros (_ & Hlen & _) Hr. unfold table_cell.
  destruct (lookup_lt_is_Some_2 _ _ Hr) as [row Hrow]. rewrite Hrow. simpl.
  rewrite lookup_lt_is_Some.
  by rewrite (Forall_lookup_1 _ _ _ _ Hlen Hrow).
Qed.

Lemma wf_table_add_row tb : wf_table tb → wf_table (table_add_row tb).
Proof.
  intros (Hrows & Hlen & Hcols). unfold wf_table, table_add_row. simpl.
  rewrite length_app. simpl. split; [lia|]. split; [|done].
  apply Forall_app. split; [done|]. constructor; [|done].
  by rewrite length_replicate.
Qed.

Lemma doc_table_alter doc t f tb :
  doc_table doc t = Some tb →
  alter (λ e, match e with
              | ETable tb => ETable (f tb)
              | EParagraph p => EParagraph p
              end) t doc = <[t := ETable (f tb)]> doc.
Proof.
  unfold doc_table. intros H.
  destruct (doc !! t) as [[p|tb']|] eqn:Ht; simplify_eq.
  apply list_eq. intros j. destruct (decide (t = j)) as [<-|Hne].
  - rewrite list_lookup_alter_eq, Ht. simpl.
    rewrite list_lookup_insert_eq; [done|]. by eapply lookup_lt_Some.
  - by rewrite list_lookup_alter_ne, list_lookup_insert_ne.
Qed.

Lemma doc_table_alter' doc t f tb :
  doc_table doc t = Some tb →
  alter (λ e, match e with
              | EParagraph p => EParagraph p
              | ETable tb => ETable (f tb)
              end) t doc = <[t := ETable (f tb)]> doc.
Proof. apply doc_table_alter. Qed.

Lemma doc_table_insert doc t tb tb' :
  doc_table doc t = Some tb →
  doc_table (<[t := ETable tb']> doc) t = Some tb'.
Proof.
  unfold doc_table. intros H.
  destruct (doc !! t) as [[p|tb0]|] eqn:Ht; simplify_eq.
  rewrite list_lookup_insert_eq; [done|]. by eapply lookup_lt_Some.
Qed.

Lemma target_paragraph_cell doc t tb r c cl :
  doc_table doc t = Some tb → table_cell tb r c = Some cl →
  target_paragraph doc (TCell t r c) = Some (cell_par cl).
Proof. unfold target_paragraph. intros -> H. simpl. by rewrite H. Qed.

Lemma map_target_cell doc t tb r c f :
  doc_table doc t = Some tb →
  map_target (TCell t r c) f doc =
    <[t := ETable (table_map_cell r c (cell_map_par f) tb)]> doc.
Proof. intros H. unfold map_target. by apply doc_table_alter'. Qed.

Lemma place_cell_spec i s b t tb :
  article_blocks s !! i = Some b →
  table s = Some t →
  doc_table (document s) t = Some tb →
  wf_table tb →
  0 ≤ cells s →
  let tb1 := placed_table tb (cells s) in
  let r := (length (tbl_rows tb1) - 1)%nat in
  let c := placed_column tb (cells s) in
  let runs := rendered_runs W (bool_decide (is_Some (_paragraph s)))
                (entity_map s) b in
  ∃ s', place_cell W (InArticle i) s = (Ok tt, s') ∧
    document s' =
      <[t := ETable (table_map_cell r c (cell_map_par (par_add_runs runs))
                       tb1)]> (document s) ∧
    cells s' = Z.of_nat c + 1 ∧
    table s' = Some t ∧
    article_blocks s' =
      alter (set_inlineStyleRanges (styled_ranges (entity_map s) b).1) i
        (article_blocks s).
Proof.
  intros Hb Ht Hdoc Hwf Hc tb1 r c runs.
  pose proof Hwf as (Hrows & Hlen & Hcols).
  unfold place_cell.
  cbv [bind gets modify ret raise lookup_or the_table add_row].
  rewrite Ht, Hdoc. cbn [fst snd].
  rewrite (last_row_cell_lookup tb (cells s) Hwf Hc).
  subst tb1 r c. unfold placed_table, placed_column.
  destruct (decide (cells s < Z.of_nat (tbl_cols tb))) as [Hfit|Hfit].
  - assert (is_Some (table_cell tb (length (tbl_rows tb) - 1)
                       (Z.to_nat (cells s)))) as [cl Hcl].
    { apply table_cell_is_Some; [done|lia|lia]. }
    rewrite Hcl. rewrite Hdoc. cbn [fst snd].
    rewrite (last_row_cell_lookup tb (cells s) Hwf Hc), Hcl.
    rewrite add_text_run. eexists. split; [reflexivity|].
    cbn [cells document table article_blocks with_cells].
    assert (last_row_target (t, tb) (cells s) =
            TCell t (length (tbl_rows tb) - 1) (Z.to_nat (cells s))) as ->.
    { unfold last_row_target, cell_position. simpl.
      by rewrite (proj2 (Z.leb_le 0 _) Hc). }
    split; [|split; [|split]].
    + erewrite add_text_document;
        [| done | by eapply target_paragraph_cell].
      by apply map_target_cell.
    + rewrite add_text_cells. lia.
    + assert (preserves table (add_text W (InArticle i)
         (Some (TCell t (length (tbl_rows tb) - 1) (Z.to_nat (cells s))))))
        as Hp by frame.
      by rewrite Hp.
    + by apply add_text_blocks.
  - assert (table_cell tb (length (tbl_rows tb) - 1) (Z.to_nat (cells s))
            = None) as Hnone.
    { apply eq_None_not_Some. rewrite table_cell_is_Some; [lia|done|lia]. }
    rewrite Hnone. cbn [document with_document with_cells].
    rewrite (doc_table_alter _ _ table_add_row tb Hdoc).
    rewrite (doc_table_insert _ _ tb _ Hdoc).
    cbn [fst snd cells with_document with_cells].
    pose proof (wf_table_add_row tb Hwf) as Hwf1.
    rewrite (last_row_cell_lookup _ 0 Hwf1) by lia.
    assert (table_cell (table_add_row tb)
              (length (tbl_rows (table_add_row tb)) - 1) (Z.to_nat 0)
            = Some empty_cell) as Hcl.
    { replace (length (tbl_rows (table_add_row tb)) - 1)%nat
        with (length (tbl_rows tb)).
      - by apply table_cell_add_row_new.
      - unfold table_add_row. simpl. rewrite length_app. simpl. lia. }
    rewrite Hcl.
    rewrite add_text_run. eexists. split; [reflexivity|].
    cbn [cells document table article_blocks with_cells].
    assert (last_row_target (t, table_add_row tb) 0 =
            TCell t (length (tbl_rows (table_add_row tb)) - 1) 0) as ->.
    { done. }
    split; [|split; [|split]].
    + change (Z.to_nat 0) with 0%nat in Hcl.
      pose proof (doc_table_insert _ _ tb (table_add_row tb) Hdoc) as Hdoc1.
      erewrite add_text_document;
        [| done | by eapply target_paragraph_cell].
      cbn [document with_document with_cells entity_map _paragraph].
      erewrite map_target_cell by done.
      by rewrite list_insert_insert_eq.
    + rewrite add_text_cells. done.
    + assert (preserves table (add_text W (InArticle i)
         (Some (TCell t (length (tbl_rows (table_add_row tb)) - 1) 0))))
        as Hp by frame.
      by rewrite Hp.
    + by rewrite (add_text_blocks W i _ _ b).
Qed.

Lemma cols_for_depth_pos d : 0 < cols_for_depth d.
Proof. unfold cols_for_depth. repeat case_match; lia. Qed.

Lemma wf_new_table cols : 0 < cols → wf_table (new_table 1 cols).
Proof.
  intros H. unfold wf_table, new_table. simpl. split; [lia|]. split; [|lia].
  constructor; [|done]. by rewrite length_replicate.
Qed.

Lemma table_holds_new cols :
  0 < cols → table_holds (Z.to_nat cols) [] (new_table 1 cols).
Proof.
  intros H. unfold table_holds, new_table. simpl.
  split; [done|]. split; [done|]. split.
  - constructor; [|done]. by rewrite length_replicate.
  - intros r c Hr Hc. assert (r = 0%nat) as -> by lia.
    unfold table_cell. simpl. by rewrite lookup_replicate_2.
Qed.

Lemma open_table_opens version b s i old_block :
  version ≠ 3 →
  Py.index (keys s) (key b) = Some i →
  Py.getitem (article_blocks s) (Z.of_nat i - 1) = Some old_block →
  drops_table old_block b i = true ∨ table s = None →
  open_table version b s =
    (Ok tt,
     with_table (Some (length (document s)))
       (with_document
          (document s ++ [ETable (new_table 1 (cols_for_depth (depth b)))])
          s)).
Proof.
  intros Hv Hi Hold Hdrop. unfold open_table.
  rewrite (proj2 (Z.eqb_neq version 3) Hv).
  cbv [bind gets modify ret raise lookup_or add_table].
  rewrite Hi, Hold. fold (drops_table old_block b i).
  destruct (drops_table old_block b i) eqn:Hd.
  - by destruct s.
  - destruct Hdrop as [|Hnone]; [done|]. rewrite Hnone.
    destruct s. simpl in *. by subst.
Qed.

Lemma open_table_keeps version b s i old_block t :
  version ≠ 3 →
  Py.index (keys s) (key b) = Some i →
  Py.getitem (article_blocks s) (Z.of_nat i - 1) = Some old_block →
  drops_table old_block b i = false →
  table s = Some t →
  open_table version b s = (Ok tt, s).
Proof.
  intros Hv Hi Hold Hdrop Ht. unfold open_table.
  rewrite (proj2 (Z.eqb_neq version 3) Hv).
  cbv [bind gets modify ret raise lookup_or add_table].
  rewrite Hi, Hold. fold (drops_table old_block b i).
  by rewrite Hdrop, Ht.
Qed.

Lemma doc_table_app_new doc tb :
  doc_table (doc ++ [ETable tb]) (length doc) = Some tb.
Proof.
  unfold doc_table. rewrite lookup_app_r by lia.
  by rewrite Nat.sub_diag.
Qed.

Lemma insert_app_new {A} (l : list A) (x y : A) :
  <[length l := y]> (l ++ [x]) = l ++ [y].
Proof.
  rewrite insert_app_r_alt by lia. by rewrite Nat.sub_diag.
Qed.

(** A cell block that opens a table on the legacy path: the table, the
    position of the text and the cursor afterwards. *)
Lemma add_table_cell_opens i s b j old_block :
  article_blocks s !! i = Some b →
  doc_version s ≠ 3 →
  Py.index (keys s) (key b) = Some j →
  Py.getitem (article_blocks s) (Z.of_nat j - 1) = Some old_block →
  drops_table old_block b j = true ∨ table s = None →
  0 ≤ cells s →
  let tb := new_table 1 (cols_for_depth (depth b)) in
  let tb1 := placed_table tb (cells s) in
  let r := (length (tbl_rows tb1) - 1)%nat in
  let c := placed_column tb (cells s) in
  let runs := rendered_runs W (bool_decide (is_Some (_paragraph s)))
                (entity_map s) b in
  ∃ s', _add_table_cell W (InArticle i) s = (Ok tt, s') ∧
    document s' =
      document s ++
        [ETable (table_map_cell r c (cell_map_par (par_add_runs runs)) tb1)] ∧
    cells s' = Z.of_nat c + 1 ∧
    table s' = Some (length (document s)) ∧
    article_blocks s' =
      alter (set_inlineStyleRanges (styled_ranges (entity_map s) b).1) i
        (article_blocks s).
Proof.
  intros Hb Hv Hj Hold Hdrop Hc tb tb1 r c runs.
  rewrite _add_table_cell_split.
  set (s1 := with_table (Some (length (document s)))
               (with_document (document s ++ [ETable tb]) s)).
  destruct (place_cell_spec i s1 b (length (document s)) tb) as
    (s' & Hrun & Hdoc & Hcells & Htable & Hblocks); try done.
  { apply doc_table_app_new. }
  { apply wf_new_table, cols_for_depth_pos. }
  exists s'. split.
  - cbv [guarded try_except bind gets read_block lookup_or ret].
    rewrite Hb.
    rewrite (open_table_opens _ _ _ _ _ Hv Hj Hold Hdrop).
    fold tb s1. by rewrite Hrun.
  - rewrite Hdoc, Hcells, Htable, Hblocks. simpl.
    by rewrite insert_app_new.
Qed.

(** A cell block that continues the open table on the legacy path. *)
Lemma add_table_cell_continues i s b j old_block t tb :
  article_blocks s !! i = Some b →
  doc_version s ≠ 3 →
  Py.index (keys s) (key b) = Some j →
  Py.getitem (article_blocks s) (Z.of_nat j - 1) = Some old_block →
  drops_table old_block b j = false →
  table s = Some t →
  doc_table (document s) t = Some tb →
  wf_table tb →
  0 ≤ cells s →
  let tb1 := placed_table tb (cells s) in
  let r := (length (tbl_rows tb1) - 1)%nat in
  let c := placed_column tb (cells s) in
  let runs := rendered_runs W (bool_decide (is_Some (_paragraph s)))
                (entity_map s) b in
  ∃ s', _add_table_cell W (InArticle i) s = (Ok tt, s') ∧
    document s' =
      <[t := ETable (table_map_cell r c (cell_map_par (par_add_runs runs))
                       tb1)]> (document s) ∧
    cells s' = Z.of_nat c + 1 ∧
    table s' = Some t ∧
    article_blocks s' =
      alter (set_inlineStyleRanges (styled_ranges (entity_map s) b).1) i
        (article_blocks s).
Proof.
  intros Hb Hv Hj Hold Hdrop Ht Hdoc Hwf Hc tb1 r c runs.
  rewrite _add_table_cell_split.
  destruct (place_cell_spec i s b t tb) as (s' & Hrun & Hrest); try done.
  exists s'. split; [|done].
  cbv [guarded try_except bind gets read_block lookup_or ret].
  rewrite Hb.
  rewrite (open_table_keeps _ _ _ _ _ _ Hv Hj Hold Hdrop Ht).
  by rewrite Hrun.
Qed.

End TableCell.

(** ** A run of cell blocks *)

Lemma skeleton_alter ranges i l :
  skeleton (alter (set_inlineStyleRanges ranges) i l) = skeleton l.
Proof.
  unfold skeleton. apply list_eq. intros j. rewrite !list_lookup_fmap.
  destruct (decide (i = j)) as [<-|Hne].
  - rewrite list_lookup_alter_eq. by destruct (l !! i).
  - by rewrite list_lookup_alter_ne.
Qed.

Lemma skeleton_lookup l l' j b :
  skeleton l = skeleton l' → l !! j = Some b →
  ∃ b', l' !! j = Some b' ∧ type b' = type b ∧ key b' = key b
        ∧ depth b' = depth b.
Proof.
  intros Hsk Hb. assert (skeleton l !! j = skeleton l' !! j) as H
    by by rewrite Hsk.
  unfold skeleton in H. rewrite !list_lookup_fmap, Hb in H. simpl in H.
  destruct (l' !! j) as [b'|]; simplify_eq/=. eauto.
Qed.

Lemma getitem_pred {A} (l : list A) (j : nat) :
  (0 < j)%nat → Py.getitem l (Z.of_nat j - 1) = l !! (j - 1)%nat.
Proof.
  intros Hj. unfold Py.getitem.
  rewrite (proj2 (Z.leb_le 0 (Z.of_nat j - 1))) by lia.
  by replace (Z.to_nat (Z.of_nat j - 1)) with (j - 1)%nat by lia.
Qed.

Lemma getitem_last {A} (l : list A) :
  Py.getitem l (Z.of_nat 0 - 1) = last l.
Proof.
  unfold Py.getitem. change (Z.of_nat 0 - 1) with (-1).
  change (0 <=? -1) with false. cbv iota.
  destruct l as [|x l]; [done|].
  rewrite last_lookup, length_cons.
  rewrite (proj2 (Z.leb_le 0 _)) by lia.
  by replace (Z.to_nat (Z.of_nat (S (length l)) + -1))
    with (pred (S (length l))) by lia.
Qed.

Section Dispatch.
Variable W : World.

Lemma route_cell ref b s :
  type b = "cell" → route W ref b s = _add_table_cell W ref s.
Proof. intros Hty. unfold route. rewrite Hty. reflexivity. Qed.

Lemma add_table_cell_run ref s :
  _add_table_cell W ref s = (Ok tt, (_add_table_cell W ref s).2).
Proof.
  pose proof (guarded_ok) as H. unfold _add_table_cell at 1.
  match goal with |- guarded ?m s = _ => specialize (H m s) end.
  unfold _add_table_cell.
  match goal with |- ?x = _ => destruct x as [r s'] end.
  simpl in *. by subst.
Qed.

Lemma dispatch_cell i s b :
  article_blocks s !! i = Some b → type b = "cell" →
  dispatch W i s =
    (Ok tt, with_depth_level 1 (_add_table_cell W (InArticle i) s).2).
Proof.
  intros Hb Hty. unfold dispatch.
  cbv [try_except bind read_block gets lookup_or ret modify].
  rewrite Hb. rewrite (route_cell _ _ _ Hty).
  by rewrite add_table_cell_run.
Qed.

End Dispatch.

Section CellRun.
Variable W : World.
Variable s0 : Exporter.
Variable p : nat.
Variable bs : list Block.
Variable d : Z.

Hypothesis legacy : doc_version s0 ≠ 3.
Hypothesis the_run : take (length bs) (drop p (article_blocks s0)) = bs.
Hypothesis run_cells : Forall (λ b, type b = "cell" ∧ depth b = d) bs.
Hypothesis run_keys :
  ∀ j b, bs !! j = Some b → Py.index (keys s0) (key b) = Some (p + j)%nat.

Lemma run_lookup j b :
  bs !! j = Some b → article_blocks s0 !! (p + j)%nat = Some b.
Proof.
  intros Hb. rewrite <- the_run in Hb.
  apply lookup_take_Some in Hb as [Hb _]. by rewrite lookup_drop in Hb.
Qed.

Lemma cols_pos : (0 < (run_cols d))%nat.
Proof. unfold run_cols. pose proof (cols_for_depth_pos d). lia. Qed.

Lemma placed_is_next tb k :
  tbl_cols tb = (run_cols d) →
  placed_table tb (Z.of_nat (cursor_after (run_cols d) k)) = next_table (run_cols d) k tb ∧
  placed_column tb (Z.of_nat (cursor_after (run_cols d) k)) = next_column (run_cols d) k.
Proof.
  intros Hc. unfold placed_table, placed_column, next_table, next_column.
  rewrite Hc.
  destruct (decide (Z.of_nat (cursor_after (run_cols d) k) < Z.of_nat (run_cols d)));
    destruct (decide (cursor_after (run_cols d) k < (run_cols d))%nat); try lia.
  - split; [done|lia].
  - done.
Qed.

Lemma table_holds_wf cs tb : table_holds (run_cols d) cs tb → wf_table tb.
Proof.
  intros (Hc & Hrows & Hlen & _). unfold wf_table. rewrite Hc, Hrows.
  split; [|split; [done|apply cols_pos]].
  destruct (length cs); simpl; lia.
Qed.

Lemma frame_add_table_cell i s :
  let s' := (_add_table_cell W (InArticle i) s).2 in
  doc_version s' = doc_version s ∧ keys s' = keys s ∧
  entity_map s' = entity_map s ∧ _paragraph s' = _paragraph s.
Proof.
  simpl. repeat split.
  - assert (preserves doc_version (_add_table_cell W (InArticle i)))
      as H by frame. apply H.
  - assert (preserves keys (_add_table_cell W (InArticle i)))
      as H by frame. apply H.
  - assert (preserves entity_map (_add_table_cell W (InArticle i)))
      as H by frame. apply H.
  - assert (preserves _paragraph (_add_table_cell W (InArticle i)))
      as H by frame. apply H.
Qed.

(** The first block of the run opens the table. *)
Lemma run_first b :
  bs !! 0%nat = Some b →
  cells s0 = 0 →
  (p = 0%nat ∨
   ∃ b', article_blocks s0 !! (p - 1)%nat = Some b' ∧
         (type b' ≠ "cell" ∨ depth b' ≠ d)) →
  ∃ s', dispatch W p s0 = (Ok tt, s') ∧ run_inv W s0 p bs d 1 s'.
Proof.
  intros Hb Hcells Hstart.
  pose proof (run_lookup _ _ Hb) as Hb0. rewrite Nat.add_0_r in Hb0.
  pose proof (run_keys _ _ Hb) as Hkey. rewrite Nat.add_0_r in Hkey.
  pose proof (Forall_lookup_1 _ _ _ _ run_cells Hb) as [Hty Hd].
  assert (∃ old_block,
            Py.getitem (article_blocks s0) (Z.of_nat p - 1) = Some old_block
            ∧ drops_table old_block b p = true) as (old & Hold & Hdrop).
  { destruct Hstart as [->|(b' & Hb' & Hne)].
    - rewrite getitem_last.
      destruct (last (article_blocks s0)) as [old|] eqn:Hlast.
      + exists old. split; [done|]. unfold drops_table. simpl.
        by rewrite orb_true_r.
      + apply last_None in Hlast. by rewrite Hlast in Hb0.
    - destruct (decide (p = 0%nat)) as [->|Hp].
      + rewrite getitem_last.
        destruct (last (article_blocks s0)) as [old|] eqn:Hlast.
        * exists old. split; [done|]. unfold drops_table. simpl.
          by rewrite orb_true_r.
        * apply last_None in Hlast. by rewrite Hlast in Hb0.
      + exists b'. rewrite getitem_pred by lia. split; [done|].
        unfold drops_table. destruct Hne as [Hne|Hne].
        * apply String.eqb_neq in Hne. by rewrite Hne.
        * rewrite <- Hd in Hne. apply Z.eqb_neq in Hne.
          rewrite Hne. simpl. by rewrite orb_true_r. }
  destruct (add_table_cell_opens W p s0 b p old Hb0 legacy Hkey Hold
              (or_introl Hdrop)) as (s1 & Hrun & Hdoc & Hc & Ht & Hbl);
    [lia|].
  exists (with_depth_level 1 s1). split.
  { rewrite (dispatch_cell W p s0 b Hb0 Hty). by rewrite Hrun. }
  pose proof (frame_add_table_cell p s0) as (Hf1 & Hf2 & Hf3 & Hf4).
  rewrite Hrun in Hf1, Hf2, Hf3, Hf4. simpl in Hf1, Hf2, Hf3, Hf4.
  unfold run_inv. simpl.
  split; [done|]. split; [done|]. split; [done|]. split; [done|].
  split. { rewrite Hbl. apply skeleton_alter. }
  split. { intros j Hj. rewrite Hbl. apply list_lookup_alter_ne. lia. }
  rewrite Hcells, Hd in Hdoc, Hc.
  eexists. split; [exact Hdoc|]. split; [done|].
  pose proof (table_holds_new (cols_for_depth d) (cols_for_depth_pos d))
    as Hnew. change (Z.to_nat (cols_for_depth d)) with (run_cols d) in Hnew.
  destruct (placed_is_next (new_table 1 (cols_for_depth d)) 0) as [Hpt Hpc].
  { done. }
  change (Z.of_nat (cursor_after (run_cols d) 0)) with 0 in Hpt, Hpc.
  rewrite Hpt. rewrite Hpc in Hc |- *.
  destruct (table_holds_place (run_cols d) [] _ ((run_content W s0) b) cols_pos Hnew)
    as [_ Hholds].
  destruct (next_position (run_cols d) 0 (new_table 1 (cols_for_depth d)) cols_pos)
    as (_ & _ & Hcur & _); [done|].
  split.
  - rewrite (take_S_r _ _ _ Hb). simpl. exact Hholds.
  - rewrite Hc. simpl in Hcur. lia.
Qed.

(** A later block of the run continues the table. *)
Lemma run_step k b s :
  (1 ≤ k)%nat → bs !! k = Some b → run_inv W s0 p bs d k s →
  ∃ s', dispatch W (p + k) s = (Ok tt, s') ∧ run_inv W s0 p bs d (S k) s'.
Proof.
  intros Hk Hb (Hv & Hkeys & Hem & Hpar & Hsk & Hrest & tb & Hdoc & Ht
                & Hholds & Hcells).
  pose proof (run_lookup _ _ Hb) as Hb0.
  pose proof (run_keys _ _ Hb) as Hkey.
  pose proof (Forall_lookup_1 _ _ _ _ run_cells Hb) as [Hty Hd].
  assert (article_blocks s !! (p + k)%nat = Some b) as Hbs.
  { rewrite Hrest by lia. done. }
  assert (∃ old_block,
            Py.getitem (article_blocks s) (Z.of_nat (p + k) - 1)
              = Some old_block
            ∧ drops_table old_block b (p + k) = false) as (old & Hold & Hdrop).
  { destruct (lookup_lt_is_Some_2 bs (k - 1)) as [b1 Hb1].
    { apply lookup_lt_Some in Hb. lia. }
    pose proof (run_lookup _ _ Hb1) as Hb10.
    pose proof (Forall_lookup_1 _ _ _ _ run_cells Hb1) as [Hty1 Hd1].
    symmetry in Hsk.
    destruct (skeleton_lookup _ _ _ _ Hsk Hb10) as (old & Ho & Hoty & _ & Hod).
    exists old. rewrite getitem_pred by lia.
    replace (p + k - 1)%nat with (p + (k - 1))%nat by lia.
    split; [done|]. unfold drops_table.
    rewrite Hoty, Hty1, Hod, Hd1, Hd. simpl.
    rewrite Z.eqb_refl. simpl. rewrite orb_false_r.
    apply Z.ltb_ge. lia. }
  pose proof (table_holds_wf _ _ Hholds) as Hwf.
  assert (doc_table (document s) (length (document s0)) = Some tb) as Hdt.
  { rewrite Hdoc. apply doc_table_app_new. }
  rewrite <- Hv in legacy. rewrite <- Hkeys in Hkey.
  destruct (add_table_cell_continues W (p + k) s b (p + k) old _ tb Hbs legacy
              Hkey Hold Hdrop Ht Hdt Hwf)
    as (s1 & Hrun & Hdoc1 & Hc1 & Ht1 & Hbl); [lia|].
  exists (with_depth_level 1 s1). split.
  { rewrite (dispatch_cell W _ s b Hbs Hty). by rewrite Hrun. }
  pose proof (frame_add_table_cell (p + k) s) as (Hf1 & Hf2 & Hf3 & Hf4).
  rewrite Hrun in Hf1, Hf2, Hf3, Hf4. simpl in Hf1, Hf2, Hf3, Hf4.
  unfold run_inv. simpl.
  split; [congruence|]. split; [congruence|]. split; [congruence|].
  split; [congruence|].
  split. { rewrite Hbl, skeleton_alter. done. }
  split.
  { intros j Hj. rewrite Hbl, list_lookup_alter_ne by lia.
    apply Hrest. lia. }
  pose proof Hholds as (Hcols & _).
  destruct (placed_is_next tb k Hcols) as [Hpt Hpc].
  rewrite Hcells, Hpt, Hpc in *.
  assert (length ((run_content W s0) <$> take k bs) = k) as Hlen.
  { rewrite length_fmap, length_take. apply lookup_lt_Some in Hb. lia. }
  pose proof (table_holds_place (run_cols d) _ tb ((run_content W s0) b) cols_pos Hholds)
    as Hplace.
  rewrite Hlen in Hplace. destruct Hplace as [_ Hholds1].
  pose proof Hholds as (_ & Hrows & _). rewrite Hlen in Hrows.
  destruct (next_position (run_cols d) k tb cols_pos Hrows) as (_ & _ & Hcur & _).
  eexists. split.
  { rewrite Hdoc1, Hdoc. apply insert_app_new. }
  split; [done|]. split.
  - rewrite (take_S_r _ _ _ Hb), fmap_app. simpl.
    rewrite Hem, Hpar. exact Hholds1.
  - rewrite Hc1. simpl in Hcur. lia.
Qed.

Lemma run_rest m k s :
  (1 ≤ k)%nat → (k + m ≤ length bs)%nat → run_inv W s0 p bs d k s →
  ∃ s', for_each (seq (p + k) m) (dispatch W) s = (Ok tt, s')
        ∧ run_inv W s0 p bs d (k + m) s'.
Proof.
  revert k s. induction m as [|m IH]; intros k s Hk Hlen Hinv.
  - exists s. rewrite Nat.add_0_r. done.
  - destruct (lookup_lt_is_Some_2 bs k) as [b Hb]; [lia|].
    destruct (run_step k b s Hk Hb Hinv) as (s1 & Hrun1 & Hinv1).
    destruct (IH (S k) s1) as (s' & Hrun & Hinv'); [lia|lia|done|].
    exists s'. split.
    + simpl. cbv [bind]. rewrite Hrun1.
      replace (S (p + k)) with (p + S k)%nat by lia. exact Hrun.
    + replace (k + S m)%nat with (S k + m)%nat by lia. exact Hinv'.
Qed.

Lemma rows_after_ceil n :
  (1 ≤ n)%nat →
  Z.of_nat (rows_after (run_cols d) n) =
    (Z.of_nat n + cols_for_depth d - 1) / cols_for_depth d.
Proof.
  intros Hn. destruct n as [|n]; [lia|]. simpl rows_after.
  pose proof (cols_for_depth_pos d) as Hpos.
  assert (Z.of_nat (run_cols d) = cols_for_depth d) as Hc by (unfold run_cols; lia).
  rewrite <- Hc.
  pose proof (Nat.div_mod_eq n (run_cols d)) as Hdm.
  pose proof (Nat.mod_upper_bound n (run_cols d)) as Hm.
  apply Z.div_unique with (Z.of_nat (n mod (run_cols d))); [lia|].
  nia.
Qed.

(** The whole run: one table, filled row by row. *)
Lemma run_fills_one_table :
  bs ≠ [] →
  cells s0 = 0 →
  (p = 0%nat ∨
   ∃ b', article_blocks s0 !! (p - 1)%nat = Some b' ∧
         (type b' ≠ "cell" ∨ depth b' ≠ d)) →
  ∃ s' tb,
    for_each (seq p (length bs)) (dispatch W) s0 = (Ok tt, s') ∧
    document s' = document s0 ++ [ETable tb] ∧
    table s' = Some (length (document s0)) ∧
    Z.of_nat (tbl_cols tb) = cols_for_depth d ∧
    Z.of_nat (length (tbl_rows tb)) =
      (Z.of_nat (length bs) + cols_for_depth d - 1) / cols_for_depth d ∧
    ∀ r c, (r < length (tbl_rows tb))%nat → (c < tbl_cols tb)%nat →
      table_cell tb r c =
        Some (cell_of ((run_content W s0) <$> bs !! (r * tbl_cols tb + c)%nat)).
Proof.
  intros Hne Hcells Hstart.
  assert (0 < length bs)%nat as Hlen.
  { clear -Hne. destruct bs; [done|simpl; lia]. }
  destruct (lookup_lt_is_Some_2 bs 0 Hlen) as [b Hb].
  destruct (run_first b) as (s1 & Hrun1 & Hinv1); [done|done|done|].
  destruct (run_rest (length bs - 1) 1 s1) as (s' & Hrun & Hinv);
    [lia|lia|done|].
  replace (1 + (length bs - 1))%nat with (length bs) in Hinv by lia.
  destruct Hinv as (_ & _ & _ & _ & _ & _ & tb & Hdoc & Ht & Hholds & _).
  rewrite take_ge in Hholds by lia.
  destruct Hholds as (Hcols & Hrows & _ & Hcell).
  exists s', tb. split.
  { assert (seq p (length bs) = p :: seq (p + 1) (length bs - 1)) as ->.
    { replace (length bs) with (S (length bs - 1)) at 1 by lia.
      simpl. by replace (S p) with (p + 1)%nat by lia. }
    simpl. cbv [bind]. rewrite Hrun1. exact Hrun. }
  split; [done|]. split; [done|]. split.
  { rewrite Hcols. unfold run_cols. pose proof (cols_for_depth_pos d). lia. }
  split.
  { rewrite Hrows, length_fmap. apply rows_after_ceil. lia. }
  intros r c Hr Hc. rewrite Hcols in *. rewrite Hcell by done.
  by rewrite list_lookup_fmap.
Qed.

End CellRun.

(** ** The table a cell block opens *)

Lemma shape_alter_table n t f doc :
  (∀ tb, tbl_cols (f tb) = tbl_cols tb) →
  let doc' := alter (λ e, match e with
                          | ETable tb => ETable (f tb)
                          | EParagraph p => EParagraph p
                          end) t doc in
  (length doc', tbl_cols <$> doc_table doc' n) =
  (length doc, tbl_cols <$> doc_table doc n).
Proof.
  intros Hf. simpl. rewrite length_alter. f_equal. unfold doc_table.
  destruct (decide (t = n)) as [->|Hne].
  - rewrite list_lookup_alter_eq. destruct (doc !! n) as [[p|tb]|]; simpl;
      [done| |done]. by rewrite Hf.
  - by rewrite list_lookup_alter_ne.
Qed.

Lemma shape_map_target n tg f doc :
  (length (map_target tg f doc), tbl_cols <$> doc_table (map_target tg f doc) n)
  = (length doc, tbl_cols <$> doc_table doc n).
Proof.
  destruct tg as [i|t r c]; simpl.
  - rewrite length_alter. f_equal. unfold doc_table.
    destruct (decide (i = n)) as [->|Hne].
    + rewrite list_lookup_alter_eq. by destruct (doc !! n) as [[p|tb]|].
    + by rewrite list_lookup_alter_ne.
  - rewrite length_alter. f_equal. unfold doc_table.
    destruct (decide (t = n)) as [->|Hne].
    + rewrite list_lookup_alter_eq. by destruct (doc !! n) as [[p|tb]|].
    + by rewrite list_lookup_alter_ne.
Qed.

Section OpenedTable.
Variable W : World.

Lemma on_paragraph_shape n tg f : preserves (shape_at n) (on_paragraph tg f).
Proof.
  intros s. unfold on_paragraph. cbv [bind gets modify raise].
  destruct tg as [tg|]; [|done].
  destruct (target_paragraph (document s) tg); [|done].
  unfold shape_at. simpl. apply shape_map_target.
Qed.

Lemma add_row_shape n t : preserves (shape_at n) (add_row t).
Proof.
  intros s. unfold add_row, modify, shape_at. simpl.
  by apply (shape_alter_table n t table_add_row).
Qed.

Lemma add_text_shape n ref tg : preserves (shape_at n) (add_text W ref tg).
Proof. pose proof (on_paragraph_shape n). frame. Qed.

Lemma place_cell_shape n ref : preserves (shape_at n) (place_cell W ref).
Proof.
  pose proof (add_text_shape n). pose proof (add_row_shape n). frame.
Qed.

Lemma place_cell_table ref : preserves table (place_cell W ref).
Proof. frame. Qed.

(** On the legacy path, either the document is left as it is, or the
    table for the depth of the block is appended to it. *)
Lemma open_table_legacy version b s :
  version ≠ 3 →
  (∃ r s1, open_table version b s = (r, s1) ∧ document s1 = document s) ∨
  open_table version b s =
    (Ok tt,
     with_table (Some (length (document s)))
       (with_document
          (document s ++ [ETable (new_table 1 (cols_for_depth (depth b)))])
          s)).
Proof.
  intros Hv. unfold open_table.
  rewrite (proj2 (Z.eqb_neq version 3) Hv).
  cbv [bind gets modify ret raise lookup_or add_table].
  destruct (Py.index (keys s) (key b)) as [i|]; [|left; eauto].
  destruct (Py.getitem (article_blocks s) (Z.of_nat i - 1)) as [old|];
    [|left; eauto].
  destruct (negb (type old =? "cell")%string || (Z.of_nat i - 1 <? 0)
            || negb (depth old =? depth b)).
  - right. by destruct s.
  - destruct (table s) as [t|] eqn:Ht; [left; eauto|].
    right. destruct s. simpl in *. by subst.
Qed.

Lemma opened_table_columns s i b :
  article_blocks s !! i = Some b →
  doc_version s ≠ 3 →
  let s' := (_add_table_cell W (InArticle i) s).2 in
  (length (document s) < length (document s'))%nat →
  ∃ tb,
    length (document s') = S (length (document s)) ∧
    doc_table (document s') (length (document s)) = Some tb ∧
    table s' = Some (length (document s)) ∧
    Z.of_nat (tbl_cols tb) = cols_for_depth (depth b).
Proof.
  intros Hb Hv. rewrite _add_table_cell_split.
  cbv [guarded try_except bind gets read_block lookup_or ret any_exn
       captureException modify].
  rewrite Hb.
  destruct (open_table_legacy (doc_version s) b s Hv)
    as [(r & s1 & Hopen & Hdoc)|Hopen]; rewrite Hopen.
  - intros Hlt. exfalso.
    destruct r as [[]|e].
    + pose proof (place_cell_shape 0 (InArticle i) s1) as Hs.
      destruct (place_cell W (InArticle i) s1) as [[[]|e] s2];
        unfold shape_at in Hs; simpl in *; simplify_eq;
        rewrite Hdoc in *; lia.
    + simpl in Hlt. rewrite Hdoc in Hlt. lia.
  - set (s1 := with_table _ _).
    pose proof (place_cell_shape (length (document s)) (InArticle i) s1) as Hs.
    pose proof (place_cell_table (InArticle i) s1) as Ht.
    intros _.
    assert (shape_at (length (document s)) s1 =
            (S (length (document s)),
             Some (Z.to_nat (cols_for_depth (depth b))))) as Hs1.
    { unfold shape_at, s1. simpl. rewrite length_app. simpl.
      rewrite doc_table_app_new. simpl. f_equal. lia. }
    rewrite Hs1 in Hs. clear Hs1.
    assert (∀ s2 : Exporter,
              shape_at (length (document s)) s2 =
                (S (length (document s)),
                 Some (Z.to_nat (cols_for_depth (depth b)))) →
              table s2 = Some (length (document s)) →
              ∃ tb, length (document s2) = S (length (document s)) ∧
                doc_table (document s2) (length (document s)) = Some tb ∧
                table s2 = Some (length (document s)) ∧
                Z.of_nat (tbl_cols tb) = cols_for_depth (depth b)) as Hfin.
    { intros s2 Hsh Htb. unfold shape_at in Hsh.
      injection Hsh as Hl Hc.
      destruct (doc_table (document s2) (length (document s))) as [tb|];
        simplify_eq/=.
      exists tb. repeat split; try done.
      pose proof (cols_for_depth_pos (depth b)). lia. }
    destruct (place_cell W (InArticle i) s1) as [[[]|e] s2]; simpl in *;
      apply Hfin; done.
Qed.

(** A version-3 cell block that carries a table opens it with the
    declared width and restarts the cursor. *)
Lemma add_table_cell_v3_opens i s b cols :
  article_blocks s !! i = Some b →
  doc_version s = 3 →
  d_table (data b) = Some cols →
  0 < cols →
  let runs := rendered_runs W (bool_decide (is_Some (_paragraph s)))
                (entity_map s) b in
  ∃ s', _add_table_cell W (InArticle i) s = (Ok tt, s') ∧
    document s' =
      document s ++
        [ETable (table_map_cell 0 0 (cell_map_par (par_add_runs runs))
                   (new_table 1 cols))] ∧
    cells s' = 1 ∧
    table s' = Some (length (document s)).
Proof.
  intros Hb Hv Hcols Hpos runs.
  rewrite _add_table_cell_split.
  set (s1 := with_cells 0
               (with_table (Some (length (document s)))
                  (with_document (document s ++ [ETable (new_table 1 cols)])
                     s))).
  destruct (place_cell_spec W i s1 b (length (document s))
              (new_table 1 cols)) as
    (s' & Hrun & Hdoc & Hcells & Htable & Hblocks); try done.
  { apply doc_table_app_new. }
  { by apply wf_new_table. }
  exists s'. split.
  - cbv [guarded try_except bind gets read_block lookup_or ret].
    rewrite Hb, Hv. unfold open_table. simpl (3 =? 3). cbv iota.
    rewrite Hcols. cbv [bind gets modify ret add_table].
    fold s1. by rewrite Hrun.
  - unfold placed_table, placed_column in *. simpl in Hdoc, Hcells.
    destruct (decide (0 < Z.of_nat (Z.to_nat cols))) as [_|Hn]; [|lia].
    rewrite Hdoc, Hcells, Htable. simpl.
    by rewrite insert_app_new.
Qed.

End OpenedTable.

(** ** The depth-normalization pre-pass *)

Lemma index_cons_ne k x l :
  k ≠ x → Py.index (k :: l) x = S <$> Py.index l x.
Proof. intros H. simpl. apply String.eqb_neq in H. by rewrite H. Qed.

Lemma index_of_key (blocks : list Block) i b :
  NoDup (key <$> blocks) → blocks !! i = Some b →
  Py.index (key <$> blocks) (key b) = Some i.
Proof.
  revert i. induction blocks as [|b0 blocks IH]; intros i Hnd Hb; [done|].
  rewrite fmap_cons in Hnd. apply NoDup_cons in Hnd as [Hnotin Hnd].
  destruct i as [|i]; simpl in Hb.
  - simplify_eq. simpl. by rewrite String.eqb_refl.
  - rewrite fmap_cons, index_cons_ne.
    + by rewrite (IH i Hnd Hb).
    + intros Heq. apply Hnotin. rewrite Heq.
      apply list_elem_of_fmap. exists b. split; [done|].
      by eapply list_elem_of_lookup_2.
Qed.

Lemma key_set_depth v b : key (set_depth v b) = key b.
Proof. done. Qed.

Lemma keys_alter_depth v i (blocks : list Block) :
  key <$> alter (set_depth v) i blocks = key <$> blocks.
Proof.
  apply list_eq. intros j. rewrite !list_lookup_fmap.
  destruct (decide (i = j)) as [<-|Hne].
  - rewrite list_lookup_alter_eq. by destruct (blocks !! i).
  - by rewrite list_lookup_alter_ne.
Qed.

Lemma rewrite_triple_lookup i blocks j :
  rewrite_triple i blocks !! j =
    if decide (i ≤ j ≤ i + 2)%nat
    then set_depth 3 <$> blocks !! j
    else blocks !! j.
Proof.
  unfold rewrite_triple. destruct (decide _) as [Hin|Hout].
  - destruct (decide (j = i + 2)%nat) as [->|H2].
    { rewrite list_lookup_alter_eq, !list_lookup_alter_ne by lia. done. }
    rewrite list_lookup_alter_ne by lia.
    destruct (decide (j = i + 1)%nat) as [->|H1].
    { rewrite list_lookup_alter_eq, !list_lookup_alter_ne by lia. done. }
    rewrite list_lookup_alter_ne by lia.
    assert (j = i) as -> by lia. by rewrite list_lookup_alter_eq.
  - by rewrite !list_lookup_alter_ne by lia.
Qed.

Lemma rewrite_triple_length i blocks :
  length (rewrite_triple i blocks) = length blocks.
Proof. unfold rewrite_triple. by rewrite !length_alter. Qed.

Lemma rewrite_triple_keys i blocks :
  key <$> rewrite_triple i blocks = key <$> blocks.
Proof. unfold rewrite_triple. by rewrite !keys_alter_depth. Qed.

Section Normalize.
Variable blocks0 : list Block.
Hypothesis unique_keys : NoDup (key <$> blocks0).

(** With unique keys the peek starts at the cell itself. *)
Lemma peek_at (blocks : list Block) i b :
  key <$> blocks = (key <$> blocks0) → blocks !! i = Some b →
  peek_depths (key <$> blocks0) blocks b =
    Some match blocks !! i, blocks !! (i + 1)%nat, blocks !! (i + 2)%nat with
         | Some b0, Some b1, Some b2 => (depth b0, depth b1, depth b2)
         | _, _, _ => (1, 1, 1)
         end.
Proof.
  intros Hks Hb. unfold peek_depths.
  rewrite <- Hks. rewrite (index_of_key blocks i b); [done| |done].
  by rewrite Hks.
Qed.

Lemma normalize_cell_no_pattern (blocks : list Block) i :
  key <$> blocks = (key <$> blocks0) → (i < length blocks)%nat →
  has_pattern blocks i = false →
  normalize_cell (key <$> blocks0) blocks i = (blocks, Some (i + 1)%nat).
Proof.
  intros Hks Hi Hpat. unfold normalize_cell.
  destruct (lookup_lt_is_Some_2 _ _ Hi) as [b Hb]. rewrite Hb.
  destruct (String.eqb (type b) "cell") eqn:Hty; [|done].
  rewrite (peek_at blocks i b Hks Hb). rewrite Hb.
  unfold has_pattern in Hpat. rewrite Hb, Hty in Hpat.
  destruct (blocks !! (i + 1)%nat) as [b1|]; simpl.
  - destruct (blocks !! (i + 2)%nat) as [b2|]; simpl in *.
    + by rewrite Hpat.
    + by rewrite andb_false_r.
  - by rewrite andb_false_r.
Qed.

Lemma normalize_cell_pattern (blocks : list Block) i :
  key <$> blocks = (key <$> blocks0) →
  has_pattern blocks i = true →
  normalize_cell (key <$> blocks0) blocks i = (rewrite_triple i blocks, Some (i + 2)%nat).
Proof.
  intros Hks Hpat. unfold normalize_cell, has_pattern in *.
  destruct (blocks !! i) as [b|] eqn:Hb; [|done].
  destruct (blocks !! (i + 2)%nat) as [b2|] eqn:Hb2; [|done].
  apply andb_prop in Hpat as [Hpat H2]. apply andb_prop in Hpat as [Hty H1].
  rewrite Hty. rewrite (peek_at blocks i b Hks Hb). rewrite Hb, Hb2.
  assert (i + 2 < length blocks)%nat as Hlt by by eapply lookup_lt_Some.
  destruct (lookup_lt_is_Some_2 blocks (i + 1)) as [b1 Hb1]; [lia|].
  rewrite Hb1. simpl. rewrite H1, H2. simpl.
  rewrite !bool_decide_eq_true_2 by lia. done.
Qed.

(** On a normalized list the loop changes nothing, whatever the number
    of iterations. *)
Lemma normalize_loop_normalized fuel (blocks : list Block) i :
  key <$> blocks = (key <$> blocks0) → normalized blocks →
  normalize_loop fuel (key <$> blocks0) blocks i = blocks.
Proof.
  intros Hks Hn. revert i. induction fuel as [|fuel IH]; intros i; [done|].
  simpl. case_bool_decide as Hi; [|done].
  rewrite normalize_cell_no_pattern by done. apply IH.
Qed.

(** A rewrite at [i] leaves no pattern before [i + 2]. *)
Lemma rewrite_triple_no_pattern (blocks : list Block) i :
  (∀ j, (j < i)%nat → has_pattern blocks j = false) →
  ∀ j, (j < i + 2)%nat → has_pattern (rewrite_triple i blocks) j = false.
Proof.
  intros Hbefore j Hj. unfold has_pattern.
  rewrite !rewrite_triple_lookup.
  destruct (decide (i ≤ j ≤ i + 2)%nat) as [Hin|Hout].
  - destruct (blocks !! j) as [b|]; simpl; [|done].
    destruct (if decide (i ≤ j + 2 ≤ i + 2)%nat then _ else _); [|done].
    by rewrite andb_false_r.
  - assert (j < i)%nat as Hlt by lia.
    specialize (Hbefore j Hlt). unfold has_pattern in Hbefore.
    destruct (blocks !! j) as [b|]; [|done].
    destruct (decide (i ≤ j + 2 ≤ i + 2)%nat) as [Hin2|Hout2].
    + destruct (blocks !! (j + 2)%nat) as [b2|]; simpl; [|done].
      by rewrite andb_false_r.
    + done.
Qed.

(** The loop leaves a normalized list with the same keys. *)
Lemma normalize_loop_normalizes fuel (blocks : list Block) i :
  key <$> blocks = (key <$> blocks0) →
  (length blocks - i ≤ fuel)%nat →
  (∀ j, (j < i)%nat → has_pattern blocks j = false) →
  normalized (normalize_loop fuel (key <$> blocks0) blocks i) ∧
  key <$> normalize_loop fuel (key <$> blocks0) blocks i = (key <$> blocks0).
Proof.
  revert blocks i. induction fuel as [|fuel IH]; intros blocks i Hks Hf Hb.
  - simpl. split; [|done]. intros j.
    destruct (decide (j < i)%nat); [by apply Hb|].
    unfold has_pattern. rewrite (lookup_ge_None_2 blocks j) by lia. done.
  - simpl. case_bool_decide as Hi.
    + destruct (has_pattern blocks i) eqn:Hpat.
      * rewrite normalize_cell_pattern by done.
        apply IH.
        -- by rewrite rewrite_triple_keys.
        -- rewrite rewrite_triple_length. lia.
        -- by apply rewrite_triple_no_pattern.
      * rewrite normalize_cell_no_pattern by done.
        apply IH; [done|lia|].
        intros j Hj. destruct (decide (j = i)) as [->|]; [done|].
        apply Hb. lia.
    + split; [|done]. intros j.
      destruct (decide (j < i)%nat); [by apply Hb|].
      unfold has_pattern. rewrite (lookup_ge_None_2 blocks j) by lia. done.
Qed.

Lemma normalize_depths_noop :
  normalized blocks0 → normalize_depths (key <$> blocks0) blocks0 = blocks0.
Proof. intros Hn. by apply normalize_loop_normalized. Qed.

Lemma normalize_depths_idempotent :
  normalize_depths (key <$> blocks0) (normalize_depths (key <$> blocks0) blocks0)
  = normalize_depths (key <$> blocks0) blocks0.
Proof.
  destruct (normalize_loop_normalizes (length blocks0) blocks0 0)
    as [Hn Hk]; [done|lia|intros; lia|].
  unfold normalize_depths at 1.
  by apply normalize_loop_normalized.
Qed.

End Normalize.

(** The loop ends within the iterations [normalize_depths] grants it:
    more of them change nothing. *)
Lemma normalize_cell_next ks (blocks : list Block) i blocks' next :
  normalize_cell ks blocks i = (blocks', Some next) →
  length blocks' = length blocks ∧ (i < next)%nat.
Proof.
  unfold normalize_cell. intros H.
  repeat (case_match; simplify_eq/=); rewrite ?length_alter; split; lia.
Qed.

Lemma normalize_loop_fuel fuel extra ks (blocks : list Block) i :
  (length blocks - i ≤ fuel)%nat →
  normalize_loop (fuel + extra) ks blocks i = normalize_loop fuel ks blocks i.
Proof.
  revert blocks i. induction fuel as [|fuel IH]; intros blocks i Hf.
  - simpl. destruct extra as [|extra]; [done|]. simpl.
    rewrite bool_decide_eq_false_2 by lia. done.
  - simpl. case_bool_decide as Hi; [|done].
    destruct (normalize_cell ks blocks i) as [blocks' [next|]] eqn:Hc; [|done].
    destruct (normalize_cell_next _ _ _ _ _ Hc) as [Hl Hn].
    apply IH. lia.
Qed.

(** ** The ranges [add_text] leaves in the block *)

Lemma fold_entity_ok em ranges er :
  link_ok em er →
  fold_entity em ranges er = Ok (ranges ++ option_list (entity_style em er)).
Proof.
  intros Hok. unfold fold_entity, entity_style, link_ok in *.
  destruct (em !! er_key er) as [e|]; simpl; [|by rewrite app_nil_r].
  destruct (ent_type e) as [ty|] eqn:Hty; simpl; [|by rewrite app_nil_r].
  destruct (String.eqb_spec ty "LINK") as [->|Hne].
  - destruct (Hok e eq_refl Hty) as [href Hh]. by rewrite Hh.
  - destruct (String.eqb ty "IMG"); simpl; [done|by rewrite app_nil_r].
Qed.

Lemma fold_entities_ok em ers ranges :
  Forall (link_ok em) ers →
  fold_entities em ers ranges = (ranges ++ omap (entity_style em) ers, None).
Proof.
  intros Hok. revert ranges.
  induction Hok as [|er ers Her Hers IH]; intros ranges; simpl.
  - by rewrite app_nil_r.
  - rewrite (fold_entity_ok _ _ _ Her), IH, <- app_assoc. f_equal. f_equal.
    by destruct (entity_style em er).
Qed.

Lemma bubble_pass_perm k l : bubble_pass k l ≡ₚ l.
Proof.
  revert l. induction k as [|k IH]; intros l; [by destruct l|].
  destruct l as [|x [|y r]]; simpl; try done.
  destruct (sr_offset x >? sr_offset y).
  - rewrite IH. apply Permutation_swap.
  - by rewrite IH.
Qed.

Lemma bubble_sort_perm l : bubble_sort l ≡ₚ l.
Proof.
  unfold bubble_sort. generalize (length l) at 1. intros n.
  generalize (seq 0 (length l - 1)). intros idxs. revert l.
  induction idxs as [|i idxs IH]; intros l; simpl; [done|].
  by rewrite IH, bubble_pass_perm.
Qed.

Lemma styled_ranges_ok em b :
  Forall (link_ok em) (entityRanges b) →
  styled_ranges em b =
    (bubble_sort (inlineStyleRanges b ++ added_ranges em b), None).
Proof.
  intros Hok. unfold styled_ranges, added_ranges, append_header_step.
  rewrite (fold_entities_ok _ _ _ Hok).
  destruct (String.eqb (type b) "header-step").
  - by rewrite <- app_assoc.
  - by rewrite app_nil_r.
Qed.

Section Twice.
Variable W : World.

Lemma target_paragraph_map tg f doc p :
  target_paragraph doc tg = Some p →
  target_paragraph (map_target tg f doc) tg = Some (f p).
Proof.
  destruct tg as [i|t r c]; simpl.
  - unfold doc_paragraph. rewrite list_lookup_alter_eq.
    destruct (doc !! i) as [[q|tb]|]; simpl; intros; by simplify_eq.
  - unfold doc_table. rewrite list_lookup_alter_eq.
    destruct (doc !! t) as [[q|tb]|]; simpl; try done.
    unfold table_cell, table_map_cell. simpl.
    rewrite list_lookup_alter_eq.
    destruct (tbl_rows tb !! r) as [row|]; simpl; [|done].
    rewrite list_lookup_alter_eq.
    destruct (row !! c) as [cl|]; simpl; [|done].
    intros. by simplify_eq.
Qed.

Lemma add_text_entity_map ref tg :
  preserves entity_map (add_text W ref tg).
Proof. frame. Qed.

Lemma add_text_paragraph ref tg : preserves _paragraph (add_text W ref tg).
Proof. frame. Qed.

(** Two calls of [add_text] on one block of the article. *)
Lemma add_text_twice s i b tg p :
  article_blocks s !! i = Some b →
  Forall (link_ok (entity_map s)) (entityRanges b) →
  xml_text (text b) = true →
  target_paragraph (document s) tg = Some p →
  let added := added_ranges (entity_map s) b in
  let has_paragraph := bool_decide (is_Some (_paragraph s)) in
  let l1 := bubble_sort (inlineStyleRanges b ++ added) in
  let l2 := bubble_sort (l1 ++ added) in
  let s1 := (add_text W (InArticle i) (Some tg) s).2 in
  let s2 := (add_text W (InArticle i) (Some tg) s1).2 in
  article_blocks s1 !! i = Some (set_inlineStyleRanges l1 b) ∧
  article_blocks s2 !! i = Some (set_inlineStyleRanges l2 b) ∧
  document s1 =
    map_target tg (par_add_runs (build_runs W has_paragraph (text b) l1))
      (document s) ∧
  document s2 =
    map_target tg (par_add_runs (build_runs W has_paragraph (text b) l2))
      (document s1).
Proof.
  intros Hb Hok Hxml Hp added hp l1 l2 s1 s2.
  assert (article_blocks s1 !! i = Some (set_inlineStyleRanges l1 b)) as Hb1.
  { unfold s1. rewrite (add_text_blocks W i _ s b Hb).
    rewrite list_lookup_alter_eq, Hb. simpl.
    by rewrite (styled_ranges_ok _ _ Hok). }
  assert (entity_map s1 = entity_map s) as Hem
    by apply add_text_entity_map.
  assert (_paragraph s1 = _paragraph s) as Hpar
    by apply add_text_paragraph.
  assert (document s1 =
            map_target tg (par_add_runs (build_runs W hp (text b) l1))
              (document s)) as Hd1.
  { unfold s1. rewrite (add_text_document W i tg s b p Hb Hp).
    unfold rendered_runs. by rewrite (styled_ranges_ok _ _ Hok), Hxml. }
  assert (styled_ranges (entity_map s1) (set_inlineStyleRanges l1 b)
          = (l2, None)) as Hs2.
  { rewrite Hem. rewrite styled_ranges_ok by done. done. }
  split; [done|]. split; [|split; [done|]].
  - unfold s2. rewrite (add_text_blocks W i _ s1 _ Hb1).
    rewrite list_lookup_alter_eq, Hb1. simpl. by rewrite Hs2.
  - unfold s2.
    erewrite (add_text_document W i tg s1 _ _ Hb1).
    + unfold rendered_runs. rewrite Hs2, Hpar. simpl. by rewrite Hxml.
    + rewrite Hd1. by apply target_paragraph_map.
Qed.

End Twice.

(** ** A range over the whole text *)

Lemma foldl_alter_all {A} (f : A → A) (pre l : list A) :
  foldl (λ acc i, alter f i acc) (pre ++ l) (seq (length pre) (length l))
  = pre ++ (f <$> l).
Proof.
  revert pre. induction l as [|x l IH]; intros pre; simpl; [done|].
  rewrite alter_app_r_alt by lia. rewrite Nat.sub_diag. simpl.
  replace (pre ++ f x :: l) with ((pre ++ [f x]) ++ l)
    by by rewrite <- app_assoc.
  replace (S (length pre)) with (length (pre ++ [f x]))
    by (rewrite length_app; simpl; lia).
  rewrite IH. by rewrite <- app_assoc.
Qed.

Section WholeText.
Variable W : World.

Lemma apply_styling_whole hp st (slots : list Slot) :
  apply_styling W hp slots
    {| sr_style := st; sr_offset := 0;
       sr_length := Z.of_nat (length slots) |}
  = style_slot W hp st <$> slots.
Proof.
  unfold apply_styling, Py.range. simpl.
  replace (0 + Z.of_nat (length slots) - 0) with (Z.of_nat (length slots))
    by lia.
  unfold seqZ. rewrite Nat2Z.id.
  transitivity (foldl (λ acc i, alter (style_slot W hp st) i acc) slots
                  (seq 0 (length slots))).
  2: { apply (foldl_alter_all (style_slot W hp st) [] slots). }
  generalize (seq 0 (length slots)). intros idxs. revert slots.
  induction idxs as [|i idxs IH]; intros slots; simpl; [done|].
  rewrite <- IH. f_equal. unfold style_at.
  rewrite (proj2 (Z.leb_le 0 _)) by lia.
  by replace (Z.to_nat (Z.of_nat i + 0)) with i by lia.
Qed.

Lemma build_runs_header_step hp t :
  build_runs W hp t
    [{| sr_style := StyleName "header-step"; sr_offset := 0;
        sr_length := Py.len t |}]
  = header_step_run <$> String.list_ascii_of_string t.
Proof.
  unfold build_runs. simpl.
  assert (Py.len t =
          Z.of_nat (length (new_slot <$> String.list_ascii_of_string t)))
    as ->.
  { unfold Py.len. rewrite length_fmap. f_equal.
    induction t as [|c t IH]; simpl; [done|]. by rewrite IH. }
  rewrite apply_styling_whole. rewrite <- !list_fmap_compose.
  apply list_fmap_ext. intros i c _. done.
Qed.

Lemma header_step_runs_bold t :
  Forall (λ r, run_bold r = true)
    (header_step_run <$> String.list_ascii_of_string t).
Proof. apply Forall_fmap, Forall_true. done. Qed.

Lemma header_step_runs_text t :
  par_text (par_add_runs (header_step_run <$> String.list_ascii_of_string t)
              (empty_paragraph "Normal")) = t.
Proof.
  unfold par_text, par_add_runs, empty_paragraph, par_runs.
  rewrite app_nil_l.
  induction t as [|c t IH]; [done|].
  cbn [String.list_ascii_of_string fmap list_fmap foldr].
  rewrite IH. done.
Qed.

End WholeText.

(** ** Header steps *)

Lemma alter_app_new {A} (f : A → A) (l : list A) (x : A) :
  alter f (length l) (l ++ [x]) = l ++ [f x].
Proof. rewrite alter_app_r_alt by lia. by rewrite Nat.sub_diag. Qed.

Lemma doc_paragraph_app_new doc p :
  doc_paragraph (doc ++ [EParagraph p]) (length doc) = Some p.
Proof.
  unfold doc_paragraph. rewrite lookup_app_r by lia.
  by rewrite Nat.sub_diag.
Qed.

Lemma map_target_par_new doc p f :
  map_target (TPar (length doc)) f (doc ++ [EParagraph p])
  = doc ++ [EParagraph (f p)].
Proof. unfold map_target. by rewrite alter_app_new. Qed.

Lemma append_nonempty (a b : string) : b ≠ "" → a +:+ b ≠ "".
Proof. intros Hb. destruct a; simpl; [done|discriminate]. Qed.

Section HeaderStep.
Variable W : World.

Lemma add_text_step_header_elems ref tg :
  preserves step_header_elems (add_text W ref tg).
Proof. frame. Qed.

Lemma add_text_paragraph' ref tg : preserves _paragraph (add_text W ref tg).
Proof. frame. Qed.

Lemma add_text_entity_map' ref tg :
  preserves entity_map (add_text W ref tg).
Proof. frame. Qed.

Lemma add_text_literal_blocks b tg :
  preserves article_blocks (add_text W (Literal b) tg).
Proof. frame. Qed.

(** The paragraph of a header-step block: the numbered prefix, then the
    text of the block. *)
Lemma add_header_step_spec i s b :
  article_blocks s !! i = Some b →
  let n := step_header_elems s + 1 in
  let num := Py.str n +:+ ". " in
  ∃ s', _add_header_step W (InArticle i) s = (Ok tt, s') ∧
    step_header_elems s' = n ∧
    _paragraph s' = Some (length (document s)) ∧
    document s' =
      document s ++
        [EParagraph
           (par_add_runs (rendered_runs W true (entity_map s) b)
              (par_add_runs
                 (header_step_run <$> String.list_ascii_of_string num)
                 (empty_paragraph "Normal")))].
Proof.
  intros Hb n num. unfold _add_header_step. rewrite add_paragraph_Normal.
  cbv [guarded try_except bind gets modify ret read_block lookup_or
       new_paragraph any_exn captureException].
  rewrite Hb. simpl (String.eqb "Normal" "Caption"). cbv iota.
  cbn [step_header_elems with_step_header_elems with_paragraph
       with_document with_depth_level].
  fold n. fold num.
  set (s2 := with_step_header_elems n _).
  rewrite (add_text_run W (Literal (header_step_prefix num)) None s2).
  set (s3 := (add_text W (Literal (header_step_prefix num)) None s2).2).
  rewrite (add_text_run W (InArticle i) None s3).
  eexists. split; [reflexivity|].
  assert (document s3 =
            document s ++
              [EParagraph
                 (par_add_runs
                    (header_step_run <$> String.list_ascii_of_string num)
                    (empty_paragraph "Normal"))]) as Hd3.
  { unfold s3.
    erewrite (add_text_document_gen W _ None s2 (header_step_prefix num)
                (TPar (length (document s))));
      [|done|done|apply doc_paragraph_app_new].
    unfold s2.
    cbn [document _paragraph entity_map with_step_header_elems
         with_paragraph with_document with_depth_level].
    rewrite map_target_par_new.
    assert (rendered_runs W (bool_decide (is_Some (Some (length (document s)))))
              (entity_map s) (header_step_prefix num)
            = header_step_run <$> String.list_ascii_of_string num) as ->;
      [|done].
    unfold rendered_runs, styled_ranges, append_header_step, bubble_sort.
    simpl. unfold num. rewrite xml_text_app, xml_text_str. simpl.
    apply build_runs_header_step. }
  assert (entity_map s3 = entity_map s) as Hem.
  { unfold s3. rewrite add_text_entity_map'. reflexivity. }
  assert (_paragraph s3 = Some (length (document s))) as Hp3.
  { unfold s3. rewrite add_text_paragraph'. reflexivity. }
  assert (article_blocks s3 = article_blocks s) as Hb3.
  { unfold s3. rewrite add_text_literal_blocks. reflexivity. }
  split; [|split].
  - unfold s3. rewrite !add_text_step_header_elems. reflexivity.
  - by rewrite add_text_paragraph'.
  - erewrite (add_text_document_gen W _ None s3 b
                (TPar (length (document s))));
      [| apply read_block_article; by rewrite Hb3
       | unfold effective_target; by rewrite Hp3
       | rewrite Hd3; apply doc_paragraph_app_new].
    rewrite Hd3, map_target_par_new, Hem, Hp3.
    by rewrite bool_decide_eq_true_2 by eauto.
Qed.

End HeaderStep.

(** ** Counting header steps through a book *)

Lemma types_alter_ranges ranges i (l : list Block) :
  type <$> alter (set_inlineStyleRanges ranges) i l = type <$> l.
Proof.
  apply list_eq. intros j. rewrite !list_lookup_fmap.
  destruct (decide (i = j)) as [<-|Hne].
  - rewrite list_lookup_alter_eq. by destruct (l !! i).
  - by rewrite list_lookup_alter_ne.
Qed.

Lemma types_alter_depth v i (l : list Block) :
  type <$> alter (set_depth v) i l = type <$> l.
Proof.
  apply list_eq. intros j. rewrite !list_lookup_fmap.
  destruct (decide (i = j)) as [<-|Hne].
  - rewrite list_lookup_alter_eq. by destruct (l !! i).
  - by rewrite list_lookup_alter_ne.
Qed.

Lemma normalize_cell_types ks (blocks : list Block) i :
  type <$> (normalize_cell ks blocks i).1 = type <$> blocks.
Proof.
  unfold normalize_cell.
  repeat (case_match; simpl; try done); by rewrite ?types_alter_depth.
Qed.

Lemma normalize_loop_types fuel ks (blocks : list Block) i :
  type <$> normalize_loop fuel ks blocks i = type <$> blocks.
Proof.
  revert blocks i. induction fuel as [|fuel IH]; intros blocks i; [done|].
  simpl. case_bool_decide; [|done].
  pose proof (normalize_cell_types ks blocks i) as Hc.
  destruct (normalize_cell ks blocks i) as [blocks' [next|]]; simpl in *.
  - by rewrite IH.
  - done.
Qed.

Section Counter.
Variable W : World.

Lemma route_types ref b : preserves types (route W ref b).
Proof. frame; apply types_alter_ranges. Qed.

Lemma dispatch_ok i s : (dispatch W i s).1 = Ok tt.
Proof. apply guarded_ok. Qed.

Lemma dispatch_types i : preserves types (dispatch W i).
Proof.
  pose proof route_types. unfold dispatch. frame.
Qed.

Lemma route_header_step ref b s :
  type b = "header-step" → route W ref b s = _add_header_step W ref s.
Proof. intros Hty. unfold route. rewrite Hty. reflexivity. Qed.

(** A dispatch advances the counter by one for a header-step block and
    leaves it alone for any other block. *)
Lemma dispatch_counter i s b :
  article_blocks s !! i = Some b →
  step_header_elems (dispatch W i s).2 =
    step_header_elems s
    + (if String.eqb (type b) "header-step" then 1 else 0).
Proof.
  intros Hb. unfold dispatch.
  cbv [try_except bind read_block gets lookup_or ret modify any_exn
       captureException].
  rewrite Hb.
  destruct (String.eqb_spec (type b) "header-step") as [Hty|Hty].
  - rewrite (route_header_step _ _ _ Hty).
    destruct (add_header_step_spec W i s b Hb) as (s' & -> & Hn & _).
    simpl. done.
  - pose proof (route_step_header_elems W (InArticle i) b Hty s) as Hr.
    destruct (route W (InArticle i) b s) as [[[]|e] s1];
      cbn [snd step_header_elems with_depth_level with_captured] in *; lia.
Qed.

Lemma dispatch_loop_counter m k s :
  (k + m ≤ length (article_blocks s))%nat →
  let r := for_each (seq k m) (dispatch W) s in
  r.1 = Ok tt ∧
  step_header_elems r.2 =
    step_header_elems s
    + Z.of_nat (count_header_steps (take m (drop k (types s)))) ∧
  types r.2 = types s.
Proof.
  revert k s. induction m as [|m IH]; intros k s Hlen; simpl.
  - split; [done|]. split; [|done]. rewrite take_0.
    unfold count_header_steps. simpl. lia.
  - destruct (lookup_lt_is_Some_2 (article_blocks s) k) as [b Hb]; [lia|].
    pose proof (dispatch_ok k s) as Hok.
    pose proof (dispatch_counter k s b Hb) as Hc.
    pose proof (dispatch_types k s) as Hty.
    cbv [bind]. destruct (dispatch W k s) as [r s1]. simpl in *. subst r.
    assert (length (article_blocks s1) = length (article_blocks s)) as Hl.
    { unfold types in Hty.
      by rewrite <- (length_fmap type), Hty, length_fmap. }
    destruct (IH (S k) s1) as (H1 & H2 & H3); [lia|].
    split; [done|]. split; [|congruence].
    rewrite H2, Hc, Hty.
    assert (types s !! k = Some (type b)) as Hk.
    { unfold types. by rewrite list_lookup_fmap, Hb. }
    rewrite (drop_S _ _ _ Hk). simpl. unfold count_header_steps.
    rewrite filter_cons.
    destruct (String.eqb_spec (type b) "header-step") as [Heq|Hne].
    + rewrite decide_True by done. simpl. lia.
    + rewrite decide_False by done. lia.
Qed.

Lemma parse_blocks_no_snippets blocks s :
  no_snippets blocks → parse_blocks W blocks s = (Ok blocks, s).
Proof.
  intros Hn. induction Hn as [|b blocks Hb Hn IH]; [done|].
  simpl. apply String.eqb_neq in Hb. rewrite Hb.
  cbv [bind ret]. by rewrite IH.
Qed.

Lemma set_article_step_header_elems a :
  preserves step_header_elems (_set_article W a).
Proof. frame. Qed.

Lemma set_article_blocks a : preserves article_blocks (_set_article W a).
Proof. frame. Qed.

Lemma set_article_keys a : preserves keys (_set_article W a).
Proof. frame. Qed.

Lemma set_article_doc_version a : preserves doc_version (_set_article W a).
Proof. frame. Qed.

Lemma set_article_run a s :
  _set_article W a s = (Ok tt, (_set_article W a s).2).
Proof.
  pose proof (guarded_ok) as H. unfold _set_article.
  match goal with |- guarded ?m s = _ => specialize (H m s) end.
  match goal with |- ?x = _ => destruct x as [r s'] end.
  simpl in *. by subst.
Qed.

Lemma count_header_steps_app l1 l2 :
  count_header_steps (l1 ++ l2)
  = (count_header_steps l1 + count_header_steps l2)%nat.
Proof. unfold count_header_steps. by rewrite filter_app, length_app. Qed.

(** An article advances the counter by its number of header steps. *)
Lemma export_article_counter a s :
  no_snippets (art_blocks a) →
  let r := export_article W a s in
  r.1 = Ok tt ∧
  step_header_elems r.2 =
    step_header_elems s + Z.of_nat (header_steps (art_blocks a)).
Proof.
  intros Hn. unfold export_article.
  cbv [bind modify gets ret]. rewrite (parse_blocks_no_snippets _ _ Hn).
  rewrite set_article_run.
  set (s1 := with_doc_version _ _).
  set (s2 := (_set_article W a s1).2).
  assert (step_header_elems s2 = step_header_elems s) as Hc
    by (unfold s2; by rewrite set_article_step_header_elems).
  assert (article_blocks s2 = art_blocks a) as Hb
    by (unfold s2; by rewrite set_article_blocks).
  set (blocks2 := if doc_version s2 <=? 2
                  then normalize_depths (keys s2) (article_blocks s2)
                  else article_blocks s2).
  assert (type <$> blocks2 = type <$> art_blocks a) as Hty.
  { unfold blocks2. destruct (doc_version s2 <=? 2); [|by rewrite Hb].
    unfold normalize_depths. by rewrite normalize_loop_types, Hb. }
  set (s3 := with_article_blocks (blocks2 ++ [terminal_block])
               (with_article_blocks blocks2 s2)).
  assert ((if doc_version s2 <=? 2
           then modify (λ s : Exporter,
                  with_article_blocks
                    (normalize_depths (keys s) (article_blocks s)) s)
           else ret tt) s2 = (Ok tt, with_article_blocks blocks2 s2)) as Hn2.
  { unfold blocks2. destruct (doc_version s2 <=? 2); [done|].
    cbv [ret]. by destruct s2. }
  cbv [modify ret] in Hn2. rewrite Hn2.
  cbn [article_blocks with_article_blocks]. fold s3.
  destruct (dispatch_loop_counter (length (blocks2 ++ [terminal_block])) 0 s3)
    as (H1 & H2 & _); [done|].
  split; [done|]. rewrite H2.
  replace (step_header_elems s3) with (step_header_elems s) by done.
  rewrite drop_0. unfold types. cbn [article_blocks s3 with_article_blocks].
  rewrite take_ge by by rewrite length_fmap.
  rewrite fmap_app, count_header_steps_app, Hty. simpl.
  unfold header_steps. unfold count_header_steps at 2. simpl. lia.
Qed.

Lemma articles_counter articles s :
  Forall (λ a, no_snippets (art_blocks a)) articles →
  let r := for_each articles (export_article W) s in
  r.1 = Ok tt ∧
  step_header_elems r.2 =
    step_header_elems s
    + Z.of_nat (sum_list (header_steps ∘ art_blocks <$> articles)).
Proof.
  intros Hn. revert s. induction Hn as [|a articles Ha Hn IH]; intros s.
  - simpl. split; [done|lia].
  - cbn [for_each]. destruct (export_article_counter a s Ha) as [H1 H2].
    cbv [bind]. destruct (export_article W a s) as [r s1].
    cbn [fst snd] in *. subst r. destruct (IH s1) as [H3 H4]. split; [done|].
    rewrite H4, H2, fmap_cons. cbn [sum_list_with id compose]. lia.
Qed.

Lemma add_book_title_step_header_elems name :
  preserves step_header_elems (_add_book_title name).
Proof. frame. Qed.

Lemma add_run_step_header_elems t f :
  preserves step_header_elems (add_run t f).
Proof. frame. Qed.

(** The counter is reset once per book and runs through its articles. *)
Lemma export_book_counter book s :
  Forall (λ a, no_snippets (art_blocks a)) (book_articles book) →
  step_header_elems (export_book W book s).2 =
    Z.of_nat (book_header_steps book).
Proof.
  intros Hn. unfold export_book.
  cbv [guarded try_except bind modify any_exn captureException].
  pose proof (guarded_ok) as Hok. unfold _add_book_title at 1.
  match goal with |- context [guarded ?m s] =>
    specialize (Hok m s); destruct (guarded m s) as [r s1] end.
  simpl in Hok. subst r.
  destruct (articles_counter (book_articles book) (reset_book s1) Hn)
    as [H1 H2].
  destruct (for_each (book_articles book) (export_article W) (reset_book s1))
    as [r s2]. simpl in *. subst r.
  rewrite add_run_step_header_elems. rewrite H2. unfold book_header_steps.
  simpl. lia.
Qed.

End Counter.

(** ** List items *)



Section ListItem.
Variable W : World.

Lemma add_text_blocks_lookup i tg s b :
  article_blocks s !! i = Some b →
  ∃ b', article_blocks (add_text W (InArticle i) tg s).2 !! i = Some b'.
Proof.
  intros Hb. rewrite (add_text_blocks W i tg s b Hb).
  rewrite list_lookup_alter_eq, Hb. simpl. eauto.
Qed.


Lemma add_paragraph_blocks style : preserves article_blocks (__add_paragraph style).
Proof. frame. Qed.

Lemma add_paragraph_entity_map style :
  preserves entity_map (__add_paragraph style).
Proof. frame. Qed.

Lemma add_run_blocks t f : preserves article_blocks (add_run t f).
Proof. frame. Qed.

Lemma add_run_entity_map t f : preserves entity_map (add_run t f).
Proof. frame. Qed.









End ListItem.

(** ** Markdown tables *)

Lemma with_document_twice d1 d2 s :
  with_document d2 (with_document d1 s) = with_document d2 s.
Proof. by destruct s. Qed.

(** The table operations of [_add_mdtable] on the table it has just
    appended to the document. *)
Lemma add_row_new doc tb s :
  add_row (length doc) (with_document (doc ++ [ETable tb]) s)
  = (Ok tt, with_document (doc ++ [ETable (table_add_row tb)]) s).
Proof.
  unfold add_row, modify. cbn [document with_document].
  rewrite with_document_twice.
  by rewrite (alter_app_r_alt _ doc) by lia; rewrite Nat.sub_diag.
Qed.

Lemma set_last_row_text_new doc tb s cell_id txt cl :
  last_row_cell tb (Z.of_nat cell_id) = Some cl →
  xml_text txt = true →
  set_last_row_text (length doc) cell_id txt
    (with_document (doc ++ [ETable tb]) s)
  = (Ok tt,
     with_document
       (doc ++ [ETable (table_map_cell (length (tbl_rows tb) - 1) cell_id
                          (cell_set_text txt) tb)]) s).
Proof.
  intros Hcl Hxml. unfold set_last_row_text.
  cbv [bind the_table gets lookup_or ret raise modify].
  cbn [document with_document]. rewrite doc_table_app_new.
  cbn [fst snd]. rewrite Hcl, Hxml, (written_xml txt Hxml).
  cbn [document with_document].
  rewrite with_document_twice.
  by rewrite (alter_app_r_alt _ doc) by lia; rewrite Nat.sub_diag.
Qed.

(** Running the table operations one after the other. *)
Ltac md_steps :=
  cbv [bind add_table gets modify ret compose]; cbn [fst snd];
  repeat (first [ rewrite add_row_new
                | erewrite set_last_row_text_new by reflexivity ];
          cbv beta iota; cbn [fst snd]).

Lemma add_mdtable_framed i s b :
  article_blocks s !! i = Some b →
  text b = newline +:+ md_text →
  _add_mdtable (InArticle i) s =
    (Ok tt,
     with_document
       (document s ++
          [ETable {| tbl_cols := 2;
                     tbl_rows := [[text_cell "h1"; text_cell "h2"];
                                  [text_cell "a"; text_cell "b"]] |}]) s).
Proof.
  intros Hb Ht. unfold _add_mdtable.
  cbv [bind read_block gets lookup_or ret]. rewrite Hb, Ht.
  set (j := _read_markdown_table _). vm_compute in j. subst j.
  cbv beta iota zeta. cbn [fmap list_fmap fst snd length imap for_each].
  md_steps. reflexivity.
Qed.

Lemma add_mdtable_bare i s b :
  article_blocks s !! i = Some b →
  text b = md_text →
  _add_mdtable (InArticle i) s =
    (Ok tt,
     with_document
       (document s ++
          [ETable {| tbl_cols := 1;
                     tbl_rows := [[text_cell "h2"]; [text_cell "a"]] |}]) s).
Proof.
  intros Hb Ht. unfold _add_mdtable.
  cbv [bind read_block gets lookup_or ret]. rewrite Hb, Ht.
  set (j := _read_markdown_table _). vm_compute in j. subst j.
  cbv beta iota zeta. cbn [fmap list_fmap fst snd length imap for_each].
  md_steps. reflexivity.
Qed.

(** ** Picture insertion *)

Section Picture.
Variable W : World.

(** Obtaining the image stream reads the shelf and nothing else, and
    leaves the exporter as it is. *)
Lemma image_stream_reads url label border s s' :
  shelf s' = shelf s →
  image_stream W url label border s'
  = ((image_stream W url label border s).1, s').
Proof.
  intros Hsh. unfold image_stream.
  cbv [bind gets lookup_or ret raise]. rewrite Hsh.
  repeat (case_match; simplify_eq/=; try done).
Qed.

(** The label the stream leaves is the label given, or none. *)
Lemma image_stream_label url label border s sl :
  (image_stream W url label border s).1 = Ok sl →
  sl.2 = label ∨ sl.2 = "".
Proof.
  unfold image_stream. cbv [bind gets lookup_or ret raise].
  repeat (case_match; simplify_eq/=; try done); intros; simplify_eq/=; auto.
Qed.

Lemma set_picture_ok url label depth alignment border s :
  (_set_picture W url label depth alignment border s).1 = Ok tt.
Proof. apply guarded_ok. Qed.

Lemma set_picture_unrecognized url label depth alignment border s sl :
  url ≠ "" →
  (image_stream W url label border s).1 = Ok sl →
  docx_picture W sl.1 = Raise UnrecognizedImageError →
  let s' := (_set_picture W url label depth alignment border s).2 in
  captured s' = captured s ++ [UnrecognizedImageError] ∧
  document s' =
    document s ++
      [EParagraph
         {| par_style := "Normal"; par_alignment := Some alignment;
            par_runs := [plain_run ""] |}] ∧
  depth_level s' = depth_level s + depth.
Proof.
  intros Hurl Hstream Hpic. unfold _set_picture.
  apply String.eqb_neq in Hurl. rewrite Hurl.
  rewrite ?add_paragraph_Normal, ?add_paragraph_Caption, ?add_run_empty,
    ?add_run_newline.
  cbv [guarded try_except bind modify gets any_exn __reset_non_general
       new_paragraph set_alignment on_paragraph put_run ret raise].
  cbn [_paragraph document with_paragraph with_document fmap option_fmap
       option_map target_paragraph with_cols_num with_table_col_index
       with_table with_depth_level].
  rewrite doc_paragraph_app_new.
  set (s1 := with_document _ _).
  rewrite (image_stream_reads url label border s s1) by done.
  rewrite Hstream. cbn [fst snd].
  cbn [_paragraph document with_paragraph with_document fmap option_fmap
       option_map target_paragraph s1].
  rewrite map_target_par_new, doc_paragraph_app_new.
  cbn [fst snd]. rewrite Hpic. cbv [lift_res raise is_exn captureException
    modify]. cbn [snd]. subst s1. rewrite map_target_par_new. simpl.
  done.
Qed.

End Picture.

(** ** The loop over the blocks never stops early *)

Section Loop.
Variable W : World.

Lemma dispatch_run i s : dispatch W i s = (Ok tt, (dispatch W i s).2).
Proof.
  pose proof (guarded_ok) as H. unfold dispatch.
  match goal with |- try_except any_exn ?m captureException s = _ =>
    specialize (H m s); unfold guarded in H end.
  match goal with |- ?x = _ => destruct x as [r s'] end.
  simpl in *. by subst.
Qed.

Lemma dispatch_continues i rest s :
  for_each (i :: rest) (dispatch W) s
  = for_each rest (dispatch W) (dispatch W i s).2.
Proof. simpl. unfold bind. by rewrite dispatch_run. Qed.

End Loop.

(** ** The style merge *)

Module MergeFacts.
Import MergeStyles.

Lemma copy_attrs_loop_app based_style font pre post :
  copy_attrs_loop based_style font (pre ++ post) =
    match copy_attrs_loop based_style font pre with
    | (font1, None) => copy_attrs_loop based_style font1 post
    | (font1, Some e) => (font1, Some e)
    end.
Proof.
  revert font. induction pre as [|attr pre IH]; intros font; simpl; [done|].
  destruct (copy_attr based_style font attr) as [font'|e]; [apply IH|done].
Qed.

(** The loop over the attributes ends at the first copy that fails. *)
Lemma copy_attrs_loop_stops based_style font pre attr post font1 e :
  copy_attrs_loop based_style font pre = (font1, None) →
  copy_attr based_style font1 attr = Raise e →
  copy_attrs_loop based_style font (pre ++ attr :: post) = (font1, Some e).
Proof.
  intros Hpre Hattr. rewrite copy_attrs_loop_app, Hpre. simpl.
  by rewrite Hattr.
Qed.

Lemma merge_paragraphs_app based attrs pars1 pars2 fonts :
  merge_paragraphs based attrs (pars1 ++ pars2) fonts =
    match merge_paragraphs based attrs pars1 fonts with
    | (fonts1, None) => merge_paragraphs based attrs pars2 fonts1
    | (fonts1, Some e) => (fonts1, Some e)
    end.
Proof.
  revert fonts. induction pars1 as [|name pars1 IH]; intros fonts; simpl;
    [done|].
  destruct (based !! name) as [based_style|]; [|apply IH].
  destruct (copy_attrs_loop based_style (style_font fonts name) attrs)
    as [font [e|]]; [done|apply IH].
Qed.

(** The loop over the paragraphs ends with the paragraph whose copies
    failed. *)
Lemma merge_paragraphs_stops based attrs pars1 name pars2 fonts fonts1
    based_style font e :
  merge_paragraphs based attrs pars1 fonts = (fonts1, None) →
  based !! name = Some based_style →
  copy_attrs_loop based_style (style_font fonts1 name) attrs
    = (font, Some e) →
  merge_paragraphs based attrs (pars1 ++ name :: pars2) fonts
  = (<[name := font]> fonts1, Some e).
Proof.
  intros H1 Hb Hc. rewrite merge_paragraphs_app, H1. simpl.
  by rewrite Hb, Hc.
Qed.

End MergeFacts.

(** ** The cell cursor outside [_add_table_cell] *)

Section CursorFrames.
Variable W : World.

Lemma set_article_cells a : preserves cells (_set_article W a).
Proof. frame. Qed.

Lemma add_book_title_cells name : preserves cells (_add_book_title name).
Proof. frame. Qed.

Lemma parse_blocks_cells blocks : preserves cells (parse_blocks W blocks).
Proof. induction blocks as [|b blocks IH]; simpl; frame. Qed.

(** The column of the first cell of a table opened on the legacy
    path, by the cursor. *)
Lemma placed_column_new d c :
  0 ≤ c →
  placed_column (new_table 1 (cols_for_depth d)) c =
    if decide (c < cols_for_depth d) then Z.to_nat c else O.
Proof.
  intros Hc. unfold placed_column. simpl tbl_cols.
  pose proof (cols_for_depth_pos d).
  rewrite Z2Nat.id by lia. reflexivity.
Qed.

End CursorFrames.

(** * Further properties *)

(** ** The bubble sort of [add_text] sorts *)

(** One inner loop of [k] steps carries a largest element of the first
    [k + 1] entries to position [k] and leaves the rest in place. *)
Lemma bubble_pass_max k l :
  (k < length l)%nat →
  ∃ pre m,
    bubble_pass k l = pre ++ m :: drop (S k) l ∧
    length pre = k ∧
    pre ++ [m] ≡ₚ take (S k) l ∧
    Forall (λ x, sr_offset x ≤ sr_offset m) pre.
Proof.
  revert l. induction k as [|k IH]; intros l Hk.
  - destruct l as [|x r]; [simpl in Hk; lia|].
    exists [], x. simpl. by rewrite drop_0.
  - destruct l as [|x [|y r]]; simpl in Hk; try lia.
    assert (∀ z pre m,
              pre ++ [m] ≡ₚ take (S k) (z :: r) →
              Forall (λ x, sr_offset x ≤ sr_offset m) pre →
              sr_offset z ≤ sr_offset m) as Hmax.
    { intros z pre m Hperm Hle.
      assert (z ∈ pre ++ [m]) as Hin.
      { rewrite Hperm. simpl. left. }
      apply elem_of_app in Hin as [Hin|Hin].
      - by apply (proj1 (Forall_forall _ _) Hle).
      - apply list_elem_of_singleton in Hin. by subst. }
    simpl. destruct (sr_offset x >? sr_offset y) eqn:Hgt.
    + destruct (IH (x :: r)) as (pre & m & Heq & Hlen & Hperm & Hle);
        [simpl; lia|].
      exists (y :: pre), m. rewrite Heq. simpl.
      split; [done|]. split; [lia|]. split.
      * rewrite Hperm. simpl. apply Permutation_swap.
      * constructor; [|done].
        pose proof (Hmax x pre m Hperm Hle). lia.
    + destruct (IH (y :: r)) as (pre & m & Heq & Hlen & Hperm & Hle);
        [simpl; lia|].
      exists (x :: pre), m. rewrite Heq. simpl.
      split; [done|]. split; [lia|]. split.
      * by rewrite Hperm.
      * constructor; [|done].
        pose proof (Hmax y pre m Hperm Hle). lia.
Qed.

Lemma ascending_app_le front back :
  ascending front → ascending back →
  Forall (λ x, Forall (λ y, sr_offset x ≤ sr_offset y) back) front →
  ascending (front ++ back).
Proof.
  induction front as [|x front IH]; intros Hf Hb Hle; [done|].
  destruct Hf as [Hx Hf]. apply Forall_cons in Hle as [Hxb Hle].
  simpl. split; [|by apply IH].
  apply Forall_app. done.
Qed.

(** The outer loop, from pass [i] on: the last [i] entries are sorted
    and no smaller than the entries before them. *)
Lemma bubble_passes_sorted n cnt i front back :
  (i + cnt = n - 1)%nat →
  length (front ++ back) = n →
  length back = i →
  ascending back →
  Forall (λ x, Forall (λ y, sr_offset x ≤ sr_offset y) back) front →
  ascending
    (foldl (λ l j, bubble_pass (n - j - 1) l) (front ++ back) (seq i cnt)).
Proof.
  revert i front back.
  induction cnt as [|cnt IH]; intros i front back Hi Hn Hb Hasc Hle.
  - simpl. rewrite length_app in Hn.
    destruct front as [|x [|y front]]; simpl in *; try lia.
    + done.
    + apply Forall_cons in Hle as [Hx _]. done.
  - simpl. rewrite length_app in Hn.
    destruct (bubble_pass_max (n - i - 1) (front ++ back))
      as (pre & m & Heq & Hlen & Hperm & Hpre).
    { rewrite length_app. lia. }
    replace (S (n - i - 1)) with (length front) in Heq, Hperm by lia.
    rewrite drop_app_length in Heq. rewrite take_app_length in Hperm.
    rewrite Heq.
    assert (m ∈ front) as Hm.
    { rewrite <- Hperm. apply elem_of_app. right. left. }
    change (pre ++ m :: back) with (pre ++ (m :: back)).
    apply IH.
    + lia.
    + rewrite length_app. simpl. lia.
    + simpl. lia.
    + simpl. split; [|done].
      by apply (proj1 (Forall_forall _ _) Hle).
    + apply Forall_forall. intros x Hx. constructor.
      * by apply (proj1 (Forall_forall _ _) Hpre).
      * apply (proj1 (Forall_forall _ _) Hle).
        rewrite <- Hperm. apply elem_of_app. by left.
Qed.

Lemma bubble_sort_ascending l : ascending (bubble_sort l).
Proof.
  unfold bubble_sort. cbv zeta.
  pose proof (bubble_passes_sorted (length l) (length l - 1) 0 l []) as H.
  rewrite app_nil_r in H. apply H; simpl; try done.
  apply Forall_forall. intros; constructor.
Qed.

(** ** The text [add_text] renders *)

Lemma string_app_nil_r (s : string) : s +:+ "" = s.
Proof.
  induction s as [|c s IH]; [done|].
  change (String c s +:+ "") with (String c (s +:+ "")). by rewrite IH.
Qed.

Lemma string_app_assoc (a b c : string) : (a +:+ b) +:+ c = a +:+ (b +:+ c).
Proof.
  induction a as [|x a IH]; [done|].
  change (String x a +:+ b) with (String x (a +:+ b)).
  change (String x (a +:+ b) +:+ c) with (String x ((a +:+ b) +:+ c)).
  change (String x a +:+ (b +:+ c)) with (String x (a +:+ (b +:+ c))).
  by rewrite IH.
Qed.

Lemma runs_text_app rs1 rs2 :
  runs_text (rs1 ++ rs2) = runs_text rs1 +:+ runs_text rs2.
Proof.
  induction rs1 as [|r rs1 IH]; simpl; [done|].
  unfold runs_text in *. simpl. by rewrite IH, string_app_assoc.
Qed.

Lemma par_text_add_runs rs p :
  par_text (par_add_runs rs p) = par_text p +:+ runs_text rs.
Proof. unfold par_text, par_add_runs. simpl. apply runs_text_app. Qed.

Section RunTexts.
Variable W : World.

Lemma set_styles_text hp st r t :
  is_link st = false →
  run_text (set_styles W hp st r t).1 = run_text r.
Proof.
  intros Hst. destruct st as [name|href|e]; simpl in *; [|done|].
  - repeat (case_match; simpl; try done).
  - by destruct (inline_picture W e).
Qed.

Lemma style_slot_text hp st sl :
  is_link st = false →
  run_text (slot_run (style_slot W hp st sl)) = run_text (slot_run sl).
Proof.
  intros Hst. unfold style_slot. destruct (slot_alive sl); [|done].
  pose proof (set_styles_text hp st (slot_run sl) (slot_text sl) Hst) as H.
  by destruct (set_styles W hp st (slot_run sl) (slot_text sl)).
Qed.

Lemma style_at_texts hp st slots z :
  is_link st = false →
  (run_text ∘ slot_run) <$> style_at W hp st slots z
  = (run_text ∘ slot_run) <$> slots.
Proof.
  intros Hst. unfold style_at. destruct (0 <=? z); [|done].
  rewrite (list_fmap_alter _ _ id).
  - by apply list_alter_id.
  - apply Forall_forall. intros sl _. simpl. by apply style_slot_text.
Qed.

Lemma apply_styling_texts hp slots sr :
  is_link (sr_style sr) = false →
  (run_text ∘ slot_run) <$> apply_styling W hp slots sr
  = (run_text ∘ slot_run) <$> slots.
Proof.
  intros Hst. unfold apply_styling.
  generalize (Py.range (sr_offset sr) (sr_offset sr + sr_length sr)).
  intros zs. revert slots.
  induction zs as [|z zs IH]; intros slots; simpl; [done|].
  by rewrite IH, style_at_texts.
Qed.

Lemma runs_text_chars (cs : list ascii) :
  foldr (λ t acc, t +:+ acc) ""
    ((λ c, String c EmptyString) <$> cs)
  = String.string_of_list_ascii cs.
Proof.
  induction cs as [|c cs IH]; [done|]. simpl. rewrite <- IH. reflexivity.
Qed.

Lemma runs_text_fmap rs :
  runs_text rs = foldr (λ t acc, t +:+ acc) "" (run_text <$> rs).
Proof.
  unfold runs_text. induction rs as [|r rs IH]; simpl; [done|].
  by rewrite IH.
Qed.

(** Without hyperlink styles the runs spell the text. *)
Lemma build_runs_text hp t ranges :
  Forall (λ sr, is_link (sr_style sr) = false) ranges →
  runs_text (build_runs W hp t ranges) = t.
Proof.
  intros Hr. rewrite runs_text_fmap. unfold build_runs.
  rewrite <- list_fmap_compose.
  assert (∀ slots,
            (run_text ∘ slot_run) <$> foldl (apply_styling W hp) slots ranges
            = (run_text ∘ slot_run) <$> slots) as Hfold.
  { induction Hr as [|sr ranges Hsr Hr IH]; intros slots; simpl; [done|].
    by rewrite IH, apply_styling_texts. }
  rewrite Hfold, <- list_fmap_compose.
  rewrite <- (String.string_of_list_ascii_of_string t) at 2.
  apply runs_text_chars.
Qed.

(** One run per character, whatever the ranges. *)
Lemma style_at_length hp st slots z :
  length (style_at W hp st slots z) = length slots.
Proof.
  unfold style_at. destruct (0 <=? z); [|done]. apply length_alter.
Qed.

Lemma apply_styling_length hp slots sr :
  length (apply_styling W hp slots sr) = length slots.
Proof.
  unfold apply_styling.
  generalize (Py.range (sr_offset sr) (sr_offset sr + sr_length sr)).
  intros zs. revert slots.
  induction zs as [|z zs IH]; intros slots; simpl; [done|].
  by rewrite IH, style_at_length.
Qed.

Lemma build_runs_length hp t ranges :
  length (build_runs W hp t ranges) = String.length t.
Proof.
  unfold build_runs. rewrite length_fmap.
  assert (∀ slots,
            length (foldl (apply_styling W hp) slots ranges) = length slots)
    as Hfold.
  { induction ranges as [|sr ranges IH]; intros slots; simpl; [done|].
    by rewrite IH, apply_styling_length. }
  rewrite Hfold, length_fmap.
  clear. induction t as [|c t IH]; simpl; [done|]. by rewrite IH.
Qed.

(** A range touches the positions it covers only. *)
Lemma apply_styling_outside hp slots sr k :
  ¬ (sr_offset sr ≤ Z.of_nat k < sr_offset sr + sr_length sr) →
  apply_styling W hp slots sr !! k = slots !! k.
Proof.
  intros Hk. unfold apply_styling, Py.range.
  assert (Forall (λ z, z ≠ Z.of_nat k)
            (seqZ (sr_offset sr)
               (sr_offset sr + sr_length sr - sr_offset sr))) as Hzs.
  { apply Forall_forall. intros z Hz. apply elem_of_seqZ in Hz. lia. }
  revert Hzs.
  generalize (seqZ (sr_offset sr)
                (sr_offset sr + sr_length sr - sr_offset sr)).
  intros zs Hzs. revert slots.
  induction Hzs as [|z zs Hz Hzs IH]; intros slots; simpl; [done|].
  rewrite IH. unfold style_at.
  destruct (0 <=? z) eqn:Hpos; [|done].
  apply list_lookup_alter_ne. apply Z.leb_le in Hpos. lia.
Qed.

Lemma build_runs_outside hp t ranges k :
  Forall (λ sr, ¬ (sr_offset sr ≤ Z.of_nat k
                   < sr_offset sr + sr_length sr)) ranges →
  build_runs W hp t ranges !! k
  = default_run <$> String.list_ascii_of_string t !! k.
Proof.
  intros Hr. unfold build_runs. rewrite list_lookup_fmap.
  assert (∀ slots,
            foldl (apply_styling W hp) slots ranges !! k = slots !! k)
    as Hfold.
  { induction Hr as [|sr ranges Hsr Hr IH]; intros slots; simpl; [done|].
    by rewrite IH, apply_styling_outside. }
  rewrite Hfold, list_lookup_fmap.
  by destruct (String.list_ascii_of_string t !! k).
Qed.

End RunTexts.

(** ** What [add_text] adds to the paragraph *)

Lemma not_link_entity_ok em er : not_link_entity em er → link_ok em er.
Proof. intros Hn e He Hty. by destruct (Hn e He). Qed.

Lemma entity_style_not_link em er sr :
  not_link_entity em er → entity_style em er = Some sr →
  is_link (sr_style sr) = false.
Proof.
  unfold not_link_entity, entity_style. intros Hn.
  destruct (em !! er_key er) as [e|]; simpl; [|done].
  specialize (Hn e eq_refl).
  destruct (ent_type e) as [ty|]; simpl; [|done].
  destruct (String.eqb_spec ty "LINK") as [->|Hne]; [done|].
  destruct (String.eqb ty "IMG"); simpl; [|done].
  intros; by simplify_eq.
Qed.

Lemma added_ranges_not_link em b :
  Forall (not_link_entity em) (entityRanges b) →
  Forall (λ sr, is_link (sr_style sr) = false) (added_ranges em b).
Proof.
  intros Hn. unfold added_ranges. apply Forall_app. split.
  - induction Hn as [|er ers Her Hers IH]; simpl; [done|].
    destruct (entity_style em er) as [sr|] eqn:Hsr; [|done].
    constructor; [|done]. by eapply entity_style_not_link.
  - destruct (String.eqb (type b) "header-step"); by repeat constructor.
Qed.

Section AddedRuns.
Variable W : World.

(** The runs of a block whose ranges hold no hyperlink spell its text,
    one run per character. *)
Lemma rendered_runs_text hp em b :
  xml_text (text b) = true →
  Forall (not_link_entity em) (entityRanges b) →
  Forall (λ sr, is_link (sr_style sr) = false) (inlineStyleRanges b) →
  runs_text (rendered_runs W hp em b) = text b ∧
  length (rendered_runs W hp em b) = String.length (text b).
Proof.
  intros Hxml Hers Hsrs. unfold rendered_runs.
  rewrite styled_ranges_ok
    by (eapply Forall_impl; [exact Hers|apply not_link_entity_ok]).
  rewrite Hxml.
  split; [|apply build_runs_length].
  apply build_runs_text.
  rewrite bubble_sort_perm. apply Forall_app. split; [done|].
  by apply added_ranges_not_link.
Qed.

(** A character no range covers gets the default run. *)
Lemma rendered_runs_outside hp em b k :
  xml_text (text b) = true →
  Forall (link_ok em) (entityRanges b) →
  Forall (λ sr, ¬ (sr_offset sr ≤ Z.of_nat k
                   < sr_offset sr + sr_length sr))
    (inlineStyleRanges b ++ added_ranges em b) →
  rendered_runs W hp em b !! k
  = default_run <$> String.list_ascii_of_string (text b) !! k.
Proof.
  intros Hxml Hok Hout. unfold rendered_runs.
  rewrite styled_ranges_ok by done. rewrite Hxml.
  apply build_runs_outside. by rewrite bubble_sort_perm.
Qed.

Lemma add_text_target ref tg s b t p :
  read_block ref s = (Ok b, s) →
  effective_target tg s = Some t →
  target_paragraph (document s) t = Some p →
  target_paragraph (document (add_text W ref tg s).2) t =
    Some (par_add_runs
            (rendered_runs W (bool_decide (is_Some (_paragraph s)))
               (entity_map s) b) p).
Proof.
  intros Hb Ht Hp.
  rewrite (add_text_document_gen W ref tg s b t p Hb Ht Hp).
  by apply target_paragraph_map.
Qed.

End AddedRuns.

(** ** Plain texts and plain ranges *)

Lemma plain_text_xml t : plain_text t = true → xml_text t = true.
Proof.
  unfold plain_text, xml_text. intros H.
  apply forallb_forall. intros c Hc.
  apply (proj1 (forallb_forall _ _) H) in Hc.
  unfold plain_char, xml_char in *.
  repeat (apply orb_prop in Hc as [Hc|Hc]); rewrite Hc;
    by rewrite ?orb_true_r.
Qed.

Lemma plain_style_not_link st : plain_style st = true → is_link st = false.
Proof. by destruct st. Qed.

Lemma plain_entity_not_link em er :
  plain_entity em er → not_link_entity em er.
Proof. intros H e He. by destruct (H e He). Qed.

Section Quiet.
Variable W : World.

Lemma add_text_quiet ref tg s b t p :
  read_block ref s = (Ok b, s) →
  Forall (link_ok (entity_map s)) (entityRanges b) →
  xml_text (text b) = true →
  effective_target tg s = Some t →
  target_paragraph (document s) t = Some p →
  captured (add_text W ref tg s).2 = captured s.
Proof.
  intros Hb Hok Hxml Ht Hp. unfold add_text.
  cbv [guarded try_except bind]. rewrite Hb.
  cbv [gets modify ret raise captureException any_exn on_paragraph bind].
  fold (effective_target tg s). rewrite Ht.
  rewrite (styled_ranges_ok _ _ Hok), Hxml.
  destruct (String.eqb (text b) "");
    destruct ref; cbv [store_ranges modify ret raise bind]; simpl;
    by rewrite ?Hp.
Qed.

End Quiet.

(** ** A LINK entity without [href] *)

Lemma fold_entities_stops em pre er post ranges e :
  Forall (link_ok em) pre →
  em !! er_key er = Some e →
  ent_type e = Some "LINK" →
  ent_href e = None →
  fold_entities em (pre ++ er :: post) ranges
  = (ranges ++ omap (entity_style em) pre, Some KeyError).
Proof.
  intros Hpre He Hty Hhref. revert ranges.
  induction Hpre as [|x pre Hx Hpre IH]; intros ranges; simpl.
  - unfold fold_entity. rewrite He, Hty. simpl. rewrite Hhref.
    by rewrite app_nil_r.
  - rewrite (fold_entity_ok _ _ _ Hx), IH, <- app_assoc. f_equal. f_equal.
    by destruct (entity_style em x).
Qed.

(** ** Version-3 cells that carry no table data *)

Lemma open_table_v3_none b s :
  d_table (data b) = None → open_table 3 b s = (Ok tt, s).
Proof. intros Hd. unfold open_table. simpl. by rewrite Hd. Qed.

(** ** [remove_crap] *)

(** Removing a one-character string drops that character. *)
Lemma str_remove_char (a : ascii) (st : string) :
  String.list_ascii_of_string (str_remove (String a EmptyString) st)
  = filter (λ c, c ≠ a) (String.list_ascii_of_string st).
Proof.
  unfold str_remove. induction st as [|c st IH]; [done|].
  simpl str_remove_go. simpl String.list_ascii_of_string.
  rewrite filter_cons.
  destruct (ascii_dec a c) as [->|Hne].
  - assert (String.prefix "" st = true) as -> by (by destruct st).
    simpl. rewrite decide_False by (intros H; by apply H). exact IH.
  - simpl. rewrite decide_True by congruence. simpl. by rewrite IH.
Qed.

Lemma remove_crap_chars (craps : list ascii) (st : string) :
  String.list_ascii_of_string
    (remove_crap ((λ a, String a EmptyString) <$> craps) st)
  = filter (λ c, c ∉ craps) (String.list_ascii_of_string st).
Proof.
  unfold remove_crap. revert st.
  induction craps as [|a craps IH]; intros st; simpl.
  - induction (String.list_ascii_of_string st) as [|c l IHl]; [done|].
    rewrite filter_cons, decide_True by apply not_elem_of_nil.
    by rewrite <- IHl.
  - rewrite IH, str_remove_char.
    induction (String.list_ascii_of_string st) as [|c l IHl]; [done|].
    rewrite !filter_cons.
    destruct (decide (c ≠ a)) as [Hca|Hca].
    + rewrite filter_cons.
      destruct (decide (c ∉ craps)) as [Hc|Hc].
      * rewrite decide_True by (rewrite not_elem_of_cons; done).
        by rewrite IHl.
      * rewrite decide_False by (rewrite not_elem_of_cons; tauto). done.
    + rewrite decide_False; [done|].
      rewrite not_elem_of_cons. tauto.
Qed.

(** ** Reading back a printed markdown table *)

Lemma list_ascii_app (a b : string) :
  String.list_ascii_of_string (a +:+ b)
  = String.list_ascii_of_string a ++ String.list_ascii_of_string b.
Proof.
  induction a as [|c a IH]; [done|].
  change (String c a +:+ b) with (String c (a +:+ b)). simpl. by rewrite IH.
Qed.

Lemma string_of_list_app (l1 l2 : list ascii) :
  String.string_of_list_ascii (l1 ++ l2)
  = String.string_of_list_ascii l1 +:+ String.string_of_list_ascii l2.
Proof. induction l1 as [|c l1 IH]; [done|]. simpl. by rewrite IH. Qed.

Lemma split_chars_clean sep cur l :
  sep ∉ l →
  Py.split_chars sep cur l = [String.string_of_list_ascii (rev cur ++ l)].
Proof.
  revert cur. induction l as [|c l IH]; intros cur Hl; simpl.
  - by rewrite app_nil_r.
  - apply not_elem_of_cons in Hl as [Hc Hl].
    destruct (Ascii.eqb_spec c sep) as [->|_]; [done|].
    rewrite IH by done. simpl. by rewrite <- app_assoc.
Qed.

Lemma split_chars_sep sep cur l rest :
  sep ∉ l →
  Py.split_chars sep cur (l ++ sep :: rest)
  = String.string_of_list_ascii (rev cur ++ l)
    :: Py.split_chars sep [] rest.
Proof.
  revert cur. induction l as [|c l IH]; intros cur Hl; simpl.
  - rewrite Ascii.eqb_refl. by rewrite app_nil_r.
  - apply not_elem_of_cons in Hl as [Hc Hl].
    destruct (Ascii.eqb_spec c sep) as [->|_]; [done|].
    rewrite IH by done. simpl. by rewrite <- app_assoc.
Qed.

(** Splitting a joined list gives the list back. *)
Lemma split_concat (sep : ascii) (lines : list string) :
  lines ≠ [] →
  Forall (λ line, sep ∉ String.list_ascii_of_string line) lines →
  Py.split sep (String.concat (String sep EmptyString) lines) = lines.
Proof.
  intros Hne Hclean. unfold Py.split.
  induction Hclean as [|x lines Hx Hclean IH]; [done|].
  destruct lines as [|y lines].
  - simpl. rewrite split_chars_clean by done. simpl.
    by rewrite String.string_of_list_ascii_of_string.
  - change (String.concat (String sep "") (x :: y :: lines))
      with (x +:+ String sep "" +:+ String.concat (String sep "") (y :: lines)).
    rewrite !list_ascii_app. simpl.
    rewrite split_chars_sep by done. simpl.
    rewrite String.string_of_list_ascii_of_string.
    f_equal. by apply IH.
Qed.

Lemma concat_chars (sep : ascii) (lines : list string) (c : ascii) :
  c ≠ sep →
  Forall (λ line, c ∉ String.list_ascii_of_string line) lines →
  c ∉ String.list_ascii_of_string
        (String.concat (String sep EmptyString) lines).
Proof.
  intros Hc Hl. induction Hl as [|x lines Hx Hl IH]; [apply not_elem_of_nil|].
  destruct lines as [|y lines]; [done|].
  change (String.concat (String sep "") (x :: y :: lines))
    with (x +:+ String sep "" +:+ String.concat (String sep "") (y :: lines)).
  rewrite !list_ascii_app. simpl.
  rewrite not_elem_of_app, not_elem_of_cons. done.
Qed.

Lemma slice_1_m1_framed {A} (x : A) l y :
  Py.slice_1_m1 (x :: l ++ [y]) = l.
Proof. unfold Py.slice_1_m1. simpl. apply removelast_last. Qed.

Lemma md_cells_line cells :
  Forall md_clean cells → md_cells (md_line cells) = cells.
Proof.
  intros Hc. unfold md_cells, md_line.
  rewrite split_concat.
  - rewrite slice_1_m1_framed.
    induction Hc as [|c cells (_ & _ & Hs) Hc IH]; [done|].
    rewrite fmap_cons. by rewrite Hs, IH.
  - done.
  - constructor; [apply not_elem_of_nil|].
    apply Forall_app. split.
    + eapply Forall_impl; [exact Hc|]. by intros c (H & _ & _).
    + repeat constructor. apply not_elem_of_nil.
Qed.

Lemma md_line_no_newline cells :
  Forall md_clean cells →
  "010"%char ∉ String.list_ascii_of_string (md_line cells).
Proof.
  intros Hc. unfold md_line. apply concat_chars; [done|].
  constructor; [apply not_elem_of_nil|].
  apply Forall_app. split.
  - eapply Forall_impl; [exact Hc|]. by intros c (_ & H & _).
  - repeat constructor. apply not_elem_of_nil.
Qed.

(** [dict_set] of a new key appends the entry. *)
Lemma dict_set_new k v d :
  k ∉ d.*1 → dict_set k v d = d ++ [(k, v)].
Proof.
  induction d as [|[k' v'] d IH]; intros Hk; simpl; [done|].
  simpl in Hk. apply not_elem_of_cons in Hk as [Hne Hk].
  destruct (String.eqb_spec k' k) as [->|_]; [done|].
  by rewrite IH.
Qed.

Lemma foldl_dict_set d l :
  NoDup (d.*1 ++ l.*1) →
  foldl (λ d cv, dict_set cv.1 cv.2 d) d l = d ++ l.
Proof.
  revert d. induction l as [|[k v] l IH]; intros d Hnd; simpl.
  - by rewrite app_nil_r.
  - rewrite dict_set_new.
    + rewrite IH; [by rewrite <- app_assoc|].
      rewrite fmap_app. simpl. by rewrite <- app_assoc.
    + simpl in Hnd. apply NoDup_app in Hnd as (_ & Hd & _).
      intros Hk. apply (Hd k Hk). left.
Qed.

Lemma md_row_line header cells :
  NoDup header → Forall md_clean cells →
  md_row header (md_line cells) = zip header cells.
Proof.
  intros Hnd Hc. unfold md_row. rewrite md_cells_line by done.
  rewrite foldl_dict_set; [done|]. simpl.
  revert cells Hc. induction Hnd as [|h header Hh Hnd IH]; intros cells Hc.
  - constructor.
  - destruct cells as [|c cells]; [constructor|].
    apply Forall_cons in Hc as [_ Hc]. simpl. constructor; [|by apply IH].
    intros Hin. apply Hh.
    apply list_elem_of_fmap in Hin as ([k v] & -> & Hin).
    simpl. by apply elem_of_zip_l in Hin.
Qed.

Lemma read_markdown_table_print first header separator rows final :
  NoDup header →
  Forall md_clean header →
  "010"%char ∉ String.list_ascii_of_string separator →
  Forall (Forall md_clean) rows →
  _read_markdown_table (md_print first header separator rows final)
  = zip header <$> rows.
Proof.
  intros Hnd Hh Hsep Hrows. unfold _read_markdown_table, md_print.
  assert (Py.str_slice_1_m1
            (String first
               (String.concat newline
                  (md_line header :: separator :: (md_line <$> rows))
                +:+ String final ""))
          = String.concat newline
              (md_line header :: separator :: (md_line <$> rows))) as ->.
  { unfold Py.str_slice_1_m1. simpl String.list_ascii_of_string.
    rewrite list_ascii_app. simpl.
    rewrite slice_1_m1_framed.
    apply String.string_of_list_ascii_of_string. }
  change newline with (String "010" EmptyString).
  rewrite split_concat; [|done|].
  - rewrite md_cells_line by done.
    change (drop 2 (md_line header :: separator :: (md_line <$> rows)))
      with (md_line <$> rows).
    induction Hrows as [|row rows Hrow Hrows IH]; [done|].
    rewrite !fmap_cons. by rewrite md_row_line, IH.
  - constructor; [by apply md_line_no_newline|].
    constructor; [done|].
    apply Forall_fmap. eapply Forall_impl; [exact Hrows|].
    intros row Hrow. by apply md_line_no_newline.
Qed.

(** ** The table of a printed markdown text *)

(** Assigning the texts [vals] to the cells of the last row from
    column [length pre] on. *)
Lemma set_texts_last_row doc s n rows0 vals :
  Forall (λ v, xml_text v = true) vals → ∀ pre rest,
  for_each (imap (λ i v, ((length pre + i)%nat, v)) vals)
    (λ ic, set_last_row_text (length doc) ic.1 ic.2)
    (with_document
       (doc ++ [ETable {| tbl_cols := n;
                          tbl_rows :=
                            rows0 ++ [pre ++ replicate (length vals + rest)
                                               empty_cell] |}]) s)
  = (Ok tt,
     with_document
       (doc ++ [ETable {| tbl_cols := n;
                          tbl_rows :=
                            rows0 ++ [pre ++ (text_cell <$> vals)
                                      ++ replicate rest empty_cell] |}]) s).
Proof.
  intros Hx. induction Hx as [|v vals Hv Hx IH]; intros pre rest; [done|].
  rewrite imap_cons. cbn [for_each]. unfold bind at 1. cbn [fst snd].
  erewrite set_last_row_text_new; cycle 1.
  { unfold last_row_cell. cbn [tbl_rows]. rewrite last_snoc. simpl.
    unfold Py.getitem. rewrite (proj2 (Z.leb_le 0 _)) by lia.
    rewrite Nat2Z.id, Nat.add_0_r.
    rewrite lookup_app_r by lia. rewrite Nat.sub_diag. reflexivity. }
  { exact Hv. }
  unfold table_map_cell. cbn [tbl_rows tbl_cols].
  rewrite length_app. cbn [length].
  rewrite (alter_app_r_alt _ rows0) by lia.
  replace (length rows0 + 1 - 1 - length rows0)%nat with 0%nat by lia.
  cbn [alter list_alter].
  rewrite (alter_app_r_alt _ pre) by lia.
  replace (length pre + 0 - length pre)%nat with 0%nat by lia.
  cbn [length replicate alter list_alter Nat.add].
  specialize (IH (pre ++ [text_cell v]) rest).
  rewrite <- !app_assoc in IH. cbn [app] in IH.
  rewrite fmap_cons. cbn [app].
  etransitivity; [|exact IH]. f_equal.
  apply imap_ext. intros i x _. simpl. rewrite length_app. simpl.
  f_equal. lia.
Qed.

Lemma set_texts_new_row doc s n rows0 vals :
  Forall (λ v, xml_text v = true) vals →
  length vals = n →
  (add_row (length doc) ;;
   for_each (imap pair vals)
     (λ ic, set_last_row_text (length doc) ic.1 ic.2))
    (with_document
       (doc ++ [ETable {| tbl_cols := n; tbl_rows := rows0 |}]) s)
  = (Ok tt,
     with_document
       (doc ++ [ETable {| tbl_cols := n;
                          tbl_rows := rows0 ++ [text_cell <$> vals] |}])
       s).
Proof.
  intros Hx Hn. unfold bind at 1. rewrite add_row_new.
  unfold table_add_row. cbn [tbl_cols tbl_rows].
  pose proof (set_texts_last_row doc s n rows0 vals Hx [] 0%nat) as H.
  cbn [app length] in H. rewrite Nat.add_0_r, app_nil_r in H.
  rewrite Hn in H. exact H.
Qed.

Lemma set_texts_rows doc s n rows : ∀ rows0,
  Forall (Forall (λ v, xml_text v = true)) rows →
  Forall (λ row : list string, length row = n) rows →
  for_each rows
    (λ columns_,
       add_row (length doc) ;;
       for_each (imap pair columns_)
         (λ ic, set_last_row_text (length doc) ic.1 ic.2))
    (with_document
       (doc ++ [ETable {| tbl_cols := n; tbl_rows := rows0 |}]) s)
  = (Ok tt,
     with_document
       (doc ++ [ETable {| tbl_cols := n;
                          tbl_rows :=
                            rows0 ++ ((λ row : list string,
                                         text_cell <$> row) <$> rows) |}])
       s).
Proof.
  induction rows as [|row rows IH]; intros rows0 Hxs Hrows.
  - simpl. by rewrite app_nil_r.
  - apply Forall_cons in Hrows as [Hrow Hrows].
    apply Forall_cons in Hxs as [Hx Hxs].
    cbn [for_each]. unfold bind at 1.
    rewrite set_texts_new_row by done.
    rewrite IH by done. by rewrite <- app_assoc.
Qed.

(** The table [_add_mdtable] appends for rows as long as the header. *)
Lemma add_mdtable_rows i s b header row rows :
  article_blocks s !! i = Some b →
  _read_markdown_table (text b) = zip header <$> (row :: rows) →
  Forall (λ row : list string, length row = length header) (row :: rows) →
  Forall (λ v, xml_text v = true) header →
  Forall (Forall (λ v, xml_text v = true)) (row :: rows) →
  _add_mdtable (InArticle i) s
  = (Ok tt,
     with_document (document s ++ [ETable (md_table header (row :: rows))])
       s).
Proof.
  intros Hb Hread Hrows Hxh Hxs. unfold _add_mdtable.
  cbv [bind read_block gets lookup_or ret]. rewrite Hb, Hread.
  rewrite fmap_cons. cbv beta iota zeta.
  pose proof Hrows as Hall.
  apply Forall_cons in Hrows as [Hrow Hrows].
  rewrite length_zip, Hrow, Nat.min_id. rewrite fst_zip by lia.
  cbv [add_table bind gets modify ret]. cbn [fst snd document].
  rewrite <- (with_document_twice (document s) _ s) at 1.
  assert (document s = document (with_document (document s) s)) as Hd
    by (by destruct s).
  unfold new_table. rewrite Nat2Z.id. cbn [replicate].
  pose proof (set_texts_new_row (document s) s (length header) [] header
                Hxh eq_refl) as Hhead.
  unfold bind at 1 in Hhead.
  destruct (add_row (length (document s))
              (with_document
                 (document s ++
                    [ETable {| tbl_cols := length header; tbl_rows := [] |}])
                 s)) as [[[]|e] s1] eqn:Hrow1; [|done].
  rewrite with_document_twice. rewrite Hrow1. rewrite Hhead.
  assert ((λ row0 : list (string * string), row0.*2)
          <$> zip header row :: (zip header <$> rows) = row :: rows) as ->.
  { rewrite <- fmap_cons.
    clear -Hall. induction Hall as [|r rs Hr Hrs IH]; [done|].
    rewrite !fmap_cons. rewrite snd_zip by lia. by rewrite IH. }
  exact (set_texts_rows (document s) s (length header) (row :: rows)
           [text_cell <$> header] Hxs Hall).
Qed.

(** ** Rendering leaves the article as it is, style ranges apart *)

Lemma content_alter_ranges ranges i (l : list Block) :
  block_content <$> alter (set_inlineStyleRanges ranges) i l
  = block_content <$> l.
Proof.
  apply list_eq. intros j. rewrite !list_lookup_fmap.
  destruct (decide (i = j)) as [<-|Hne].
  - rewrite list_lookup_alter_eq. by destruct (l !! i).
  - by rewrite list_lookup_alter_ne.
Qed.

Section ArticleInput.
Variable W : World.

Lemma route_article_input ref b : preserves article_input (route W ref b).
Proof.
  frame; unfold article_input; cbn; by rewrite content_alter_ranges.
Qed.

Lemma dispatch_article_input i : preserves article_input (dispatch W i).
Proof. pose proof route_article_input. unfold dispatch. frame. Qed.

Lemma dispatch_all_article_input idxs :
  preserves article_input (for_each idxs (dispatch W)).
Proof. pose proof dispatch_article_input. frame. Qed.

End ArticleInput.

(** ** The pre-pass changes depths only, and only to 3 *)

Lemma set_depth_twice d (b : Block) :
  set_depth d (set_depth d b) = set_depth d b.
Proof. done. Qed.

Lemma depth3_alter (blocks0 blocks : list Block) i :
  Forall2 (λ b b', b' = b ∨ b' = set_depth 3 b) blocks0 blocks →
  Forall2 (λ b b', b' = b ∨ b' = set_depth 3 b) blocks0
    (alter (set_depth 3) i blocks).
Proof.
  intros H. apply Forall2_alter_r; [done|].
  intros x y _ _ [->| ->]; right; done.
Qed.

Lemma normalize_cell_depth3 ks (blocks0 blocks : list Block) i :
  Forall2 (λ b b', b' = b ∨ b' = set_depth 3 b) blocks0 blocks →
  Forall2 (λ b b', b' = b ∨ b' = set_depth 3 b) blocks0
    (normalize_cell ks blocks i).1.
Proof.
  intros H. unfold normalize_cell.
  repeat (case_match; simpl; try done); by repeat apply depth3_alter.
Qed.

Lemma normalize_loop_depth3 fuel ks (blocks0 blocks : list Block) i :
  Forall2 (λ b b', b' = b ∨ b' = set_depth 3 b) blocks0 blocks →
  Forall2 (λ b b', b' = b ∨ b' = set_depth 3 b) blocks0
    (normalize_loop fuel ks blocks i).
Proof.
  revert blocks i. induction fuel as [|fuel IH]; intros blocks i H; [done|].
  simpl. case_bool_decide; [|done].
  pose proof (normalize_cell_depth3 ks blocks0 blocks i H) as Hc.
  destruct (normalize_cell ks blocks i) as [blocks' [next|]]; simpl in *.
  - by apply IH.
  - done.
Qed.

Lemma normalize_depths_depth3 ks (blocks : list Block) :
  Forall2 (λ b b', b' = b ∨ b' = set_depth 3 b) blocks
    (normalize_depths ks blocks).
Proof.
  apply normalize_loop_depth3. apply Forall_Forall2_diag.
  apply Forall_forall. intros; by left.
Qed.

(** ** The style merge copies what it reads *)

Module MergeCopies.
Import MergeStyles.

Lemma assoc_get_set_eq name v attrs :
  assoc_get name (assoc_set name v attrs) = Some v.
Proof.
  induction attrs as [|[k v'] attrs IH]; simpl.
  - by rewrite String.eqb_refl.
  - destruct (String.eqb k name) eqn:Hk; simpl; by rewrite Hk.
Qed.

Lemma assoc_get_set_ne name other v attrs :
  other ≠ name →
  assoc_get other (assoc_set name v attrs) = assoc_get other attrs.
Proof.
  intros Hne. induction attrs as [|[k v'] attrs IH]; simpl.
  - by rewrite (proj2 (String.eqb_neq _ _)) by done.
  - destruct (String.eqb_spec k name) as [->|Hk]; simpl.
    + by rewrite (proj2 (String.eqb_neq _ _)) by done.
    + by rewrite IH.
Qed.

Lemma assoc_set_same name v attrs :
  assoc_get name attrs = Some v → assoc_set name v attrs = attrs.
Proof.
  induction attrs as [|[k v'] attrs IH]; simpl; [done|].
  destruct (String.eqb k name) eqn:Hk; intros H.
  - by simplify_eq.
  - by rewrite IH.
Qed.

Lemma getattr_setattr_eq o name v o' :
  setattr o name v = Ok o' → getattr o' name = Ok v.
Proof.
  destruct o as [x|attrs]; simpl; [done|]. intros H. simplify_eq.
  simpl. by rewrite assoc_get_set_eq.
Qed.

Lemma getattr_setattr_ne o name other v o' :
  other ≠ name → setattr o name v = Ok o' →
  getattr o' other = getattr o other.
Proof.
  intros Hne. destruct o as [x|attrs]; simpl; [done|]. intros H.
  simplify_eq. simpl. by rewrite assoc_get_set_ne.
Qed.

Lemma setattr_same o name v o' :
  getattr o name = Ok v → setattr o name v = Ok o' → o' = o.
Proof.
  destruct o as [x|attrs]; simpl; [done|].
  destruct (assoc_get name attrs) as [w|] eqn:Hw; [|done].
  intros H1 H2. simplify_eq. by rewrite assoc_set_same.
Qed.

Lemma setattr_path_cons n n2 rest v o :
  setattr_path (n :: n2 :: rest) v o =
    res_bind (getattr o n) (λ child,
    res_bind (setattr_path (n2 :: rest) v child) (λ child',
    setattr o n child')).
Proof. reflexivity. Qed.

(** Reading a path after it was set gives the value set. *)
Lemma reduce_getattr_setattr_path path v o o' :
  setattr_path path v o = Ok o' → reduce_getattr path o' = Ok v.
Proof.
  revert o o'. induction path as [|name rest IH]; intros o o'; [done|].
  destruct rest as [|name2 rest].
  - cbn [setattr_path reduce_getattr]. intros H.
    rewrite (getattr_setattr_eq _ _ _ _ H). reflexivity.
  - rewrite setattr_path_cons.
    destruct (getattr o name) as [child|e] eqn:Hc; [|done].
    cbn [res_bind].
    destruct (setattr_path (name2 :: rest) v child) as [child'|e] eqn:Hs;
      [|done].
    cbn [res_bind]. intros H. cbn [reduce_getattr].
    rewrite (getattr_setattr_eq _ _ _ _ H). cbn [res_bind].
    by apply IH in Hs.
Qed.

(** Setting a path to the value the template has there keeps every
    path on which the font agrees with the template. *)
Lemma setattr_path_keeps q : ∀ p font based bsq v font',
  reduce_getattr q based = Ok bsq →
  setattr_path q bsq font = Ok font' →
  reduce_getattr p font = Ok v →
  reduce_getattr p based = Ok v →
  reduce_getattr p font' = Ok v.
Proof.
  induction q as [|n q IH]; intros p font based bsq v font' Hb Hs Hf Hv;
    [done|].
  cbn [reduce_getattr] in Hb. unfold res_bind in Hb.
  destruct (getattr based n) as [bchild|e] eqn:Hbn; [|done].
  destruct q as [|n2 q].
  - simpl in Hb. simplify_eq. cbn [setattr_path] in Hs.
    destruct p as [|m p].
    + simpl in *. simplify_eq. f_equal. by eapply setattr_same.
    + cbn [reduce_getattr] in *.
      destruct (decide (m = n)) as [->|Hne].
      * rewrite (getattr_setattr_eq _ _ _ _ Hs). rewrite Hbn in Hv. done.
      * by rewrite (getattr_setattr_ne _ _ _ _ _ Hne Hs).
  - rewrite setattr_path_cons in Hs.
    destruct (getattr font n) as [child|e] eqn:Hfn; [|done].
    cbn [res_bind] in Hs.
    destruct (setattr_path (n2 :: q) bsq child) as [child'|e] eqn:Hsc;
      [|done].
    cbn [res_bind] in Hs.
    destruct p as [|m p].
    + simpl in Hf, Hv. simplify_eq. rewrite Hbn in Hfn. simplify_eq.
      assert (child' = child) as ->.
      { specialize (IH [] child child bsq child child' Hb Hsc eq_refl
                      eq_refl). simpl in IH. by simplify_eq. }
      simpl. f_equal. by eapply setattr_same.
    + cbn [reduce_getattr] in *.
      destruct (decide (m = n)) as [->|Hne].
      * rewrite (getattr_setattr_eq _ _ _ _ Hs).
        rewrite Hfn in Hf. rewrite Hbn in Hv. simpl in *.
        by eapply IH.
      * by rewrite (getattr_setattr_ne _ _ _ _ _ Hne Hs).
Qed.

Lemma contains_dot_chars (attr : string) :
  Py.contains "." attr = false →
  "."%char ∉ String.list_ascii_of_string attr.
Proof.
  unfold Py.contains. induction attr as [|c attr IH].
  - intros _. apply not_elem_of_nil.
  - change (Py.contains_chars "." (String c attr))
      with (String.prefix "." (String c attr)
            || Py.contains_chars "." attr).
    change (String.prefix "." (String c attr))
      with (if ascii_dec "." c then String.prefix "" attr else false).
    destruct (ascii_dec "." c) as [<-|Hne].
    + by destruct attr.
    + cbn [orb]. intros H.
      change (String.list_ascii_of_string (String c attr))
        with (c :: String.list_ascii_of_string attr).
      apply not_elem_of_cons. split; [congruence|]. by apply IH.
Qed.

Lemma split_no_dot (attr : string) :
  Py.contains "." attr = false → Py.split "." attr = [attr].
Proof.
  intros H. unfold Py.split.
  rewrite split_chars_clean by (by apply contains_dot_chars).
  simpl. by rewrite String.string_of_list_ascii_of_string.
Qed.

(** One copy, read by the path of the attribute. *)
Lemma copy_attr_path based_style font attr font' :
  copy_attr based_style font attr = Ok font' →
  ∃ bs,
    reduce_getattr (Py.split "." attr) based_style = Ok bs ∧
    setattr_path (Py.split "." attr) bs font = Ok font'.
Proof.
  unfold copy_attr. destruct (Py.contains "." attr) eqn:Hdot.
  - unfold res_bind.
    destruct (reduce_getattr (removelast _) font); [|done].
    destruct (reduce_getattr (Py.split "." attr) based_style) as [bs|];
      [|done].
    intros H. by exists bs.
  - rewrite split_no_dot by done. unfold res_bind. simpl.
    destruct (getattr based_style attr) as [bs|]; [|done].
    intros H. by exists bs.
Qed.

Lemma copy_attr_reads based_style font attr font' :
  copy_attr based_style font attr = Ok font' →
  reduce_getattr (Py.split "." attr) font'
  = reduce_getattr (Py.split "." attr) based_style.
Proof.
  intros H. destruct (copy_attr_path _ _ _ _ H) as (bs & Hb & Hs).
  rewrite Hb. by eapply reduce_getattr_setattr_path.
Qed.

Lemma copy_attr_keeps based_style font attr font' p v :
  copy_attr based_style font attr = Ok font' →
  reduce_getattr p font = Ok v →
  reduce_getattr p based_style = Ok v →
  reduce_getattr p font' = Ok v.
Proof.
  intros H. destruct (copy_attr_path _ _ _ _ H) as (bs & Hb & Hs).
  by eapply setattr_path_keeps.
Qed.

(** The font agrees with the template on the paths of [attrs]. *)
Lemma copy_attrs_loop_keeps based_style attrs : ∀ font font' p v,
  copy_attrs_loop based_style font attrs = (font', None) →
  reduce_getattr p font = Ok v →
  reduce_getattr p based_style = Ok v →
  reduce_getattr p font' = Ok v.
Proof.
  induction attrs as [|attr attrs IH]; intros font font' p v Hl Hf Hb.
  - simpl in Hl. by simplify_eq.
  - simpl in Hl.
    destruct (copy_attr based_style font attr) as [font1|e] eqn:Hc; [|done].
    eapply IH; [exact Hl| |done].
    by eapply copy_attr_keeps.
Qed.

Lemma copy_attrs_loop_reads based_style attrs : ∀ font font' attr,
  copy_attrs_loop based_style font attrs = (font', None) →
  attr ∈ attrs →
  ∃ v, reduce_getattr (Py.split "." attr) based_style = Ok v ∧
       reduce_getattr (Py.split "." attr) font' = Ok v.
Proof.
  induction attrs as [|a attrs IH]; intros font font' attr Hl Hin.
  - by apply elem_of_nil in Hin.
  - simpl in Hl.
    destruct (copy_attr based_style font a) as [font1|e] eqn:Hc; [|done].
    apply elem_of_cons in Hin as [->|Hin].
    + pose proof (copy_attr_reads _ _ _ _ Hc) as Hr.
      destruct (copy_attr_path _ _ _ _ Hc) as (bs & Hb & _).
      exists bs. split; [done|].
      eapply copy_attrs_loop_keeps; [exact Hl| |done]. by rewrite Hr.
    + by eapply IH.
Qed.

(** The fonts after the loop over the paragraphs. *)
Lemma merge_paragraphs_reads based attrs pars : ∀ fonts fonts',
  merge_paragraphs based attrs pars fonts = (fonts', None) →
  (∀ name based_style attr,
     name ∈ pars → based !! name = Some based_style → attr ∈ attrs →
     ∃ v, reduce_getattr (Py.split "." attr) based_style = Ok v ∧
          reduce_getattr (Py.split "." attr) (style_font fonts' name)
          = Ok v) ∧
  (∀ name based_style p v,
     based !! name = Some based_style →
     reduce_getattr p (style_font fonts name) = Ok v →
     reduce_getattr p based_style = Ok v →
     reduce_getattr p (style_font fonts' name) = Ok v) ∧
  (∀ name, based !! name = None → fonts' !! name = fonts !! name).
Proof.
  induction pars as [|par pars IH]; intros fonts fonts' Hm.
  - simpl in Hm. simplify_eq. split; [|done].
    intros name bs attr Hin. by apply elem_of_nil in Hin.
  - simpl in Hm.
    destruct (based !! par) as [bpar|] eqn:Hpar.
    + destruct (copy_attrs_loop bpar (style_font fonts par) attrs)
        as [font [e|]] eqn:Hl; [done|].
      destruct (IH _ _ Hm) as (Hreads & Hkeeps & Hnone).
      assert (∀ name based_style p v,
                based !! name = Some based_style →
                reduce_getattr p (style_font fonts name) = Ok v →
                reduce_getattr p based_style = Ok v →
                reduce_getattr p
                  (style_font (<[par:=font]> fonts) name) = Ok v) as Hstep.
      { intros name bs p v Hn Hf Hb. unfold style_font.
        destruct (decide (name = par)) as [->|Hne].
        - rewrite lookup_insert_eq. simpl. simplify_eq.
          by eapply copy_attrs_loop_keeps.
        - by rewrite lookup_insert_ne. }
      split; [|split].
      * intros name bs attr Hin Hn Ha.
        apply elem_of_cons in Hin as [->|Hin]; [|by eapply Hreads].
        simplify_eq.
        destruct (copy_attrs_loop_reads _ _ _ _ _ Hl Ha) as (v & Hb & Hf).
        exists v. split; [done|].
        eapply Hkeeps; [done| |done].
        unfold style_font. by rewrite lookup_insert_eq.
      * intros name bs p v Hn Hf Hb.
        eapply Hkeeps; [done| |done]. by eapply Hstep.
      * intros name Hn. rewrite Hnone by done.
        apply lookup_insert_ne. congruence.
    + destruct (IH _ _ Hm) as (Hreads & Hkeeps & Hnone).
      split; [|done]. intros name bs attr Hin Hn Ha.
      apply elem_of_cons in Hin as [->|Hin]; [congruence|].
      by eapply Hreads.
Qed.

(** No paragraph style of the produced document is in the template:
    nothing is copied. *)
Lemma merge_paragraphs_unmatched based attrs pars fonts :
  Forall (λ name, based !! name = None) pars →
  merge_paragraphs based attrs pars fonts = (fonts, None).
Proof.
  induction 1 as [|name pars Hn Hpars IH]; simpl; [done|].
  by rewrite Hn.
Qed.

End MergeCopies.

(** ** The caption of a video *)

(** A new paragraph followed by runs added to it. *)
Lemma add_paragraph_run style t f (rest : M unit) s :
  template_has_style style = true →
  xml_text t = true →
  (__add_paragraph style ;; add_run t f ;; rest) s
  = rest
      (with_paragraph (Some (length (document s)))
         (with_document
            (document s ++
               [EParagraph
                  (par_add_runs [f (plain_run t)]
                     (if String.eqb style "Caption"
                      then par_set_alignment 1 (empty_paragraph style)
                      else empty_paragraph style))]) s)).
Proof.
  intros Hst Hx. rewrite (add_paragraph_known style Hst), (add_run_xml t f Hx).
  unfold new_paragraph, put_run.
  cbv [guarded try_except bind modify gets any_exn on_paragraph].
  cbn [_paragraph document with_paragraph with_document fmap option_fmap
       option_map target_paragraph].
  rewrite doc_paragraph_app_new. by rewrite map_target_par_new.
Qed.

(** A run added to the paragraph that was appended last. *)
Lemma add_run_last t f (rest : M unit) doc p s :
  xml_text t = true →
  (add_run t f ;; rest)
    (with_paragraph (Some (length doc))
       (with_document (doc ++ [EParagraph p]) s))
  = rest
      (with_paragraph (Some (length doc))
         (with_document
            (doc ++ [EParagraph (par_add_runs [f (plain_run t)] p)]) s)).
Proof.
  intros Hx. rewrite (add_run_xml t f Hx). unfold put_run.
  cbv [bind modify gets on_paragraph].
  cbn [_paragraph document with_paragraph with_document fmap option_fmap
       option_map target_paragraph].
  rewrite doc_paragraph_app_new. by rewrite map_target_par_new.
Qed.

Lemma add_run_last_end t f doc p s :
  xml_text t = true →
  add_run t f
    (with_paragraph (Some (length doc))
       (with_document (doc ++ [EParagraph p]) s))
  = (Ok tt,
     with_paragraph (Some (length doc))
       (with_document
          (doc ++ [EParagraph (par_add_runs [f (plain_run t)] p)]) s)).
Proof.
  intros Hx. rewrite (add_run_xml t f Hx). unfold put_run.
  cbv [bind modify gets on_paragraph].
  cbn [_paragraph document with_paragraph with_document fmap option_fmap
       option_map target_paragraph].
  rewrite doc_paragraph_app_new. by rewrite map_target_par_new.
Qed.

Section Video.
Variable W : World.

Lemma video_caption label url s :
  xml_text label = true →
  xml_text url = true →
  (__add_paragraph "Caption" ;;
   add_run label run_set_bold ;;
   add_run newline id ;;
   add_run url run_set_bold) s
  = (Ok tt,
     with_paragraph (Some (length (document s)))
       (with_document
          (document s ++
             [EParagraph
                {| par_style := "Caption"; par_alignment := Some 1;
                   par_runs := [run_set_bold (plain_run label);
                                plain_run newline;
                                run_set_bold (plain_run url)] |}]) s)).
Proof.
  intros Hl Hu.
  rewrite add_paragraph_run, add_run_last, add_run_last_end by done.
  reflexivity.
Qed.

(** The start of [_add_video]: an empty centred paragraph. *)
Lemma video_paragraph (rest : M unit) s :
  (__add_paragraph "Normal" ;; set_alignment 1 ;; rest) s
  = rest
      (with_paragraph (Some (length (document s)))
         (with_document
            (document s ++
               [EParagraph
                  (par_set_alignment 1 (empty_paragraph "Normal"))])
            s)).
Proof.
  rewrite add_paragraph_Normal. unfold new_paragraph, set_alignment.
  cbv [guarded try_except bind modify gets any_exn on_paragraph].
  cbn [_paragraph document with_paragraph with_document fmap option_fmap
       option_map target_paragraph].
  rewrite doc_paragraph_app_new. by rewrite map_target_par_new.
Qed.

Lemma add_video_caption i s b url :
  article_blocks s !! i = Some b →
  d_src (data b) = Some url →
  xml_text (default "" (d_label (data b))) = true →
  xml_text url = true →
  let s1 :=
    with_paragraph (Some (length (document s)))
      (with_document
         (document s ++
            [EParagraph (par_set_alignment 1 (empty_paragraph "Normal"))])
         s) in
  let s2 :=
    match video_big_image W url with
    | Some big_image => (_set_picture W big_image "" 0 1 true s1).2
    | None => s1
    end in
  _add_video W (InArticle i) s
  = (Ok tt,
     with_paragraph (Some (length (document s2)))
       (with_document
          (document s2 ++
             [EParagraph
                {| par_style := "Caption"; par_alignment := Some 1;
                   par_runs :=
                     [run_set_bold
                        (plain_run (default "" (d_label (data b))));
                      plain_run newline;
                      run_set_bold (plain_run url)] |}]) s2)).
Proof.
  intros Hb Hsrc Hl Hu s1 s2. unfold _add_video, guarded, try_except.
  rewrite (bind_ok _ _ s b s) by (by apply read_block_article).
  rewrite video_paragraph. rewrite Hsrc. fold s1. unfold s2.
  destruct (video_big_image W url) as [big|].
  - pose proof (set_picture_ok W big "" 0 1 true s1) as Hok.
    unfold bind at 1.
    destruct (_set_picture W big "" 0 1 true s1) as [r s3].
    simpl in Hok. subst r. simpl. by rewrite video_caption.
  - unfold bind at 1, ret. by rewrite video_caption.
Qed.

Lemma add_video_without_src i s b :
  article_blocks s !! i = Some b →
  d_src (data b) = None →
  _add_video W (InArticle i) s
  = (Ok tt,
     with_paragraph (Some (length (document s)))
       (with_document
          (document s ++
             [EParagraph (par_set_alignment 1 (empty_paragraph "Normal"))])
          s)).
Proof.
  intros Hb Hsrc. unfold _add_video, guarded, try_except.
  rewrite (bind_ok _ _ s b s) by (by apply read_block_article).
  rewrite video_paragraph. by rewrite Hsrc.
Qed.

End Video.

(** ** Invariants along a method *)

Section Keeps.
Context (I : Exporter → Prop).

Lemma keeps_ret {A} (a : A) : keeps I (ret a).
Proof. by intros s. Qed.

Lemma keeps_raise {A} e : keeps I (@raise A e).
Proof. by intros s. Qed.

Lemma keeps_gets {A} (g : Exporter → A) : keeps I (gets g).
Proof. by intros s. Qed.

Lemma keeps_modify g : (∀ s, I s → I (g s)) → keeps I (modify g).
Proof. intros H s. apply H. Qed.

Lemma keeps_bind {A C} (m : M A) (k : A → M C) :
  keeps I m → (∀ a, keeps I (k a)) → keeps I (bind m k).
Proof.
  intros Hm Hk s Hs. unfold bind. specialize (Hm s Hs).
  destruct (m s) as [[a|e] s']; simpl in *; [|done].
  by apply Hk.
Qed.

Lemma keeps_try_except {A} c (m : M A) h :
  keeps I m → (∀ e, keeps I (h e)) → keeps I (try_except c m h).
Proof.
  intros Hm Hh s Hs. unfold try_except. specialize (Hm s Hs).
  destruct (m s) as [[a|e] s']; simpl in *; [done|].
  destruct (c e); [by apply Hh | done].
Qed.

Lemma keeps_lookup_or {A} e (o : option A) : keeps I (lookup_or e o).
Proof. destruct o; by intros s. Qed.

Lemma keeps_lift_res {A} (r : Res A) : keeps I (lift_res r).
Proof. destruct r; by intros s. Qed.

Lemma keeps_for_each {A} (l : list A) k :
  (∀ a, keeps I (k a)) → keeps I (for_each l k).
Proof.
  intros Hk. induction l as [|a l IH]; [by intros s|].
  simpl. apply keeps_bind; [apply Hk | intros; apply IH].
Qed.

End Keeps.

Create HintDb keep discriminated.

(** One step of an invariant proof, along the structure of the
    method; a field update that the invariant does not read is closed
    at once, a method is replaced by its body unless a lemma for it is
    at hand. *)
Ltac keep_step :=
  lazymatch goal with
  | |- keeps _ (bind _ _) => apply keeps_bind; [|intros ?]
  | |- keeps _ (ret _) => apply keeps_ret
  | |- keeps _ (raise _) => apply keeps_raise
  | |- keeps _ (gets _) => apply keeps_gets
  | |- keeps _ (modify _) =>
      apply keeps_modify; let s := fresh "s" in let Hs := fresh "Hs" in
      intros s Hs; try exact Hs
  | |- keeps _ (try_except _ _ _) => apply keeps_try_except; [|intros ?]
  | |- keeps _ (lookup_or _ _) => apply keeps_lookup_or
  | |- keeps _ (lift_res _) => apply keeps_lift_res
  | |- keeps _ (for_each _ _) => apply keeps_for_each; intros ?
  | |- keeps _ (match ?x with _ => _ end) => destruct x
  | |- keeps _ (let _ := _ in _) => cbv zeta
  | |- keeps _ ?m =>
      first [ solve [eauto 2 with keep]
            | let h := head_of m in progress unfold h ]
  end.

Ltac keep := repeat keep_step.

(** ** The current paragraph stays a paragraph of the document *)

Lemma par_ok_alter (F : Element → Element) t s :
  (∀ p, ∃ p', F (EParagraph p) = EParagraph p') →
  par_ok s → par_ok (with_document (alter F t (document s)) s).
Proof.
  intros HF (i & p & Hi & Hp). exists i.
  unfold doc_paragraph in *. cbn [_paragraph document with_document].
  destruct (decide (t = i)) as [->|Hne].
  - rewrite list_lookup_alter_eq.
    destruct (document s !! i) as [[q|tb]|]; simpl in *; try done.
    destruct (HF q) as [p' ->]. by exists p'.
  - rewrite list_lookup_alter_ne by done. by exists p.
Qed.

Lemma par_ok_app els s :
  par_ok s → par_ok (with_document (document s ++ els) s).
Proof.
  intros (i & p & Hi & Hp). exists i, p. split; [done|].
  unfold doc_paragraph in *. cbn [document with_document].
  destruct (document s !! i) as [e|] eqn:He; [|done].
  by rewrite (lookup_app_l_Some _ _ _ _ He).
Qed.

Lemma keeps_par_on_paragraph tg f : keeps par_ok (on_paragraph tg f).
Proof.
  intros s Hs. unfold on_paragraph. cbv [bind gets modify raise].
  destruct tg as [tg|]; [|done].
  destruct (target_paragraph (document s) tg); [|done].
  cbn [snd]. destruct tg as [j|t r c]; unfold map_target;
    apply par_ok_alter; try done; intros q; eauto.
Qed.

Lemma keeps_par_add_table rows cols : keeps par_ok (add_table rows cols).
Proof.
  intros s Hs. unfold add_table. cbv [bind gets modify ret]. cbn [snd].
  by apply par_ok_app.
Qed.

Lemma par_ok_new_paragraph style s : par_ok (new_paragraph style s).2.
Proof.
  unfold new_paragraph.
  cbv [guarded try_except bind modify]. cbn [snd].
  eexists _, _. split; [reflexivity|].
  cbn [document with_document with_paragraph]. apply doc_paragraph_app_new.
Qed.

Lemma par_ok_captured log s : par_ok s → par_ok (with_captured log s).
Proof. by intros (i & p & Hi & Hp); exists i, p. Qed.

Lemma keeps_par_add_paragraph style : keeps par_ok (__add_paragraph style).
Proof.
  intros s Hs. destruct (template_has_style style) eqn:Hst.
  - rewrite (add_paragraph_known style Hst). apply par_ok_new_paragraph.
  - rewrite (add_paragraph_missing style s Hst). cbn [snd].
    unfold stray_paragraph. by apply par_ok_captured, par_ok_app.
Qed.

#[export] Hint Resolve keeps_par_on_paragraph keeps_par_add_table
  keeps_par_add_paragraph : keep.

Lemma keeps_par_add_row t : keeps par_ok (add_row t).
Proof.
  unfold add_row. keep. apply par_ok_alter; [|done]. intros q; eauto.
Qed.

Lemma keeps_par_shade_row t r fill : keeps par_ok (shade_row t r fill).
Proof.
  unfold shade_row. keep. apply par_ok_alter; [|done]. intros q; eauto.
Qed.

Lemma keeps_par_on_cell t r c f : keeps par_ok (on_cell t r c f).
Proof.
  unfold on_cell. keep. apply par_ok_alter; [|done]. intros q; eauto.
Qed.

Lemma keeps_par_set_last_row_text t c txt :
  keeps par_ok (set_last_row_text t c txt).
Proof.
  unfold set_last_row_text. keep.
  all: try (apply par_ok_alter; [|done]; intros q; eauto).
Qed.

#[export] Hint Resolve keeps_par_add_row keeps_par_shade_row
  keeps_par_on_cell keeps_par_set_last_row_text : keep.

Section ParOk.
Variable W : World.

Lemma keeps_par_add_text ref tg : keeps par_ok (add_text W ref tg).
Proof. keep. Qed.

Lemma keeps_par_route ref b : keeps par_ok (route W ref b).
Proof. keep. Qed.

Lemma keeps_par_dispatch i : keeps par_ok (dispatch W i).
Proof. keep. Qed.

Lemma keeps_par_parse_blocks blocks : keeps par_ok (parse_blocks W blocks).
Proof. induction blocks as [|b blocks IH]; simpl; keep. Qed.

Lemma keeps_par_export_article a : keeps par_ok (export_article W a).
Proof. pose proof keeps_par_parse_blocks. keep. Qed.

(** A book never raises once a paragraph is current, and it ends with
    the page break. *)
Lemma export_book_page_break book s :
  par_ok s →
  ∃ s' i p,
    export_book W book s = (Ok tt, s') ∧
    _paragraph s' = Some i ∧
    doc_paragraph (document s') i = Some p ∧
    last (par_runs p) = Some (run_add_break (plain_run "")).
Proof.
  intros Hs. unfold export_book.
  match goal with |- context [bind (guarded ?m) _] =>
    pose proof (guarded_ok m s) as Hok;
    assert (keeps par_ok (guarded m)) as Hk
      by (pose proof keeps_par_export_article; keep);
    specialize (Hk s Hs);
    unfold bind at 1; destruct (guarded m s) as [r s1]
  end.
  simpl in Hok, Hk. subst r.
  destruct Hk as (i & p & Hi & Hp).
  rewrite add_run_empty. unfold put_run. cbv [bind gets on_paragraph modify].
  rewrite Hi. cbn [fmap option_fmap option_map target_paragraph].
  rewrite Hp.
  eexists _, i, _. split; [reflexivity|].
  cbn [_paragraph document with_document]. split; [done|]. split.
  - exact (target_paragraph_map (TPar i) _ _ p Hp).
  - unfold par_add_runs. cbn [par_runs]. apply last_snoc.
Qed.

Lemma export_books_ok books : ∀ s,
  par_ok s →
  (for_each books (export_book W) s).1 = Ok tt ∧
  par_ok (for_each books (export_book W) s).2.
Proof.
  induction books as [|book books IH]; intros s Hs; [done|].
  destruct (export_book_page_break book s Hs)
    as (s' & i & p & Hrun & Hi & Hp & _).
  cbn [for_each]. unfold bind. rewrite Hrun.
  apply IH. by exists i, p.
Qed.

Lemma title_page_par_ok name s : par_ok (_add_title_page name s).2.
Proof.
  unfold _add_title_page, guarded.
  match goal with |- context [try_except _ (bind ?m ?k) ?h] =>
    assert (keeps par_ok (try_except any_exn (k tt) h)) as Hk by keep
  end.
  unfold try_except, bind in *. rewrite add_paragraph_Normal.
  pose proof (par_ok_new_paragraph "Normal" s) as Hp.
  destruct (new_paragraph "Normal" s) as [[[]|e] s1] eqn:Hadd.
  - by apply Hk.
  - unfold new_paragraph in Hadd.
    cbv [guarded try_except modify] in Hadd. simplify_eq.
Qed.

End ParOk.

(** ** Every book of the shelf is exported *)

Section ExportBooks.
Variable W : World.

Lemma export_all_books s :
  (for_each (shelf_books (shelf s)) (export_book W)
     (_add_title_page (shelf_name (shelf s)) s).2).1 = Ok tt ∧
  export W s =
    (Ok tt,
     (for_each (shelf_books (shelf s)) (export_book W)
        (_add_title_page (shelf_name (shelf s)) s).2).2).
Proof.
  pose proof (title_page_par_ok (shelf_name (shelf s)) s) as Hp.
  pose proof (guarded_ok) as Hok. unfold _add_title_page at 1 in Hp.
  unfold export, guarded at 1, try_except, bind, gets.
  unfold _add_title_page in *.
  match goal with |- context [guarded ?m s] =>
    specialize (Hok m s); destruct (guarded m s) as [r s1]
  end.
  cbn [fst snd] in *. subst r.
  destruct (export_books_ok W (shelf_books (shelf s)) s1 Hp) as [H1 _].
  split; [done|].
  destruct (for_each (shelf_books (shelf s)) (export_book W) s1)
    as [r s2]. cbn [fst snd] in *. by subst r.
Qed.

(** ** A snippet that cannot be resolved *)

Lemma for_each_stops {A} (pre : list A) a post (f : A → M unit) s s1 e s2 :
  for_each pre f s = (Ok tt, s1) →
  f a s1 = (Raise e, s2) →
  for_each (pre ++ a :: post) f s = (Raise e, s2).
Proof.
  revert s. induction pre as [|x pre IH]; intros s Hpre Ha.
  - cbv [for_each ret] in Hpre. injection Hpre as Heq. subst s1.
    cbn [app for_each]. unfold bind. by rewrite Ha.
  - cbn [app for_each] in *. unfold bind in *.
    destruct (f x s) as [[[]|e'] s']; [|done]. by apply IH.
Qed.

Lemma parse_blocks_unresolved bs1 snip bs2 src s :
  no_snippets bs1 →
  type snip = "snippet" →
  d_src (data snip) = Some src →
  resolve_snippet W src = None →
  parse_blocks W (bs1 ++ snip :: bs2) s = (Raise ExternalError, s).
Proof.
  intros Hn Hty Hsrc Hres.
  induction Hn as [|b bs1 Hb Hn IH]; cbn [app parse_blocks].
  - rewrite Hty. simpl. cbv [bind lookup_or ret raise].
    by rewrite Hsrc, Hres.
  - apply String.eqb_neq in Hb. rewrite Hb. cbv [bind ret].
    unfold bind in IH. by rewrite IH.
Qed.

Lemma export_article_unresolved a bs1 snip bs2 src s :
  art_blocks a = bs1 ++ snip :: bs2 →
  no_snippets bs1 →
  type snip = "snippet" →
  d_src (data snip) = Some src →
  resolve_snippet W src = None →
  export_article W a s
  = (Raise ExternalError, with_entity_map (art_entity_map a) s).
Proof.
  intros Hblocks Hn Hty Hsrc Hres. unfold export_article.
  cbv [bind modify]. rewrite Hblocks.
  by rewrite (parse_blocks_unresolved _ _ _ src _ Hn Hty Hsrc Hres).
Qed.

Lemma articles_ok articles s :
  Forall (λ a, no_snippets (art_blocks a)) articles →
  for_each articles (export_article W) s
  = (Ok tt, (for_each articles (export_article W) s).2).
Proof.
  intros Hn. destruct (articles_counter W articles s Hn) as [H _].
  destruct (for_each articles (export_article W) s) as [r s'].
  simpl in *. by subst.
Qed.

(** The book of an unresolved snippet: the articles before it are
    rendered, the article itself and the ones after it are not. *)
Lemma export_book_unresolved book pre a post bs1 snip bs2 src s :
  book_articles book = pre ++ a :: post →
  Forall (λ a, no_snippets (art_blocks a)) pre →
  art_blocks a = bs1 ++ snip :: bs2 →
  no_snippets bs1 →
  type snip = "snippet" →
  d_src (data snip) = Some src →
  resolve_snippet W src = None →
  let s1 := (for_each pre (export_article W)
               (reset_book (_add_book_title (book_name book) s).2)).2 in
  export_book W book s
  = add_run "" run_add_break
      (with_captured (captured s1 ++ [ExternalError])
         (with_entity_map (art_entity_map a) s1)).
Proof.
  intros Hbook Hpre Hblocks Hn Hty Hsrc Hres s1.
  unfold export_book, guarded at 1, try_except.
  unfold bind at 1. unfold bind at 1.
  pose proof (guarded_ok) as Hok. unfold _add_book_title in *.
  match goal with |- context [guarded ?m s] =>
    specialize (Hok m s); destruct (guarded m s) as [r s0] eqn:Hg
  end.
  cbn [fst snd] in *. subst r.
  unfold bind at 1. cbv [modify].
  rewrite Hbook.
  rewrite (for_each_stops pre a post (export_article W) (reset_book s0)
             s1 ExternalError (with_entity_map (art_entity_map a) s1)).
  - reflexivity.
  - by apply articles_ok.
  - by eapply export_article_unresolved.
Qed.

End ExportBooks.

(** ** A picture that is inserted *)

Section PictureOk.
Variable W : World.

Lemma set_picture_inserted url label depth alignment border s sl w h :
  url ≠ "" →
  (image_stream W url label border s).1 = Ok sl →
  docx_picture W sl.1 = Ok (w, h) →
  w ≤ images_max_width ∨ h ≠ 0 →
  xml_text sl.2 = true →
  ∃ s',
    _set_picture W url label depth alignment border s = (Ok tt, s') ∧
    captured s' = captured s ∧
    depth_level s' = depth_level s ∧
    table s' = None ∧
    document s' =
      document s ++
        [EParagraph
           {| par_style := "Normal"; par_alignment := Some alignment;
              par_runs :=
                [run_add_picture
                   {| pic_source := sl.1; pic_px := None;
                      pic_width := Some (Z.min w images_max_width) |}
                   (plain_run "")] |}] ++
        (if String.eqb sl.2 "" then []
         else [EParagraph
                 {| par_style := "Caption"; par_alignment := Some 1;
                    par_runs :=
                      [run_set_bold
                         (run_set_color font_color_rgb
                            (plain_run sl.2))] |}]).
Proof.
  intros Hurl Hstream Hpic Hwh Hx. unfold _set_picture.
  assert ((images_max_width <? w) && (h =? 0) = false) as Hdiv.
  { destruct Hwh as [Hw|Hh].
    - by rewrite (proj2 (Z.ltb_ge _ _) Hw).
    - rewrite (proj2 (Z.eqb_neq _ _) Hh). apply andb_false_r. }
  apply String.eqb_neq in Hurl. rewrite Hurl.
  rewrite ?add_paragraph_Normal, ?add_paragraph_Caption, ?add_run_empty,
    ?add_run_newline.
  cbv [guarded try_except bind modify gets any_exn __reset_non_general
       new_paragraph set_alignment on_paragraph put_run add_run ret raise
       on_last_run].
  cbn [_paragraph document with_paragraph with_document fmap option_fmap
       option_map target_paragraph with_cols_num with_table_col_index
       with_table with_depth_level].
  rewrite doc_paragraph_app_new.
  set (s1 := with_document _ _).
  rewrite (image_stream_reads W url label border s s1) by done.
  rewrite Hstream. cbn [fst snd].
  cbn [_paragraph document with_paragraph with_document fmap option_fmap
       option_map target_paragraph s1].
  rewrite map_target_par_new, doc_paragraph_app_new.
  cbn [fst snd]. rewrite Hpic. cbv [lift_res ret]. cbn [fst snd].
  rewrite Hdiv.
  repeat (rewrite ?map_target_par_new, ?doc_paragraph_app_new;
          cbn [_paragraph document with_paragraph with_document fmap
               option_fmap option_map target_paragraph s1 fst snd
               with_depth_level]).
  destruct (String.eqb sl.2 "") eqn:Hlabel.
  - eexists. split; [reflexivity|].
    subst s1. simpl. repeat split; try lia.
  - rewrite Hx.
    repeat (rewrite ?map_target_par_new, ?doc_paragraph_app_new;
            cbn [_paragraph document with_paragraph with_document fmap
                 option_fmap option_map target_paragraph s1 fst snd
                 with_depth_level]).
    eexists. split; [reflexivity|].
    subst s1. simpl. repeat split; try lia. by rewrite <- app_assoc.
Qed.

End PictureOk.

(** ** Dictionaries *)

Lemma wf_shade_table r fill tb : wf_table tb → wf_table (shade_table r fill tb).
Proof.
  intros (Hrows & Hlen & Hcols). unfold wf_table, shade_table. simpl.
  rewrite length_alter. split; [done|]. split; [|done].
  apply Forall_forall. intros row Hin.
  apply list_elem_of_lookup in Hin as [j Hj].
  destruct (decide (r = j)) as [<-|Hne].
  - rewrite list_lookup_alter_eq in Hj.
    destruct (tbl_rows tb !! r) as [row0|] eqn:H0; simplify_eq/=.
    rewrite length_fmap. by eapply (Forall_lookup_1 _ _ _ _ Hlen).
  - rewrite list_lookup_alter_ne in Hj by done.
    by eapply (Forall_lookup_1 _ _ _ _ Hlen).
Qed.

Lemma wf_shade_even tb : wf_table tb → wf_table (shade_even tb).
Proof.
  intros H. unfold shade_even. case_match; [by apply wf_shade_table|done].
Qed.

Lemma shade_even_rows tb :
  length (tbl_rows (shade_even tb)) = length (tbl_rows tb).
Proof.
  unfold shade_even. case_match; [|done]. simpl. apply length_alter.
Qed.

Lemma shade_even_cols tb : tbl_cols (shade_even tb) = tbl_cols tb.
Proof. unfold shade_even. by case_match. Qed.

Lemma bind_assoc {A B C} (m : M A) (k : A → M B) (h : B → M C) s :
  bind (bind m k) h s = bind m (λ a, bind (k a) h) s.
Proof. unfold bind. by destruct (m s) as [[a|e] s']. Qed.

Lemma bind_ext {A B} (m : M A) (k k' : A → M B) s :
  (∀ a s', k a s' = k' a s') → bind m k s = bind m k' s.
Proof. intros H. unfold bind. destruct (m s) as [[a|e] s']; [apply H|done]. Qed.

Section Dict.
Variable W : World.

Lemma _add_dict_split ref s :
  _add_dict W ref s =
  guarded (block <- read_block ref ;; open_dict block ;; place_entry W ref)
    s.
Proof.
  unfold _add_dict, guarded, try_except.
  match goal with |- match ?a with _ => _ end = match ?b with _ => _ end =>
    assert (a = b) as ->; [|done] end.
  apply bind_ext. intros block s1. unfold open_dict.
  do 6 (rewrite bind_assoc; apply bind_ext; intros ? ?).
  reflexivity.
Qed.

Lemma add_text_cells_d ref tg : preserves cells_d (add_text W ref tg).
Proof. frame. Qed.

Lemma add_text_dict ref tg : preserves dict (add_text W ref tg).
Proof. frame. Qed.

Lemma place_entry_spec i s b t tb :
  article_blocks s !! i = Some b →
  dict s = Some t →
  doc_table (document s) t = Some tb →
  wf_table tb →
  tbl_cols tb = 3%nat →
  0 ≤ cells_d s →
  let tb1 := shade_even (placed_table tb (cells_d s)) in
  let r := (length (tbl_rows tb1) - 1)%nat in
  let c := entry_column (placed_column tb (cells_d s)) in
  let runs := rendered_runs W (bool_decide (is_Some (_paragraph s)))
                (entity_map s) b in
  ∃ s', place_entry W (InArticle i) s = (Ok tt, s') ∧
    document s' =
      <[t := ETable (table_map_cell r c (cell_map_par (par_add_runs runs))
                       tb1)]> (document s) ∧
    cells_d s' = Z.of_nat c + 1 ∧
    dict s' = Some t ∧
    article_blocks s' =
      alter (set_inlineStyleRanges (styled_ranges (entity_map s) b).1) i
        (article_blocks s).
Proof.
  intros Hb Ht Hdoc Hwf Hcols Hc tb1 r c runs.
  (* the state after the row was found or appended *)
  set (tb0 := placed_table tb (cells_d s)).
  set (c0 := placed_column tb (cells_d s)).
  assert (wf_table tb0) as Hwf0.
  { unfold tb0, placed_table. case_match; [done|by apply wf_table_add_row]. }
  assert (tbl_cols tb0 = 3%nat) as Hcols0.
  { unfold tb0, placed_table. by case_match. }
  assert (c0 < 3)%nat as Hc0.
  { unfold c0, placed_column. rewrite Hcols. case_match; lia. }
  set (s1 := with_document (<[t := ETable tb0]> (document s))
               (with_cells_d (Z.of_nat c0) s)).
  assert ((match last_row_cell tb (cells_d s) with
           | Some _ => ret tt
           | None => modify (with_cells_d 0) ;; add_row t
           end) s = (Ok tt, s1)) as Hstep1.
  { rewrite (last_row_cell_lookup tb (cells_d s) Hwf Hc).
    pose proof Hwf as (Hrows & Hlen & _).
    unfold s1, tb0, c0, placed_table, placed_column. rewrite Hcols.
    destruct (decide (cells_d s < Z.of_nat 3)) as [Hfit|Hfit].
    - assert (is_Some (table_cell tb (length (tbl_rows tb) - 1)
                         (Z.to_nat (cells_d s)))) as [cl Hcl].
      { apply table_cell_is_Some; [done|lia|lia]. }
      rewrite Hcl. cbv [ret]. f_equal.
      rewrite Z2Nat.id by done.
      assert (<[t := ETable tb]> (document s) = document s) as ->.
      { apply list_insert_id. unfold doc_table in Hdoc.
        by destruct (document s !! t) as [[?|?]|]; simplify_eq. }
      by destruct s.
    - assert (table_cell tb (length (tbl_rows tb) - 1)
                (Z.to_nat (cells_d s)) = None) as ->.
      { apply eq_None_not_Some. rewrite table_cell_is_Some; [lia|done|lia]. }
      cbv [bind modify add_row]. cbn [document with_cells_d].
      rewrite (doc_table_alter _ _ table_add_row tb Hdoc).
      f_equal. }
  assert (doc_table (document s1) t = Some tb0) as Hdoc1.
  { unfold s1. cbn [document with_document].
    by eapply doc_table_insert. }
  set (s2 := with_document (<[t := ETable (shade_even tb0)]> (document s))
               (with_cells_d (Z.of_nat c0) s)).
  assert ((if Z.of_nat (length (tbl_rows tb0) - 1) mod 2 =? 0
           then shade_row t (length (tbl_rows tb0) - 1) "E7E7F9"
           else ret tt) s1 = (Ok tt, s2)) as Hstep2.
  { unfold s2, shade_even.
    destruct (Z.of_nat (length (tbl_rows tb0) - 1) mod 2 =? 0).
    - unfold shade_row, modify. f_equal.
      change (alter _ t (document s1))
        with (alter (λ e, match e with
                          | ETable tb =>
                              ETable (shade_table
                                        (length (tbl_rows tb0) - 1)
                                        "E7E7F9" tb)
                          | EParagraph p => EParagraph p
                          end) t (document s1)).
      rewrite (doc_table_alter _ _ _ tb0 Hdoc1).
      unfold s1. cbn [document with_document].
      rewrite list_insert_insert_eq. by destruct s.
    - unfold ret. f_equal. }
  assert (doc_table (document s2) t = Some (shade_even tb0)) as Hdoc2.
  { unfold s2. cbn [document with_document]. by eapply doc_table_insert. }
  set (s3 := with_cells_d (Z.of_nat (entry_column c0)) s2).
  assert ((if Z.of_nat c0 =? 1 then modify (with_cells_d 2) else ret tt) s2
          = (Ok tt, s3)) as Hstep3.
  { unfold s3, entry_column.
    destruct (Z.of_nat c0 =? 1); [done|].
    unfold ret. f_equal. }
  assert (entry_column c0 < 3)%nat as Hc2.
  { unfold entry_column. case_match; lia. }
  pose proof (wf_shade_even tb0 Hwf0) as Hwf2.
  assert (is_Some (table_cell tb0 (length (tbl_rows tb0) - 1)
                     (entry_column c0))) as [cl0 Hcl0].
  { pose proof Hwf0 as (Hrows & _ & _).
    apply table_cell_is_Some; [done|lia|lia]. }
  assert (is_Some (table_cell (shade_even tb0)
                     (length (tbl_rows tb0) - 1) (entry_column c0)))
    as [cl Hcl].
  { pose proof Hwf0 as (Hrows & _ & _).
    apply table_cell_is_Some; [done| |].
    - rewrite shade_even_rows. lia.
    - rewrite shade_even_cols. lia. }
  assert (place_entry W (InArticle i) s
          = (add_text W (InArticle i)
               (Some (TCell t (length (tbl_rows tb0) - 1) (entry_column c0)))
             ;; modify (λ s, with_cells_d (cells_d s + 1) s)) s3) as ->.
  { unfold place_entry.
    cbv [bind gets the_table lookup_or ret raise].
    rewrite Ht, Hdoc. cbn [fst snd].
    cbv [bind ret] in Hstep1. rewrite Hstep1.
    rewrite Hdoc1. cbn [fst snd].
    cbv [ret] in Hstep2. rewrite Hstep2.
    replace (cells_d s2) with (Z.of_nat c0) by done.
    cbv [ret] in Hstep3. rewrite Hstep3.
    replace (cells_d s3) with (Z.of_nat (entry_column c0)) by done.
    rewrite (last_row_cell_lookup tb0 _ Hwf0) by lia.
    rewrite Nat2Z.id, Hcl0.
    unfold last_row_target, cell_position. cbn [fst snd].
    rewrite (proj2 (Z.leb_le 0 _)) by lia. by rewrite Nat2Z.id. }
  unfold bind, modify. rewrite add_text_run.
  eexists. split; [reflexivity|].
  cbn [cells_d document dict article_blocks with_cells_d].
  subst tb1 r c. fold tb0 c0. rewrite shade_even_rows.
  split; [|split; [|split]].
  - erewrite add_text_document;
      [| done | by eapply target_paragraph_cell].
    replace (_paragraph s3) with (_paragraph s) by done.
    replace (entity_map s3) with (entity_map s) by done.
    erewrite map_target_cell by done.
    unfold s3, s2. cbn [document with_document with_cells_d].
    by rewrite list_insert_insert_eq.
  - by rewrite add_text_cells_d.
  - by rewrite add_text_dict.
  - by rewrite (add_text_blocks W i _ _ b).
Qed.

Lemma open_dict_opens b s j old_block :
  Py.index (keys s) (key b) = Some j →
  Py.getitem (article_blocks s) (Z.of_nat j - 1) = Some old_block →
  drops_dict old_block j = true ∨ dict s = None →
  open_dict b s =
    (Ok tt,
     with_rows_d 0
       (with_cells_d 0
          (with_dict (Some (length (document s)))
             (with_document (document s ++ [ETable (new_table 1 3)]) s)))).
Proof.
  intros Hj Hold Hdrop. unfold open_dict.
  cbv [bind gets lookup_or ret modify add_table]. rewrite Hj, Hold.
  fold (drops_dict old_block j).
  destruct (drops_dict old_block j) eqn:Hd.
  - cbn [dict with_dict document with_document fst snd]. by destruct s.
  - destruct Hdrop as [|Hnone]; [done|]. rewrite Hnone.
    cbn [dict with_dict document with_document fst snd]. by destruct s.
Qed.

Lemma open_dict_keeps b s j old_block t :
  Py.index (keys s) (key b) = Some j →
  Py.getitem (article_blocks s) (Z.of_nat j - 1) = Some old_block →
  drops_dict old_block j = false →
  dict s = Some t →
  open_dict b s = (Ok tt, s).
Proof.
  intros Hj Hold Hdrop Ht. unfold open_dict.
  cbv [bind gets lookup_or ret modify add_table]. rewrite Hj, Hold.
  fold (drops_dict old_block j). rewrite Hdrop. by rewrite Ht.
Qed.

(** The first entry of a dictionary. *)
Lemma add_dict_opens i s b j old_block :
  article_blocks s !! i = Some b →
  Py.index (keys s) (key b) = Some j →
  Py.getitem (article_blocks s) (Z.of_nat j - 1) = Some old_block →
  drops_dict old_block j = true ∨ dict s = None →
  ∃ s',
    _add_dict W (InArticle i) s = (Ok tt, s') ∧
    document s' =
      document s ++
        [ETable
           (table_map_cell 0 0
              (cell_map_par
                 (par_add_runs
                    (rendered_runs W (bool_decide (is_Some (_paragraph s)))
                       (entity_map s) b)))
              (shade_table 0 "E7E7F9" (new_table 1 3)))] ∧
    cells_d s' = 1 ∧
    dict s' = Some (length (document s)).
Proof.
  intros Hb Hj Hold Hdrop.
  set (s1 := with_rows_d 0
               (with_cells_d 0
                  (with_dict (Some (length (document s)))
                     (with_document
                        (document s ++ [ETable (new_table 1 3)]) s)))).
  destruct (place_entry_spec i s1 b (length (document s)) (new_table 1 3))
    as (s' & Hrun & Hdoc & Hcells & Hdict & _); try done.
  { unfold s1. cbn [document with_rows_d with_cells_d with_dict
                    with_document]. apply doc_table_app_new. }
  { by apply wf_new_table. }
  exists s'. rewrite _add_dict_split. unfold guarded, try_except.
  rewrite (bind_ok _ _ s b s) by (by apply read_block_article).
  rewrite (bind_ok _ _ s tt s1)
    by (by eapply open_dict_opens).
  rewrite Hrun. split; [done|].
  split; [|done]. rewrite Hdoc.
  unfold s1. cbn [document with_rows_d with_cells_d with_dict with_document
                  cells_d].
  by rewrite insert_app_new.
Qed.

(** A further entry of an open dictionary. *)
Lemma add_dict_continues i s b j old_block t tb :
  article_blocks s !! i = Some b →
  Py.index (keys s) (key b) = Some j →
  Py.getitem (article_blocks s) (Z.of_nat j - 1) = Some old_block →
  drops_dict old_block j = false →
  dict s = Some t →
  doc_table (document s) t = Some tb →
  wf_table tb →
  tbl_cols tb = 3%nat →
  0 ≤ cells_d s →
  let tb1 := shade_even (placed_table tb (cells_d s)) in
  let r := (length (tbl_rows tb1) - 1)%nat in
  let c := entry_column (placed_column tb (cells_d s)) in
  let runs := rendered_runs W (bool_decide (is_Some (_paragraph s)))
                (entity_map s) b in
  ∃ s',
    _add_dict W (InArticle i) s = (Ok tt, s') ∧
    document s' =
      <[t := ETable (table_map_cell r c (cell_map_par (par_add_runs runs))
                       tb1)]> (document s) ∧
    cells_d s' = Z.of_nat c + 1 ∧
    dict s' = Some t.
Proof.
  intros Hb Hj Hold Hdrop Ht Hdoc Hwf Hcols Hc tb1 r c runs.
  destruct (place_entry_spec i s b t tb Hb Ht Hdoc Hwf Hcols Hc)
    as (s' & Hrun & Hd & Hcells & Hdict & _).
  exists s'. rewrite _add_dict_split. unfold guarded, try_except.
  rewrite (bind_ok _ _ s b s) by (by apply read_block_article).
  rewrite (bind_ok _ _ s tt s) by (by eapply open_dict_keeps).
  by rewrite Hrun.
Qed.

End Dict.

(** * The claims *)

(** ** C1: the width of a table opened for a cell block *)

(** C1 (as amended).  On the legacy path (document version other than
    3), a cell block that makes [_add_table_cell] open a table (the
    document grows) gets a table whose number of columns is a function
    of the block's depth alone: 2 for depth 0, 4 for depth 1, 2 for
    depth 2, 3 for depth 3 and 1 for any other depth. *)
Theorem C1_legacy_table_columns (W : World) (s : Exporter) (i : nat)
    (b : Block) :
  article_blocks s !! i = Some b →
  doc_version s ≠ 3 →
  (length (document s)
   < length (document (_add_table_cell W (InArticle i) s).2))%nat →
  ∃ tb,
    doc_table (document (_add_table_cell W (InArticle i) s).2)
      (length (document s)) = Some tb ∧
    table (_add_table_cell W (InArticle i) s).2
      = Some (length (document s)) ∧
    Z.of_nat (tbl_cols tb) = cols_for_depth (depth b) ∧
    cols_for_depth (depth b) =
      match depth b with
      | 0 => 2 | 1 => 4 | 2 => 2 | 3 => 3 | _ => 1
      end.
Proof.
  intros Hb Hv Hgrow.
  destruct (opened_table_columns W s i b Hb Hv Hgrow)
    as (tb & _ & Htb & Ht & Hcols).
  exists tb. repeat split; try assumption.
  unfold cols_for_depth.
  destruct (depth b) as [|[[]|[]|]|]; reflexivity.
Qed.

Lemma C1_legacy_table_columns_witness :
  ∃ tb,
    doc_table
      (document (_add_table_cell Sample.offline (InArticle 0)
                   (Sample.in_article 2 [Sample.cell_deep])).2) 0
      = Some tb ∧
    table (_add_table_cell Sample.offline (InArticle 0)
             (Sample.in_article 2 [Sample.cell_deep])).2 = Some 0%nat ∧
    Z.of_nat (tbl_cols tb) = cols_for_depth (depth Sample.cell_deep) ∧
    cols_for_depth (depth Sample.cell_deep) = 4.
Proof.
  apply (C1_legacy_table_columns Sample.offline
           (Sample.in_article 2 [Sample.cell_deep]) 0 Sample.cell_deep).
  - reflexivity.
  - vm_compute. discriminate.
  - vm_compute. lia.
Defined.

(** C1, as stated, fails on a document of version 3: the cell block at
    depth 0 that carries [data.table.cols = 5] opens a table of five
    columns, where the depth gives two. *)
Lemma C1_version3_counterexample :
  let s := Sample.in_article 3 [Sample.cell_wide] in
  let s' := (_add_table_cell Sample.offline (InArticle 0) s).2 in
  depth Sample.cell_wide = 0 ∧
  cols_for_depth (depth Sample.cell_wide) = 2 ∧
  document s = [] ∧
  ∃ tb, document s' = [ETable tb] ∧ tbl_cols tb = 5%nat ∧
        table_texts tb = [["W"; ""; ""; ""; ""]].
Proof.
  vm_compute. repeat split. eexists. repeat split.
Qed.

(** ** C2: a run of cell blocks fills one table *)

(** C2 (as amended).  On the legacy path, a run of N consecutive cell
    blocks of one depth whose keys resolve to their own positions,
    which starts the article or follows a block that is not a cell of
    that depth, and which starts with the cell cursor at 0, is
    dispatched without error into exactly one new table: the table has
    the columns of the depth and ceil(N / columns) rows, holds the
    cells row by row, and the positions after the last cell stay empty
    cells. *)
Theorem C2_cell_run_fills_one_table (W : World) (s0 : Exporter) (p : nat)
    (bs : list Block) (d : Z) :
  doc_version s0 ≠ 3 →
  take (length bs) (drop p (article_blocks s0)) = bs →
  Forall (λ b, type b = "cell" ∧ depth b = d) bs →
  (∀ j b, bs !! j = Some b →
          Py.index (keys s0) (key b) = Some (p + j)%nat) →
  bs ≠ [] →
  cells s0 = 0 →
  (p = 0%nat ∨
   ∃ b', article_blocks s0 !! (p - 1)%nat = Some b' ∧
         (type b' ≠ "cell" ∨ depth b' ≠ d)) →
  ∃ s' tb,
    for_each (seq p (length bs)) (dispatch W) s0 = (Ok tt, s') ∧
    document s' = document s0 ++ [ETable tb] ∧
    table s' = Some (length (document s0)) ∧
    Z.of_nat (tbl_cols tb) = cols_for_depth d ∧
    Z.of_nat (length (tbl_rows tb)) =
      (Z.of_nat (length bs) + cols_for_depth d - 1) / cols_for_depth d ∧
    ∀ r c, (r < length (tbl_rows tb))%nat → (c < tbl_cols tb)%nat →
      table_cell tb r c =
        Some (cell_of (run_content W s0
                         <$> bs !! (r * tbl_cols tb + c)%nat)).
Proof.
  intros Hv Hrun Hcells Hkeys Hne Hcur Hprev.
  exact (run_fills_one_table W s0 p bs d Hv Hrun Hcells Hkeys Hne Hcur Hprev).
Qed.

Lemma C2_cell_run_fills_one_table_witness :
  (∃ s' tb,
     for_each (seq 0 3) (dispatch Sample.offline)
       (Sample.in_article 2 [Sample.cell_A; Sample.cell_B; Sample.cell_C])
       = (Ok tt, s') ∧
     document s' = [ETable tb] ∧
     table s' = Some 0%nat ∧
     Z.of_nat (tbl_cols tb) = 2 ∧
     Z.of_nat (length (tbl_rows tb)) = 2 ∧
     ∀ r c, (r < length (tbl_rows tb))%nat → (c < tbl_cols tb)%nat →
       table_cell tb r c =
         Some (cell_of
                 (run_content Sample.offline
                    (Sample.in_article 2
                       [Sample.cell_A; Sample.cell_B; Sample.cell_C])
                    <$> [Sample.cell_A; Sample.cell_B; Sample.cell_C]
                          !! (r * tbl_cols tb + c)%nat))) ∧
  Sample.tables_texts
    (document
       (for_each (seq 0 3) (dispatch Sample.offline)
          (Sample.in_article 2
             [Sample.cell_A; Sample.cell_B; Sample.cell_C])).2)
  = [[["A"; "B"]; ["C"; ""]]].
Proof.
  split; [|vm_compute; reflexivity].
  apply (C2_cell_run_fills_one_table Sample.offline
           (Sample.in_article 2
              [Sample.cell_A; Sample.cell_B; Sample.cell_C])
           0 [Sample.cell_A; Sample.cell_B; Sample.cell_C] 0).
  - vm_compute. discriminate.
  - reflexivity.
  - repeat constructor.
  - intros [|[|[|j]]] b Hb; simpl in Hb; inversion Hb; reflexivity.
  - discriminate.
  - reflexivity.
  - left. reflexivity.
Defined.

(** C2, as stated, fails on a document of version 3: three consecutive
    cell blocks at depth 0, the first of which carries
    [data.table.cols = 3], fill one row of a three-column table, where
    the depth gives two columns and two rows. *)
Lemma C2_version3_counterexample :
  let bs := [Sample.cell_A3; Sample.cell_B; Sample.cell_C] in
  let r := for_each (seq 0 3) (dispatch Sample.offline)
             (Sample.in_article 3 bs) in
  Forall (λ b, type b = "cell" ∧ depth b = 0) bs ∧
  cols_for_depth 0 = 2 ∧
  r.1 = Ok tt ∧
  Sample.tables_texts (document r.2) = [[["A"; "B"; "C"]]].
Proof.
  split; [repeat constructor|]. vm_compute. repeat split.
Qed.

(** ** C3: the depth-normalization pre-pass *)

(** C3 (as amended).  On an article block list with distinct keys, the
    pre-pass leaves a list that is already normalized (no cell block
    at depth 1 is followed, two positions later, by a block at depth
    2) as it is, depths included; whatever such a list, the pre-pass
    leaves a normalized list, and running it a second time changes
    nothing.  The keys have to be distinct: the pre-pass reads the
    depths at the first position of the key of a cell. *)
Theorem C3_prepass_idempotent (blocks : list Block) :
  NoDup (key <$> blocks) →
  (normalized blocks →
   normalize_depths (key <$> blocks) blocks = blocks) ∧
  normalized (normalize_depths (key <$> blocks) blocks) ∧
  normalize_depths (key <$> blocks)
    (normalize_depths (key <$> blocks) blocks)
  = normalize_depths (key <$> blocks) blocks.
Proof.
  intros Hkeys. split; [|split].
  - apply normalize_depths_noop, Hkeys.
  - apply (normalize_loop_normalizes blocks Hkeys); [done|lia|intros; lia].
  - apply normalize_depths_idempotent, Hkeys.
Qed.

Lemma C3_prepass_idempotent_witness :
  normalize_depths (key <$> Sample.flat_cells) Sample.flat_cells
    = Sample.flat_cells ∧
  normalize_depths (key <$> Sample.triple_cells)
    (normalize_depths (key <$> Sample.triple_cells) Sample.triple_cells)
  = normalize_depths (key <$> Sample.triple_cells) Sample.triple_cells.
Proof.
  split.
  - refine (proj1 (C3_prepass_idempotent Sample.flat_cells _) _).
    + apply (bool_decide_unpack _). vm_compute. exact I.
    + intros [|[|[|i]]]; reflexivity.
  - refine (proj2 (proj2 (C3_prepass_idempotent Sample.triple_cells _))).
    apply (bool_decide_unpack _). vm_compute. exact I.
Defined.

(** C3, as stated, fails when a key comes twice: the blocks below
    have no cell with the depth pattern, and the pre-pass sets the
    depth of three of them to 3, because it reads the depths that
    follow the first block of key [a]. *)
Lemma C3_repeated_key_counterexample :
  let blocks := Sample.repeated_key in
  normalized blocks ∧
  key <$> blocks = ["a"; "b"; "c"; "a"; "d"; "e"] ∧
  depth <$> blocks = [0; 0; 2; 1; 0; 0] ∧
  depth <$> normalize_depths (key <$> blocks) blocks = [0; 0; 2; 3; 3; 3].
Proof.
  split; [|vm_compute; repeat split].
  intros i. do 7 (destruct i as [|i]; [reflexivity|]). reflexivity.
Qed.

(** ** C4: the markdown-table reader *)

(** C4 (as amended).  The reader drops the first and the last
    character of the text before it splits it into lines.  For the
    block text [\n|h1|h2|\n|--|--|\n|a|b|\n] (the table of the claim
    after one leading character) the block is rendered without error
    as one table of 2 columns with the header row [h1, h2] and exactly
    one data row [a, b]. *)
Theorem C4_markdown_table (i : nat) (s : Exporter) (b : Block) :
  article_blocks s !! i = Some b →
  text b = newline +:+ md_text →
  _read_markdown_table (text b) = [[("h1", "a"); ("h2", "b")]] ∧
  ∃ tb,
    _add_mdtable (InArticle i) s =
      (Ok tt, with_document (document s ++ [ETable tb]) s) ∧
    tbl_cols tb = 2%nat ∧
    table_texts tb = [["h1"; "h2"]; ["a"; "b"]].
Proof.
  intros Hb Ht. split.
  - rewrite Ht. vm_compute. reflexivity.
  - eexists. split; [exact (add_mdtable_framed i s b Hb Ht)|].
    split; reflexivity.
Qed.

Lemma C4_markdown_table_witness :
  _read_markdown_table (text Sample.md_block_framed)
    = [[("h1", "a"); ("h2", "b")]] ∧
  ∃ tb,
    _add_mdtable (InArticle 0)
      (Sample.in_article 2 [Sample.md_block_framed]) =
      (Ok tt,
       with_document
         (document (Sample.in_article 2 [Sample.md_block_framed])
          ++ [ETable tb])
         (Sample.in_article 2 [Sample.md_block_framed])) ∧
    tbl_cols tb = 2%nat ∧
    table_texts tb = [["h1"; "h2"]; ["a"; "b"]].
Proof.
  apply (C4_markdown_table 0
           (Sample.in_article 2 [Sample.md_block_framed])
           Sample.md_block_framed).
  - reflexivity.
  - reflexivity.
Defined.

(** C4, as stated, fails: for the text [|h1|h2|\n|--|--|\n|a|b|\n]
    the first line reaches the split as [h1|h2|], which leaves the
    header [h2] alone; the table has 1 column, the header row [h2]
    and the data row [a]. *)
Lemma C4_bare_text_counterexample :
  let r := _add_mdtable (InArticle 0)
             (Sample.in_article 2 [Sample.md_block]) in
  text Sample.md_block = md_text ∧
  _read_markdown_table md_text = [[("h2", "a")]] ∧
  r.1 = Ok tt ∧
  ∃ tb, document r.2 = [ETable tb] ∧ tbl_cols tb = 1%nat ∧
        table_texts tb = [["h2"]; ["a"]].
Proof.
  vm_compute. repeat split. eexists. repeat split.
Qed.

(** ** C5: the style level of a list item *)




(** ** C6: the header-step counter *)

(** C6 (as amended).  The header-step counter is reset at the start of
    each book and carried across the articles of the book: after a
    book is exported it counts the header-step blocks of all its
    articles.  A header-step block is dispatched without error, adds 1
    to the counter, and is rendered as a new paragraph that begins
    with the text [n. ] in bold runs, [n] being the counter after the
    increment, followed by the runs of the block's own text. *)
Theorem C6_header_step_counter (W : World) (book : Book) (s0 : Exporter)
    (i : nat) (s : Exporter) (b : Block) :
  Forall (λ a, no_snippets (art_blocks a)) (book_articles book) →
  article_blocks s !! i = Some b →
  type b = "header-step" →
  step_header_elems (reset_book s0) = 0 ∧
  step_header_elems (export_book W book s0).2
    = Z.of_nat (book_header_steps book) ∧
  ∃ s' prefix,
    dispatch W i s = (Ok tt, s') ∧
    step_header_elems s' = step_header_elems s + 1 ∧
    document s' =
      document s ++
        [EParagraph
           (par_add_runs (rendered_runs W true (entity_map s) b)
              (par_add_runs prefix (empty_paragraph "Normal")))] ∧
    Forall (λ r, run_bold r = true) prefix ∧
    par_text (par_add_runs prefix (empty_paragraph "Normal"))
      = Py.str (step_header_elems s + 1) +:+ ". ".
Proof.
  intros Hbook Hb Hty. split; [reflexivity|]. split.
  - by apply export_book_counter.
  - destruct (add_header_step_spec W i s b Hb)
      as (s1 & Hrun & Hn & _ & Hdoc).
    exists (with_depth_level 1 s1),
      (header_step_run
         <$> String.list_ascii_of_string
               (Py.str (step_header_elems s + 1) +:+ ". ")).
    split; [|split; [|split; [|split]]].
    + unfold dispatch.
      cbv [try_except bind read_block gets lookup_or ret modify].
      rewrite Hb. rewrite (route_header_step W _ b s Hty), Hrun.
      reflexivity.
    + exact Hn.
    + exact Hdoc.
    + apply header_step_runs_bold.
    + apply header_step_runs_text.
Qed.

Lemma C6_header_step_counter_witness :
  step_header_elems (reset_book (new_exporter Sample.the_shelf)) = 0 ∧
  step_header_elems
    (export_book Sample.offline Sample.two_articles
       (new_exporter Sample.the_shelf)).2
    = Z.of_nat (book_header_steps Sample.two_articles) ∧
  ∃ s' prefix,
    dispatch Sample.offline 0 (Sample.in_article 2 [Sample.step_x])
      = (Ok tt, s') ∧
    step_header_elems s'
      = step_header_elems (Sample.in_article 2 [Sample.step_x]) + 1 ∧
    document s' =
      document (Sample.in_article 2 [Sample.step_x]) ++
        [EParagraph
           (par_add_runs
              (rendered_runs Sample.offline true
                 (entity_map (Sample.in_article 2 [Sample.step_x]))
                 Sample.step_x)
              (par_add_runs prefix (empty_paragraph "Normal")))] ∧
    Forall (λ r, run_bold r = true) prefix ∧
    par_text (par_add_runs prefix (empty_paragraph "Normal"))
      = Py.str
          (step_header_elems (Sample.in_article 2 [Sample.step_x]) + 1)
        +:+ ". ".
Proof.
  apply (C6_header_step_counter Sample.offline Sample.two_articles
           (new_exporter Sample.the_shelf) 0
           (Sample.in_article 2 [Sample.step_x]) Sample.step_x).
  - repeat constructor; discriminate.
  - reflexivity.
  - reflexivity.
Defined.

(** C6, as stated, fails: the counter is not reset at the start of an
    article.  In a book of two articles with one header-step block
    each, the step of the second article is numbered 2. *)
Lemma C6_second_article_counterexample :
  let r := export_book Sample.offline Sample.two_articles
             (new_exporter Sample.the_shelf) in
  header_steps <$> (art_blocks <$> book_articles Sample.two_articles)
    = [1%nat; 1%nat] ∧
  r.1 = Ok tt ∧
  step_header_elems r.2 = 2 ∧
  Sample.paragraph_texts (document r.2)
    = [newline +:+ "first"; "1. x"; newline +:+ "second"; "2. y"].
Proof.
  vm_compute. repeat split.
Qed.

(** ** C7: a failing attribute copy in the style merge *)

(** C7 (as amended).  One handler surrounds the whole merge.  When the
    copy of an attribute fails on a paragraph, the exception is caught
    there and reported once, and the merge ends: the attributes copied
    before it stay on the paragraph's style font, the remaining
    attributes of that paragraph and the remaining paragraphs are not
    processed, and the call returns nothing. *)
Theorem C7_merge_stops_at_failure (copy_attrs : list string)
    (input_doc : MergeStyles.InputDoc) (based_doc : MergeStyles.BasedDoc)
    (pars1 : list string) (name : string) (pars2 : list string)
    (pre : list string) (attr : string) (post : list string)
    (fonts1 : gmap string MergeStyles.PyObj)
    (based_style font1 : MergeStyles.PyObj) (e : Exn) :
  MergeStyles.paragraphs input_doc = pars1 ++ name :: pars2 →
  MergeStyles.init_copy_attrs copy_attrs = pre ++ attr :: post →
  MergeStyles.merge_paragraphs (MergeStyles.based_fonts based_doc)
    (MergeStyles.init_copy_attrs copy_attrs) pars1
    (MergeStyles.style_fonts input_doc) = (fonts1, None) →
  MergeStyles.based_fonts based_doc !! name = Some based_style →
  MergeStyles.copy_attrs_loop based_style
    (MergeStyles.style_font fonts1 name) pre = (font1, None) →
  MergeStyles.copy_attr based_style font1 attr = Raise e →
  MergeStyles.__merge copy_attrs input_doc based_doc =
    {| MergeStyles.out_doc :=
         {| MergeStyles.paragraphs := MergeStyles.paragraphs input_doc;
            MergeStyles.style_fonts := <[name := font1]> fonts1 |};
       MergeStyles.out_returned := None;
       MergeStyles.out_captured := [e] |}.
Proof.
  intros Hpars Hattrs Hbefore Hbased Hpre Hfail.
  unfold MergeStyles.__merge. rewrite Hpars.
  rewrite (MergeFacts.merge_paragraphs_stops _ _ pars1 name pars2 _ fonts1
             based_style font1 e Hbefore Hbased).
  - reflexivity.
  - rewrite Hattrs.
    exact (MergeFacts.copy_attrs_loop_stops _ _ pre attr post font1 e
             Hpre Hfail).
Qed.

Lemma C7_merge_stops_at_failure_witness :
  MergeStyles.__merge Sample.three_attrs Sample.produced Sample.template =
    {| MergeStyles.out_doc :=
         {| MergeStyles.paragraphs := ["Normal"; "Title"];
            MergeStyles.style_fonts :=
              <["Normal" := MergeStyles.PyObject
                              [("italic", MergeStyles.PyValue "True")]]>
                ∅ |};
       MergeStyles.out_returned := None;
       MergeStyles.out_captured := [AttributeError] |}.
Proof.
  apply (C7_merge_stops_at_failure Sample.three_attrs Sample.produced
           Sample.template [] "Normal" ["Title"] ["italic"] "math"
           ["size"] ∅ Sample.template_font
           (MergeStyles.PyObject [("italic", MergeStyles.PyValue "True")])
           AttributeError).
  - reflexivity.
  - reflexivity.
  - reflexivity.
  - vm_compute. reflexivity.
  - vm_compute. reflexivity.
  - vm_compute. reflexivity.
Defined.

(** C7, as stated, fails: with the attributes [italic], [math] and
    [size] and a template font without [math], skipping the failing
    attribute alone would copy [size] and go on to the paragraph
    [Title]; the merge copies [italic] to the font of [Normal] and
    ends, with nothing returned. *)
Lemma C7_skipping_counterexample :
  let out := MergeStyles.__merge Sample.three_attrs Sample.produced
               Sample.template in
  let skipping :=
    MergeSpec.merge_paragraphs_skipping
      (MergeStyles.based_fonts Sample.template) Sample.three_attrs
      (MergeStyles.paragraphs Sample.produced)
      (MergeStyles.style_fonts Sample.produced) in
  MergeStyles.out_returned out = None ∧
  MergeStyles.out_captured out = [AttributeError] ∧
  MergeStyles.style_fonts (MergeStyles.out_doc out) !! "Normal"
    = Some (MergeStyles.PyObject
              [("italic", MergeStyles.PyValue "True")]) ∧
  MergeStyles.style_fonts (MergeStyles.out_doc out) !! "Title" = None ∧
  skipping !! "Normal"
    = Some (MergeStyles.PyObject
              [("italic", MergeStyles.PyValue "True");
               ("size", MergeStyles.PyValue "12")]) ∧
  skipping !! "Title"
    = Some (MergeStyles.PyObject
              [("italic", MergeStyles.PyValue "True");
               ("size", MergeStyles.PyValue "12")]).
Proof.
  vm_compute. repeat split.
Qed.

(** ** C8: an unrecognized image in picture insertion *)

(** C8 (as amended).  When the document sink does not recognize the
    image of a fetched resource, the exception is re-raised by the
    inner handler of [_set_picture] and caught by the handler that
    surrounds the body of the same method: it is reported once and
    the rest of the method is skipped.  The document has the
    paragraph and the empty run made for the picture and nothing
    more, neither picture nor caption; the depth level is left raised
    by the depth of the call; the method returns normally, and what
    the caller does next runs from that state. *)
Theorem C8_unrecognized_image_caught (W : World) (url label : string)
    (depth alignment : Z) (border : bool) (s : Exporter)
    (sl : string * string) :
  url ≠ "" →
  (image_stream W url label border s).1 = Ok sl →
  docx_picture W sl.1 = Raise UnrecognizedImageError →
  ∃ s',
    _set_picture W url label depth alignment border s = (Ok tt, s') ∧
    captured s' = captured s ++ [UnrecognizedImageError] ∧
    document s' =
      document s ++
        [EParagraph
           {| par_style := "Normal"; par_alignment := Some alignment;
              par_runs := [plain_run ""] |}] ∧
    depth_level s' = depth_level s + depth ∧
    ∀ rest : M unit,
      (_set_picture W url label depth alignment border ;; rest) s
      = rest s'.
Proof.
  intros Hurl Hstream Hdocx.
  pose proof (set_picture_ok W url label depth alignment border s) as Hok.
  pose proof (set_picture_unrecognized W url label depth alignment border
                s sl Hurl Hstream Hdocx) as (Hcap & Hdoc & Hdepth).
  destruct (_set_picture W url label depth alignment border s)
    as [r s'] eqn:Hrun.
  simpl in Hok, Hcap, Hdoc, Hdepth. subst r.
  exists s'. split; [reflexivity|]. split; [exact Hcap|].
  split; [exact Hdoc|]. split; [exact Hdepth|].
  intros rest. unfold bind. rewrite Hrun. reflexivity.
Qed.

Lemma C8_unrecognized_image_caught_witness :
  ∃ s',
    _set_picture Sample.undecodable "http://host/picture.webp" "caption"
      2 1 true (Sample.in_article 2 []) = (Ok tt, s') ∧
    captured s'
      = captured (Sample.in_article 2 []) ++ [UnrecognizedImageError] ∧
    document s' =
      document (Sample.in_article 2 []) ++
        [EParagraph
           {| par_style := "Normal"; par_alignment := Some 1;
              par_runs := [plain_run ""] |}] ∧
    depth_level s' = depth_level (Sample.in_article 2 []) + 2 ∧
    ∀ rest : M unit,
      (_set_picture Sample.undecodable "http://host/picture.webp"
         "caption" 2 1 true ;; rest) (Sample.in_article 2 [])
      = rest s'.
Proof.
  apply (C8_unrecognized_image_caught Sample.undecodable
           "http://host/picture.webp" "caption" 2 1 true
           (Sample.in_article 2 []) ("RIFF", "caption")).
  - discriminate.
  - vm_compute. reflexivity.
  - reflexivity.
Defined.

(** C8, as stated, fails: with an image the sink does not recognize,
    [_set_picture] returns normally and the error is in the log; a
    figure block with such an image does not keep the block after it
    from being rendered. *)
Lemma C8_no_propagation_counterexample :
  let s := Sample.in_article 2 [Sample.figure_block; Sample.text_after] in
  let r := for_each [0%nat; 1%nat] (dispatch Sample.undecodable) s in
  docx_picture Sample.undecodable "RIFF" = Raise UnrecognizedImageError ∧
  (_set_picture Sample.undecodable "http://host/picture.webp" "caption"
     0 1 true s).1 = Ok tt ∧
  captured
    (_set_picture Sample.undecodable "http://host/picture.webp" "caption"
       0 1 true s).2 = [UnrecognizedImageError] ∧
  r.1 = Ok tt ∧
  captured r.2 = [UnrecognizedImageError] ∧
  Sample.paragraph_texts (document r.2) = ["after"].
Proof.
  vm_compute. repeat split.
Qed.

(** ** C9: [add_text] mutates the block it renders *)

(** C9 (as amended).  [add_text] writes to the [inlineStyleRanges]
    list of the block itself.  When every LINK entity the entity
    ranges of the block refer to has an [href], one call leaves there
    the former entries, one new entry per entity range of a LINK or
    IMG entity (with the offset and the length of the range) and, for
    a header-step block, the entry of style [header-step] at offset 0
    with the length of the text, in ascending order of offset; a
    second call on the same block appends the same entries once more,
    sorts again and, for a text the sink takes, renders the text with
    the duplicated list.  When a LINK entity has no [href], the call
    stops there with [KeyError] reported: the entries appended for
    the ranges before it stay at the end of the list, the list is not
    sorted, no header-step entry is appended and nothing is
    rendered. *)
Theorem C9_add_text_mutates_block (W : World) (s : Exporter) (i : nat)
    (b : Block) (tg : Target) (p : Paragraph) :
  article_blocks s !! i = Some b →
  target_paragraph (document s) tg = Some p →
  let em := entity_map s in
  let s1 := (add_text W (InArticle i) (Some tg) s).2 in
  let s2 := (add_text W (InArticle i) (Some tg) s1).2 in
  (Forall (link_ok em) (entityRanges b) →
   let added :=
     omap (entity_style em) (entityRanges b) ++
     (if String.eqb (type b) "header-step"
      then [{| sr_style := StyleName "header-step"; sr_offset := 0;
               sr_length := Z.of_nat (String.length (text b)) |}]
      else []) in
   ∃ l1 l2,
     article_blocks s1
       = alter (set_inlineStyleRanges l1) i (article_blocks s) ∧
     article_blocks s2
       = alter (set_inlineStyleRanges l2) i (article_blocks s) ∧
     ascending l1 ∧ l1 ≡ₚ inlineStyleRanges b ++ added ∧
     ascending l2 ∧ l2 ≡ₚ inlineStyleRanges b ++ added ++ added ∧
     (xml_text (text b) = true →
      let has_paragraph := bool_decide (is_Some (_paragraph s)) in
      document s1 =
        map_target tg
          (par_add_runs (build_runs W has_paragraph (text b) l1))
          (document s) ∧
      document s2 =
        map_target tg
          (par_add_runs (build_runs W has_paragraph (text b) l2))
          (document s1))) ∧
  (∀ pre er post e,
     entityRanges b = pre ++ er :: post →
     Forall (link_ok em) pre →
     em !! er_key er = Some e →
     ent_type e = Some "LINK" →
     ent_href e = None →
     article_blocks s1
       = alter (set_inlineStyleRanges
                  (inlineStyleRanges b ++ omap (entity_style em) pre))
           i (article_blocks s) ∧
     document s1 = document s ∧
     captured s1 = captured s ++ [KeyError]).
Proof.
  intros Hb Htg em s1 s2. subst em. split.
  - intros Hlinks added.
    change added with (added_ranges (entity_map s) b).
    set (em := entity_map s) in *.
    set (l1 := bubble_sort (inlineStyleRanges b ++ added_ranges em b)).
    set (l2 := bubble_sort (l1 ++ added_ranges em b)).
    exists l1, l2.
    assert (article_blocks s1
            = alter (set_inlineStyleRanges l1) i (article_blocks s)) as Hb1.
    { unfold s1. rewrite (add_text_blocks W i _ s b Hb).
      fold em. by rewrite (styled_ranges_ok _ _ Hlinks). }
    assert (article_blocks s1 !! i = Some (set_inlineStyleRanges l1 b))
      as Hi1.
    { rewrite Hb1, list_lookup_alter_eq, Hb. done. }
    assert (entity_map s1 = em) as Hem by apply add_text_entity_map.
    assert (styled_ranges (entity_map s1) (set_inlineStyleRanges l1 b)
            = (l2, None)) as Hs2.
    { rewrite Hem. rewrite styled_ranges_ok by done. done. }
    assert (l1 ≡ₚ inlineStyleRanges b ++ added_ranges em b) as Hl1
      by apply bubble_sort_perm.
    split; [done|]. split; [|split; [|split; [done|split; [|split]]]].
    + unfold s2. rewrite (add_text_blocks W i _ s1 _ Hi1), Hs2. simpl.
      rewrite Hb1, list_alter_alter_eq. apply list_alter_ext; [|done].
      by intros x _.
    + apply bubble_sort_ascending.
    + apply bubble_sort_ascending.
    + unfold l2. rewrite bubble_sort_perm, Hl1.
      by rewrite <- (assoc_L (++)).
    + intros Hxml hp.
      destruct (add_text_twice W s i b tg p Hb Hlinks Hxml Htg)
        as (_ & _ & Hd1 & Hd2).
      split; [exact Hd1 | exact Hd2].
  - intros pre er post e Hers Hpre He Hty Hhref.
    unfold s1, add_text. mrun. rewrite Hb.
    unfold styled_ranges. rewrite Hers.
    rewrite (fold_entities_stops _ pre er post _ e Hpre He Hty Hhref).
    simpl. repeat split.
Qed.

Lemma C9_add_text_mutates_block_witness :
  let s := Sample.with_link
             (Sample.in_paragraph 2 [Sample.late_bold_step]) in
  let b := Sample.late_bold_step in
  let s1 := (add_text Sample.offline (InArticle 0) (Some (TPar 0)) s).2 in
  let s2 := (add_text Sample.offline (InArticle 0) (Some (TPar 0)) s1).2 in
  let added :=
    [{| sr_style := StyleLink "http://h"; sr_offset := 0; sr_length := 2 |};
     {| sr_style := StyleName "header-step"; sr_offset := 0;
        sr_length := 2 |}] in
  (∃ l1 l2,
     article_blocks s1
       = alter (set_inlineStyleRanges l1) 0%nat (article_blocks s) ∧
     article_blocks s2
       = alter (set_inlineStyleRanges l2) 0%nat (article_blocks s) ∧
     ascending l1 ∧ l1 ≡ₚ inlineStyleRanges b ++ added ∧
     ascending l2 ∧ l2 ≡ₚ inlineStyleRanges b ++ added ++ added ∧
     (xml_text (text b) = true →
      document s1 =
        map_target (TPar 0)
          (par_add_runs (build_runs Sample.offline true (text b) l1))
          (document s) ∧
      document s2 =
        map_target (TPar 0)
          (par_add_runs (build_runs Sample.offline true (text b) l2))
          (document s1))) ∧
  inlineStyleRanges b
  = [{| sr_style := StyleName "BOLD"; sr_offset := 1; sr_length := 1 |}] ∧
  inlineStyleRanges <$> article_blocks s1
  = [added ++ inlineStyleRanges b].
Proof.
  split; [|split; [reflexivity|vm_compute; reflexivity]].
  refine (proj1 (C9_add_text_mutates_block Sample.offline
                   (Sample.with_link
                      (Sample.in_paragraph 2 [Sample.late_bold_step]))
                   0 Sample.late_bold_step (TPar 0)
                   (empty_paragraph "Normal") _ _) _).
  - reflexivity.
  - reflexivity.
  - repeat constructor. intros e He _.
    vm_compute in He. inversion He. eexists. reflexivity.
Defined.

(** C9, as stated, fails for a header-step block whose entity range
    refers to a LINK entity without [href]: no header-step entry is
    appended to its list, a second call duplicates nothing, and
    neither call renders the text. *)
Lemma C9_link_without_href_counterexample :
  let s := Sample.without_href
             (Sample.in_paragraph 2 [Sample.late_bold_step]) in
  let s1 := (add_text Sample.offline (InArticle 0) None s).2 in
  let s2 := (add_text Sample.offline (InArticle 0) None s1).2 in
  type Sample.late_bold_step = "header-step" ∧
  inlineStyleRanges <$> article_blocks s1
  = [inlineStyleRanges Sample.late_bold_step] ∧
  inlineStyleRanges <$> article_blocks s2
  = [inlineStyleRanges Sample.late_bold_step] ∧
  document s2 = document s ∧
  captured s2 = [KeyError; KeyError].
Proof.
  vm_compute. repeat split.
Qed.

(** ** C10: the cell cursor when a legacy table is opened *)

(** C10.  When [_add_table_cell] opens a table on the legacy path, the
    cell cursor is not reset: the first cell is written in the column
    the cursor designates, in the first row when the cursor is within
    the row, and in column 0 of an appended row when it is not (the
    overflow reset); the cursor is then one past that column.  The
    cursor is set to 0 by the reset at the start of a book and when a
    table is opened for a version-3 block; the handlers of the other
    block types and the article head leave it as it is. *)
Theorem C10_legacy_open_keeps_cursor (W : World) (i : nat) (s : Exporter)
    (b : Block) (j : nat) (old_block : Block) :
  article_blocks s !! i = Some b →
  doc_version s ≠ 3 →
  Py.index (keys s) (key b) = Some j →
  Py.getitem (article_blocks s) (Z.of_nat j - 1) = Some old_block →
  drops_table old_block b j = true ∨ table s = None →
  0 ≤ cells s →
  let cols := cols_for_depth (depth b) in
  let tb := placed_table (new_table 1 cols) (cells s) in
  let c := if decide (cells s < cols) then Z.to_nat (cells s) else O in
  let runs := rendered_runs W (bool_decide (is_Some (_paragraph s)))
                (entity_map s) b in
  (∃ s',
     _add_table_cell W (InArticle i) s = (Ok tt, s') ∧
     document s' =
       document s ++
         [ETable (table_map_cell (length (tbl_rows tb) - 1) c
                    (cell_map_par (par_add_runs runs)) tb)] ∧
     table s' = Some (length (document s)) ∧
     cells s' = Z.of_nat c + 1) ∧
  cells (reset_book s) = 0 ∧
  (∀ s3 i3 b3 cols3,
     article_blocks s3 !! i3 = Some b3 →
     doc_version s3 = 3 →
     d_table (data b3) = Some cols3 →
     0 < cols3 →
     cells (_add_table_cell W (InArticle i3) s3).2 = 1) ∧
  (∀ ref b', type b' ≠ "cell" → preserves cells (route W ref b')) ∧
  (∀ a, preserves cells (_set_article W a)).
Proof.
  intros Hb Hv Hj Hold Hdrop Hcur cols tb c runs.
  split; [|split; [reflexivity|split; [|split]]].
  - destruct (add_table_cell_opens W i s b j old_block Hb Hv Hj Hold Hdrop
                Hcur) as (s' & Hrun & Hdoc & Hcells & Htab & _).
    rewrite placed_column_new in Hdoc, Hcells by done.
    exists s'. repeat split; assumption.
  - intros s3 i3 b3 cols3 Hb3 Hv3 Hd Hpos.
    destruct (add_table_cell_v3_opens W i3 s3 b3 cols3 Hb3 Hv3 Hd Hpos)
      as (s' & Hrun & _ & Hcells & _).
    by rewrite Hrun.
  - apply route_cells.
  - apply set_article_cells.
Qed.

Lemma C10_legacy_open_keeps_cursor_witness :
  (let s := with_cells 1 (Sample.in_article 2 [Sample.cell_A]) in
   let b := Sample.cell_A in
   let cols := cols_for_depth (depth b) in
   let tb := placed_table (new_table 1 cols) (cells s) in
   let c := if decide (cells s < cols) then Z.to_nat (cells s) else O in
   let runs := rendered_runs Sample.offline
                 (bool_decide (is_Some (_paragraph s))) (entity_map s) b in
   (∃ s',
      _add_table_cell Sample.offline (InArticle 0) s = (Ok tt, s') ∧
      document s' =
        document s ++
          [ETable (table_map_cell (length (tbl_rows tb) - 1) c
                     (cell_map_par (par_add_runs runs)) tb)] ∧
      table s' = Some (length (document s)) ∧
      cells s' = Z.of_nat c + 1) ∧
   cells (reset_book s) = 0 ∧
   (∀ s3 i3 b3 cols3,
      article_blocks s3 !! i3 = Some b3 →
      doc_version s3 = 3 →
      d_table (data b3) = Some cols3 →
      0 < cols3 →
      cells (_add_table_cell Sample.offline (InArticle i3) s3).2 = 1) ∧
   (∀ ref b', type b' ≠ "cell" →
              preserves cells (route Sample.offline ref b')) ∧
   (∀ a, preserves cells (_set_article Sample.offline a))) ∧
  Sample.tables_texts
    (document
       (_add_table_cell Sample.offline (InArticle 0)
          (with_cells 1 (Sample.in_article 2 [Sample.cell_A]))).2)
  = [[[""; "A"]]].
Proof.
  split; [|vm_compute; reflexivity].
  apply (C10_legacy_open_keeps_cursor Sample.offline 0
           (with_cells 1 (Sample.in_article 2 [Sample.cell_A]))
           Sample.cell_A 0 Sample.cell_A).
  - reflexivity.
  - vm_compute. discriminate.
  - reflexivity.
  - reflexivity.
  - left. reflexivity.
  - simpl. lia.
Defined.

(** * Further properties of the exporter *)

(** ** The text-run builder *)

(** X1 (sorting).  The bubble loops of [add_text] sort: whatever the
    list of style ranges, the list they leave has its offsets in
    ascending order and holds the same entries. *)
Theorem X1_bubble_sort_sorts (l : list StyleRange) :
  ascending (bubble_sort l) ∧ bubble_sort l ≡ₚ l.
Proof. split; [apply bubble_sort_ascending|apply bubble_sort_perm]. Qed.

(** X2 (text).  For a block whose text is plain (no control character
    but tab and line feed), whose entity ranges refer to no LINK and
    no IMG entity and whose inline style ranges hold plain style
    tokens (no link, no image), [add_text] reports nothing and appends
    to the paragraph it writes to one run per character of the
    block's text, and the runs spell that text: styling never loses
    or alters a character. *)
Theorem X2_add_text_spells_text (W : World) (s : Exporter) (i : nat)
    (b : Block) (tg : option Target) (t : Target) (p : Paragraph) :
  article_blocks s !! i = Some b →
  plain_text (text b) = true →
  Forall (plain_entity (entity_map s)) (entityRanges b) →
  Forall (λ sr, plain_style (sr_style sr) = true) (inlineStyleRanges b) →
  effective_target tg s = Some t →
  target_paragraph (document s) t = Some p →
  ∃ rs,
    target_paragraph (document (add_text W (InArticle i) tg s).2) t
      = Some (par_add_runs rs p) ∧
    captured (add_text W (InArticle i) tg s).2 = captured s ∧
    length rs = String.length (text b) ∧
    runs_text rs = text b ∧
    par_text (par_add_runs rs p) = par_text p +:+ text b.
Proof.
  intros Hb Hplain Hers Hsrs Ht Hp.
  pose proof (plain_text_xml _ Hplain) as Hxml.
  assert (Forall (not_link_entity (entity_map s)) (entityRanges b)) as Hnl.
  { eapply Forall_impl; [exact Hers|apply plain_entity_not_link]. }
  assert (Forall (λ sr, is_link (sr_style sr) = false)
            (inlineStyleRanges b)) as Hst.
  { eapply Forall_impl; [exact Hsrs|].
    intros sr. apply plain_style_not_link. }
  destruct (rendered_runs_text W (bool_decide (is_Some (_paragraph s)))
              (entity_map s) b Hxml Hnl Hst) as [Htext Hlen].
  eexists. split; [|split; [|split; [exact Hlen|split; [exact Htext|]]]].
  - apply add_text_target; [by apply read_block_article|done|done].
  - apply (add_text_quiet W (InArticle i) tg s b t p);
      [by apply read_block_article| |done|done|done].
    eapply Forall_impl; [exact Hnl|apply not_link_entity_ok].
  - by rewrite par_text_add_runs, Htext.
Qed.

Lemma X2_add_text_spells_text_witness :
  ∃ rs,
    target_paragraph
      (document
         (add_text Sample.offline (InArticle 0) None
            (Sample.in_paragraph 2 [More.bold_h])).2) (TPar 0)
      = Some (par_add_runs rs (empty_paragraph "Normal")) ∧
    captured
      (add_text Sample.offline (InArticle 0) None
         (Sample.in_paragraph 2 [More.bold_h])).2
      = captured (Sample.in_paragraph 2 [More.bold_h]) ∧
    length rs = String.length (text More.bold_h) ∧
    runs_text rs = text More.bold_h ∧
    par_text (par_add_runs rs (empty_paragraph "Normal"))
      = par_text (empty_paragraph "Normal") +:+ text More.bold_h.
Proof.
  apply (X2_add_text_spells_text Sample.offline
           (Sample.in_paragraph 2 [More.bold_h]) 0 More.bold_h None
           (TPar 0) (empty_paragraph "Normal")).
  - reflexivity.
  - reflexivity.
  - constructor.
  - repeat constructor.
  - reflexivity.
  - reflexivity.
Defined.

(** X3 (locality).  For a block whose text is plain and whose LINK
    entities all have an [href], a character of the text that no
    style range of the block covers (the entries the block has and
    the ones [add_text] appends) is rendered as the default run of
    that character: font [Inter], 12 pt, colour (64, 64, 64), no other
    styling.  Ranges that reach outside the text are harmless. *)
Theorem X3_add_text_unstyled_character (W : World) (s : Exporter) (i : nat)
    (b : Block) (tg : option Target) (t : Target) (p : Paragraph)
    (k : nat) (c : ascii) :
  article_blocks s !! i = Some b →
  plain_text (text b) = true →
  Forall (link_ok (entity_map s)) (entityRanges b) →
  effective_target tg s = Some t →
  target_paragraph (document s) t = Some p →
  String.list_ascii_of_string (text b) !! k = Some c →
  Forall (λ sr, ¬ (sr_offset sr ≤ Z.of_nat k
                   < sr_offset sr + sr_length sr))
    (inlineStyleRanges b ++ added_ranges (entity_map s) b) →
  ∃ rs,
    target_paragraph (document (add_text W (InArticle i) tg s).2) t
      = Some (par_add_runs rs p) ∧
    length rs = String.length (text b) ∧
    rs !! k =
      Some {| run_text := String c EmptyString; run_bold := false;
              run_italic := false; run_underline := false;
              run_size := Some 24; run_font := Some "Inter";
              run_color := Some (64, 64, 64); run_shd := [];
              run_link := None; run_pics := [];
              run_page_break := false |}.
Proof.
  intros Hb Hplain Hok Ht Hp Hc Hout.
  pose proof (plain_text_xml _ Hplain) as Hxml.
  eexists. split; [|split].
  - apply add_text_target; [by apply read_block_article|done|done].
  - unfold rendered_runs. rewrite styled_ranges_ok by done.
    rewrite Hxml. apply build_runs_length.
  - rewrite (rendered_runs_outside W _ _ b k Hxml Hok Hout), Hc.
    reflexivity.
Qed.

Lemma X3_add_text_unstyled_character_witness :
  ∃ rs,
    target_paragraph
      (document
         (add_text Sample.offline (InArticle 0) None
            (Sample.in_paragraph 2 [More.bold_h])).2) (TPar 0)
      = Some (par_add_runs rs (empty_paragraph "Normal")) ∧
    length rs = String.length (text More.bold_h) ∧
    rs !! 1%nat =
      Some {| run_text := "i"; run_bold := false;
              run_italic := false; run_underline := false;
              run_size := Some 24; run_font := Some "Inter";
              run_color := Some (64, 64, 64); run_shd := [];
              run_link := None; run_pics := [];
              run_page_break := false |}.
Proof.
  apply (X3_add_text_unstyled_character Sample.offline
           (Sample.in_paragraph 2 [More.bold_h]) 0 More.bold_h None
           (TPar 0) (empty_paragraph "Normal") 1 "i"%char).
  - reflexivity.
  - reflexivity.
  - constructor.
  - reflexivity.
  - reflexivity.
  - reflexivity.
  - repeat constructor. simpl. lia.
Defined.

(** X4 (a LINK entity without href).  When an entity range of the block
    refers to a LINK entity whose data has no [href], [add_text]
    returns normally with [KeyError] in the log and renders nothing of
    the block; the entries appended for the entity ranges before it
    stay in the block's [inlineStyleRanges], unsorted. *)
Theorem X4_add_text_link_without_href (W : World) (s : Exporter) (i : nat)
    (b : Block) (tg : option Target) (pre : list EntityRange)
    (er : EntityRange) (post : list EntityRange) (e : Entity) :
  article_blocks s !! i = Some b →
  entityRanges b = pre ++ er :: post →
  Forall (link_ok (entity_map s)) pre →
  entity_map s !! er_key er = Some e →
  ent_type e = Some "LINK" →
  ent_href e = None →
  ∃ s',
    add_text W (InArticle i) tg s = (Ok tt, s') ∧
    document s' = document s ∧
    captured s' = captured s ++ [KeyError] ∧
    article_blocks s' =
      alter (set_inlineStyleRanges
               (inlineStyleRanges b
                ++ omap (entity_style (entity_map s)) pre))
        i (article_blocks s).
Proof.
  intros Hb Hers Hpre He Hty Hhref.
  eexists. unfold add_text. mrun. rewrite Hb.
  unfold styled_ranges. rewrite Hers.
  rewrite (fold_entities_stops _ pre er post _ e Hpre He Hty Hhref).
  simpl. repeat split.
Qed.

Lemma X4_add_text_link_without_href_witness :
  ∃ s',
    add_text Sample.offline (InArticle 0) None
      (with_entity_map {["9" := More.broken_link]}
         (Sample.in_paragraph 2 [More.broken_block])) = (Ok tt, s') ∧
    document s' = [EParagraph (empty_paragraph "Normal")] ∧
    captured s' = [KeyError] ∧
    article_blocks s' =
      alter (set_inlineStyleRanges []) 0%nat [More.broken_block].
Proof.
  apply (X4_add_text_link_without_href Sample.offline
           (with_entity_map {["9" := More.broken_link]}
              (Sample.in_paragraph 2 [More.broken_block]))
           0 More.broken_block None []
           {| er_key := "9"; er_offset := 0; er_length := 3 |} []
           More.broken_link).
  - reflexivity.
  - reflexivity.
  - constructor.
  - vm_compute. reflexivity.
  - reflexivity.
  - reflexivity.
Defined.

(** ** Cells of a version-3 document *)

(** X5 (version 3, no table).  In a document of version 3, a cell block
    that carries no table data while no table is open renders nothing:
    [_add_table_cell] returns normally, the document and the cursor
    are unchanged and [AttributeError] is added to the log. *)
Theorem X5_v3_cell_without_table (W : World) (s : Exporter) (i : nat)
    (b : Block) :
  article_blocks s !! i = Some b →
  doc_version s = 3 →
  d_table (data b) = None →
  table s = None →
  _add_table_cell W (InArticle i) s
  = (Ok tt, with_captured (captured s ++ [AttributeError]) s).
Proof.
  intros Hb Hv Hd Ht. rewrite _add_table_cell_split.
  unfold guarded, try_except.
  rewrite (bind_ok _ _ s b s) by (by apply read_block_article).
  rewrite (bind_ok _ _ s 3 s) by (unfold gets; by rewrite Hv).
  rewrite (bind_ok _ _ s tt s) by (by apply open_table_v3_none).
  unfold place_cell. cbv [bind gets the_table raise]. rewrite Ht.
  reflexivity.
Qed.

Lemma X5_v3_cell_without_table_witness :
  _add_table_cell Sample.offline (InArticle 0)
    (Sample.in_article 3 [Sample.cell_B])
  = (Ok tt,
     with_captured
       (captured (Sample.in_article 3 [Sample.cell_B]) ++ [AttributeError])
       (Sample.in_article 3 [Sample.cell_B])).
Proof.
  apply (X5_v3_cell_without_table Sample.offline
           (Sample.in_article 3 [Sample.cell_B]) 0 Sample.cell_B);
    reflexivity.
Defined.

(** X6 (version 3, open table).  In a document of version 3, a cell
    block that carries no table data is written to the table that is
    open, whatever the block before it is: at the cursor in the last
    row, or at the start of an appended row when the cursor is past
    the row. *)
Theorem X6_v3_cell_joins_open_table (W : World) (s : Exporter) (i : nat)
    (b : Block) (t : nat) (tb : Table) :
  article_blocks s !! i = Some b →
  doc_version s = 3 →
  d_table (data b) = None →
  table s = Some t →
  doc_table (document s) t = Some tb →
  wf_table tb →
  0 ≤ cells s →
  ∃ s',
    _add_table_cell W (InArticle i) s = (Ok tt, s') ∧
    document s' =
      <[t := ETable
               (table_map_cell
                  (length (tbl_rows (placed_table tb (cells s))) - 1)
                  (placed_column tb (cells s))
                  (cell_map_par
                     (par_add_runs
                        (rendered_runs W
                           (bool_decide (is_Some (_paragraph s)))
                           (entity_map s) b)))
                  (placed_table tb (cells s)))]> (document s) ∧
    cells s' = Z.of_nat (placed_column tb (cells s)) + 1 ∧
    table s' = Some t.
Proof.
  intros Hb Hv Hd Ht Htb Hwf Hc.
  destruct (place_cell_spec W i s b t tb Hb Ht Htb Hwf Hc)
    as (s' & Hrun & Hdoc & Hcells & Htab & _).
  exists s'. split; [|done].
  rewrite _add_table_cell_split. unfold guarded, try_except.
  rewrite (bind_ok _ _ s b s) by (by apply read_block_article).
  rewrite (bind_ok _ _ s 3 s) by (unfold gets; by rewrite Hv).
  rewrite (bind_ok _ _ s tt s) by (by apply open_table_v3_none).
  by rewrite Hrun.
Qed.

Lemma X6_v3_cell_joins_open_table_witness :
  (∃ s',
     _add_table_cell Sample.offline (InArticle 1) More.open_v3
       = (Ok tt, s') ∧
     document s' =
       <[0%nat := ETable
                (table_map_cell
                   (length (tbl_rows (placed_table (new_table 1 3) 1)) - 1)
                   (placed_column (new_table 1 3) 1)
                   (cell_map_par
                      (par_add_runs
                         (rendered_runs Sample.offline
                            (bool_decide (is_Some (_paragraph More.open_v3)))
                            (entity_map More.open_v3) Sample.cell_B)))
                   (placed_table (new_table 1 3) 1))]>
         (document More.open_v3) ∧
     cells s' = Z.of_nat (placed_column (new_table 1 3) 1) + 1 ∧
     table s' = Some 0%nat) ∧
  Sample.tables_texts
    (document
       (_add_table_cell Sample.offline (InArticle 1) More.open_v3).2)
  = [[[""; "B"; ""]]].
Proof.
  split; [|vm_compute; reflexivity].
  apply (X6_v3_cell_joins_open_table Sample.offline More.open_v3 1
           Sample.cell_B 0 (new_table 1 3)).
  - reflexivity.
  - reflexivity.
  - reflexivity.
  - reflexivity.
  - reflexivity.
  - apply wf_new_table. lia.
  - simpl. lia.
Defined.

(** ** File names *)

(** X7 (remove_crap).  For a list of one-character strings,
    [remove_crap] drops from the string exactly the characters of the
    list and keeps the others in their order; with the list of
    [_set_picture] no [%], [#], [+] or [@] is left. *)
Theorem X7_remove_crap_filters (craps : list ascii) (st : string) :
  String.list_ascii_of_string
    (remove_crap ((λ a, String a EmptyString) <$> craps) st)
  = filter (λ c, c ∉ craps) (String.list_ascii_of_string st) ∧
  String.list_ascii_of_string (remove_crap crap_list st)
  = filter (λ c, c ∉ ["%"; "#"; "+"; "@"]%char)
      (String.list_ascii_of_string st).
Proof.
  split; [apply remove_crap_chars|].
  apply (remove_crap_chars ["%"; "#"; "+"; "@"]%char).
Qed.

(** ** Markdown tables *)

(** X8 (reading a printed table).  A markdown text printed from a
    header of distinct names and rows of cells (no pipe, no newline,
    no space around a cell), after one leading character and before
    one final character, is read back as the rows, each one paired
    with the header. *)
Theorem X8_read_markdown_table_print (first : ascii)
    (header : list string) (separator : string)
    (rows : list (list string)) (final : ascii) :
  NoDup header →
  Forall md_clean header →
  "010"%char ∉ String.list_ascii_of_string separator →
  Forall (Forall md_clean) rows →
  _read_markdown_table (md_print first header separator rows final)
  = zip header <$> rows.
Proof. apply read_markdown_table_print. Qed.

Lemma X8_read_markdown_table_print_witness :
  _read_markdown_table
    (md_print "010" ["h1"; "h2"] "|--|--|" [["a"; "b"]] "010")
  = zip ["h1"; "h2"] <$> [["a"; "b"]].
Proof.
  apply (X8_read_markdown_table_print "010" ["h1"; "h2"] "|--|--|"
           [["a"; "b"]] "010").
  - apply (bool_decide_unpack _). vm_compute. exact I.
  - repeat constructor;
      apply (bool_decide_unpack _); vm_compute; exact I.
  - apply (bool_decide_unpack _). vm_compute. exact I.
  - repeat constructor;
      apply (bool_decide_unpack _); vm_compute; exact I.
Defined.

(** X9 (rendering a printed table).  A markdown block whose text is
    printed from a header of distinct names and rows as long as the
    header, all of plain text, is rendered, without error, as one
    table: as many columns as the header, the header row, then one
    row per data row.  A text without data rows adds nothing to the
    document. *)
Theorem X9_add_mdtable_print (i : nat) (s : Exporter) (b : Block)
    (first : ascii) (header : list string) (separator : string)
    (rows : list (list string)) (final : ascii) :
  article_blocks s !! i = Some b →
  text b = md_print first header separator rows final →
  NoDup header →
  Forall md_clean header →
  "010"%char ∉ String.list_ascii_of_string separator →
  Forall (Forall md_clean) rows →
  Forall (λ row : list string, length row = length header) rows →
  Forall (λ cell, plain_text cell = true) header →
  Forall (Forall (λ cell, plain_text cell = true)) rows →
  _add_mdtable (InArticle i) s =
    (Ok tt,
     match rows with
     | [] => s
     | _ :: _ =>
         with_document (document s ++ [ETable (md_table header rows)]) s
     end).
Proof.
  intros Hb Ht Hnd Hh Hsep Hrows Hlen Hph Hpr.
  pose proof (read_markdown_table_print first header separator rows final
                Hnd Hh Hsep Hrows) as Hread.
  rewrite <- Ht in Hread.
  destruct rows as [|row rows].
  - unfold _add_mdtable. cbv [bind read_block gets lookup_or ret].
    by rewrite Hb, Hread.
  - apply (add_mdtable_rows i s b header row rows); try done.
    + eapply Forall_impl; [exact Hph|]. intros c. apply plain_text_xml.
    + eapply Forall_impl; [exact Hpr|]. intros r Hr.
      eapply Forall_impl; [exact Hr|]. intros c. apply plain_text_xml.
Qed.

Lemma X9_add_mdtable_print_witness :
  _add_mdtable (InArticle 0) (Sample.in_article 2 [More.printed_block]) =
    (Ok tt,
     with_document
       (document (Sample.in_article 2 [More.printed_block])
        ++ [ETable (md_table ["h1"; "h2"] [["a"; "b"]])])
       (Sample.in_article 2 [More.printed_block])).
Proof.
  apply (X9_add_mdtable_print 0 (Sample.in_article 2 [More.printed_block])
           More.printed_block "010" ["h1"; "h2"] "|--|--|" [["a"; "b"]]
           "010").
  - reflexivity.
  - reflexivity.
  - apply (bool_decide_unpack _). vm_compute. exact I.
  - repeat constructor;
      apply (bool_decide_unpack _); vm_compute; exact I.
  - apply (bool_decide_unpack _). vm_compute. exact I.
  - repeat constructor;
      apply (bool_decide_unpack _); vm_compute; exact I.
  - repeat constructor.
  - repeat constructor.
  - repeat constructor.
Defined.

(** ** What rendering leaves alone *)

(** X10 (the article is read, not rewritten).  Dispatching blocks of
    the article changes nothing of what the handlers read of it, the
    [inlineStyleRanges] of the blocks apart: the type, key, text,
    depth, entity ranges and data of every block, the list of keys,
    the entity map, the document version and the shelf are the same
    afterwards. *)
Theorem X10_dispatch_keeps_article (W : World) (idxs : list nat)
    (s : Exporter) :
  article_input (for_each idxs (dispatch W) s).2 = article_input s.
Proof. apply dispatch_all_article_input. Qed.

(** X11 (the pre-pass touches depths only).  The depth-normalization
    pre-pass keeps the number and the order of the blocks, and every
    block is left as it is or with its depth set to 3, whatever the
    keys. *)
Theorem X11_normalize_depths_only_depth (ks : list string)
    (blocks : list Block) :
  Forall2 (λ b b', b' = b ∨ b' = set_depth 3 b) blocks
    (normalize_depths ks blocks) ∧
  length (normalize_depths ks blocks) = length blocks.
Proof.
  pose proof (normalize_depths_depth3 ks blocks) as H.
  split; [done|]. symmetry. by eapply Forall2_length.
Qed.

(** ** The style merge *)

(** X12 (a merge that returns copies every attribute).  When the merge
    returns the document, then for every paragraph whose style has a
    font in the template and for every attribute of the list, reading
    the attribute path on the style font of the paragraph gives the
    value the template has there; the fonts of styles that are not in
    the template are the ones the document had. *)
Theorem X12_merge_copies_template (copy_attrs : list string)
    (input_doc doc' : MergeStyles.InputDoc)
    (based_doc : MergeStyles.BasedDoc) :
  MergeStyles.out_returned
    (MergeStyles.__merge copy_attrs input_doc based_doc) = Some doc' →
  (∀ name based_style attr,
     name ∈ MergeStyles.paragraphs input_doc →
     MergeStyles.based_fonts based_doc !! name = Some based_style →
     attr ∈ MergeStyles.init_copy_attrs copy_attrs →
     ∃ v,
       MergeStyles.reduce_getattr (Py.split "." attr) based_style = Ok v ∧
       MergeStyles.reduce_getattr (Py.split "." attr)
         (MergeStyles.style_font (MergeStyles.style_fonts doc') name)
       = Ok v) ∧
  (∀ name,
     MergeStyles.based_fonts based_doc !! name = None →
     MergeStyles.style_fonts doc' !! name
     = MergeStyles.style_fonts input_doc !! name) ∧
  MergeStyles.paragraphs doc' = MergeStyles.paragraphs input_doc.
Proof.
  unfold MergeStyles.__merge.
  destruct (MergeStyles.merge_paragraphs _ _ _ _) as [fonts' [e|]] eqn:Hm;
    simpl; [done|].
  intros H. simplify_eq. simpl.
  destruct (MergeCopies.merge_paragraphs_reads _ _ _ _ _ Hm)
    as (Hreads & _ & Hnone).
  split; [|done]. intros name bs attr Hin Hb Ha. by eapply Hreads.
Qed.

Lemma X12_merge_copies_template_witness :
  (∀ name based_style attr,
     name ∈ MergeStyles.paragraphs Sample.produced →
     MergeStyles.based_fonts Sample.template !! name = Some based_style →
     attr ∈ MergeStyles.init_copy_attrs More.two_attrs →
     ∃ v,
       MergeStyles.reduce_getattr (Py.split "." attr) based_style = Ok v ∧
       MergeStyles.reduce_getattr (Py.split "." attr)
         (MergeStyles.style_font
            (MergeStyles.style_fonts
               (MergeStyles.out_doc
                  (MergeStyles.__merge More.two_attrs Sample.produced
                     Sample.template))) name)
       = Ok v) ∧
  (∀ name,
     MergeStyles.based_fonts Sample.template !! name = None →
     MergeStyles.style_fonts
       (MergeStyles.out_doc
          (MergeStyles.__merge More.two_attrs Sample.produced
             Sample.template)) !! name
     = MergeStyles.style_fonts Sample.produced !! name) ∧
  MergeStyles.paragraphs
    (MergeStyles.out_doc
       (MergeStyles.__merge More.two_attrs Sample.produced
          Sample.template))
  = MergeStyles.paragraphs Sample.produced.
Proof.
  apply (X12_merge_copies_template More.two_attrs Sample.produced
           (MergeStyles.out_doc
              (MergeStyles.__merge More.two_attrs Sample.produced
                 Sample.template)) Sample.template).
  vm_compute. reflexivity.
Defined.

(** X13 (no style in common).  When no paragraph style of the produced
    document has a font in the template, the merge copies nothing: it
    returns the document as it was, and logs nothing. *)
Theorem X13_merge_unmatched (copy_attrs : list string)
    (input_doc : MergeStyles.InputDoc) (based_doc : MergeStyles.BasedDoc) :
  Forall (λ name, MergeStyles.based_fonts based_doc !! name = None)
    (MergeStyles.paragraphs input_doc) →
  MergeStyles.__merge copy_attrs input_doc based_doc =
    {| MergeStyles.out_doc := input_doc;
       MergeStyles.out_returned := Some input_doc;
       MergeStyles.out_captured := [] |}.
Proof.
  intros H. unfold MergeStyles.__merge.
  rewrite (MergeCopies.merge_paragraphs_unmatched _ _ _ _ H). simpl.
  by destruct input_doc.
Qed.

Lemma X13_merge_unmatched_witness :
  MergeStyles.__merge Sample.three_attrs More.unmatched Sample.template =
    {| MergeStyles.out_doc := More.unmatched;
       MergeStyles.out_returned := Some More.unmatched;
       MergeStyles.out_captured := [] |}.
Proof.
  apply (X13_merge_unmatched Sample.three_attrs More.unmatched
           Sample.template).
  repeat constructor.
Defined.

(** ** Videos and pictures *)

(** X14 (the caption of a video).  A video block with a source, whose
    label and source are plain texts, is rendered without error: after
    the empty centred paragraph and the thumbnail, when one is found
    and inserted, it ends with a [Caption] paragraph that holds the
    label in bold, a newline and the source in bold, and that is the
    current paragraph.  A video block without source leaves the empty
    centred paragraph and nothing else. *)
Theorem X14_add_video_caption (W : World) (i : nat) (s : Exporter)
    (b : Block) :
  article_blocks s !! i = Some b →
  plain_text (default "" (d_label (data b))) = true →
  let s1 :=
    with_paragraph (Some (length (document s)))
      (with_document
         (document s ++
            [EParagraph (par_set_alignment 1 (empty_paragraph "Normal"))])
         s) in
  (∀ url,
     d_src (data b) = Some url →
     plain_text url = true →
     let s2 :=
       match video_big_image W url with
       | Some big_image => (_set_picture W big_image "" 0 1 true s1).2
       | None => s1
       end in
     _add_video W (InArticle i) s
     = (Ok tt,
        with_paragraph (Some (length (document s2)))
          (with_document
             (document s2 ++
                [EParagraph
                   {| par_style := "Caption"; par_alignment := Some 1;
                      par_runs :=
                        [run_set_bold
                           (plain_run (default "" (d_label (data b))));
                         plain_run newline;
                         run_set_bold (plain_run url)] |}]) s2))) ∧
  (d_src (data b) = None → _add_video W (InArticle i) s = (Ok tt, s1)).
Proof.
  intros Hb Hl s1. split.
  - intros url Hsrc Hu s2.
    apply (add_video_caption W i s b url); try done;
      by apply plain_text_xml.
  - intros Hsrc. by apply (add_video_without_src W i s b).
Qed.

Lemma X14_add_video_caption_witness :
  let s := Sample.in_article 2 [More.video_block] in
  let s1 :=
    with_paragraph (Some (length (document s)))
      (with_document
         (document s ++
            [EParagraph (par_set_alignment 1 (empty_paragraph "Normal"))])
         s) in
  _add_video Sample.offline (InArticle 0) s
  = (Ok tt,
     with_paragraph (Some (length (document s1)))
       (with_document
          (document s1 ++
             [EParagraph
                {| par_style := "Caption"; par_alignment := Some 1;
                   par_runs :=
                     [run_set_bold (plain_run "clip");
                      plain_run newline;
                      run_set_bold (plain_run "http://host/clip")] |}])
          s1)).
Proof.
  refine (proj1 (X14_add_video_caption Sample.offline 0
                   (Sample.in_article 2 [More.video_block])
                   More.video_block _ _) "http://host/clip" _ _);
    reflexivity.
Defined.

(** X15 (a picture that is inserted).  When the image of a non-empty
    URL is obtained and recognized and the label is a plain text,
    [_set_picture] returns normally with nothing reported and the
    depth level restored; it appends a paragraph with the given
    alignment that holds the picture, whose width is the width of the
    image and at most 14.8 cm (an image wider than that is scaled by
    its aspect ratio, so its height must not be 0).  The caption is made from the label the
    image stream leaves, which is the label given, or none (a data
    URL and an SVG image clear it): when it is not empty, a [Caption]
    paragraph with it in bold follows. *)
Theorem X15_set_picture_inserted (W : World) (url label : string)
    (depth alignment : Z) (border : bool) (s : Exporter)
    (sl : string * string) (w h : Z) :
  url ≠ "" →
  (image_stream W url label border s).1 = Ok sl →
  docx_picture W sl.1 = Ok (w, h) →
  w ≤ images_max_width ∨ h ≠ 0 →
  plain_text label = true →
  (sl.2 = label ∨ sl.2 = "") ∧
  Z.min w images_max_width ≤ images_max_width ∧
  ∃ s',
    _set_picture W url label depth alignment border s = (Ok tt, s') ∧
    captured s' = captured s ∧
    depth_level s' = depth_level s ∧
    table s' = None ∧
    document s' =
      document s ++
        [EParagraph
           {| par_style := "Normal"; par_alignment := Some alignment;
              par_runs :=
                [run_add_picture
                   {| pic_source := sl.1; pic_px := None;
                      pic_width := Some (Z.min w images_max_width) |}
                   (plain_run "")] |}] ++
        (if String.eqb sl.2 "" then []
         else [EParagraph
                 {| par_style := "Caption"; par_alignment := Some 1;
                    par_runs :=
                      [run_set_bold
                         (run_set_color font_color_rgb
                            (plain_run sl.2))] |}]).
Proof.
  intros Hurl Hstream Hpic Hwh Hplain.
  pose proof (image_stream_label W url label border s sl Hstream) as Hl.
  split; [exact Hl|]. split; [lia|].
  apply (set_picture_inserted W url label depth alignment border s sl w h);
    try done.
  destruct Hl as [-> | ->]; [by apply plain_text_xml|done].
Qed.

Lemma X15_set_picture_inserted_witness :
  Z.min 9000000 images_max_width ≤ images_max_width ∧
  ∃ s',
    _set_picture More.decodable "http://host/p.png" "caption" 0 1 true
      (Sample.in_article 2 []) = (Ok tt, s') ∧
    captured s' = captured (Sample.in_article 2 []) ∧
    depth_level s' = depth_level (Sample.in_article 2 []) ∧
    table s' = None ∧
    document s' =
      document (Sample.in_article 2 []) ++
        [EParagraph
           {| par_style := "Normal"; par_alignment := Some 1;
              par_runs :=
                [run_add_picture
                   {| pic_source := "PNG"; pic_px := None;
                      pic_width := Some (Z.min 9000000 images_max_width) |}
                   (plain_run "")] |}] ++
        [EParagraph
           {| par_style := "Caption"; par_alignment := Some 1;
              par_runs :=
                [run_set_bold
                   (run_set_color font_color_rgb (plain_run "caption"))]
           |}].
Proof.
  refine (proj2 (X15_set_picture_inserted More.decodable
                   "http://host/p.png" "caption" 0 1 true
                   (Sample.in_article 2 []) ("PNG", "caption")
                   9000000 4500000 _ _ _ _ _)).
  - discriminate.
  - vm_compute. reflexivity.
  - reflexivity.
  - right. discriminate.
  - reflexivity.
Defined.

(** ** Books *)

(** X16 (a book ends with its page break).  Once a paragraph is
    current, exporting a book never raises, whatever its articles and
    blocks do: a paragraph is current afterwards, and its last run is
    the page break. *)
Theorem X16_export_book_page_break (W : World) (book : Book)
    (s : Exporter) :
  par_ok s →
  ∃ s' i p,
    export_book W book s = (Ok tt, s') ∧
    _paragraph s' = Some i ∧
    doc_paragraph (document s') i = Some p ∧
    last (par_runs p) = Some (run_add_break (plain_run "")).
Proof. apply export_book_page_break. Qed.

Lemma X16_export_book_page_break_witness :
  ∃ s' i p,
    export_book Sample.offline Sample.two_articles
      (Sample.in_paragraph 2 []) = (Ok tt, s') ∧
    _paragraph s' = Some i ∧
    doc_paragraph (document s') i = Some p ∧
    last (par_runs p) = Some (run_add_break (plain_run "")).
Proof.
  apply (X16_export_book_page_break Sample.offline Sample.two_articles
           (Sample.in_paragraph 2 [])).
  exists 0%nat, (empty_paragraph "Normal"). split; reflexivity.
Defined.

(** X17 (every book is exported).  From any state, [export] goes
    through all the books of the shelf: after the title page no book
    raises, so the loop over the books never ends early, and [export]
    returns normally with the state the last book left. *)
Theorem X17_export_all_books (W : World) (s : Exporter) :
  (for_each (shelf_books (shelf s)) (export_book W)
     (_add_title_page (shelf_name (shelf s)) s).2).1 = Ok tt ∧
  export W s =
    (Ok tt,
     (for_each (shelf_books (shelf s)) (export_book W)
        (_add_title_page (shelf_name (shelf s)) s).2).2).
Proof. apply export_all_books. Qed.

(** X18 (a snippet that cannot be resolved).  When the first snippet
    of an article cannot be resolved, the articles of the book before
    it are rendered, the article itself and the articles after it are
    not: the book goes on, from the state the articles before left,
    with the entity map of the article set, [ExternalError] logged
    once, and the page break. *)
Theorem X18_export_book_unresolved_snippet (W : World) (book : Book)
    (pre : list Article) (a : Article) (post : list Article)
    (bs1 : list Block) (snip : Block) (bs2 : list Block) (src : string)
    (s : Exporter) :
  book_articles book = pre ++ a :: post →
  Forall (λ a, no_snippets (art_blocks a)) pre →
  art_blocks a = bs1 ++ snip :: bs2 →
  no_snippets bs1 →
  type snip = "snippet" →
  d_src (data snip) = Some src →
  resolve_snippet W src = None →
  export_book W book s
  = add_run "" run_add_break
      (with_captured
         (captured
            (for_each pre (export_article W)
               (reset_book (_add_book_title (book_name book) s).2)).2
          ++ [ExternalError])
         (with_entity_map (art_entity_map a)
            (for_each pre (export_article W)
               (reset_book (_add_book_title (book_name book) s).2)).2)).
Proof. apply export_book_unresolved. Qed.

Lemma X18_export_book_unresolved_snippet_witness :
  export_book Sample.offline More.book_with_snippet
    (Sample.in_paragraph 2 [])
  = add_run "" run_add_break
      (with_captured
         (captured
            (for_each [Sample.article_of "first" [Sample.step_x]]
               (export_article Sample.offline)
               (reset_book
                  (_add_book_title "book" (Sample.in_paragraph 2 [])).2)).2
          ++ [ExternalError])
         (with_entity_map ∅
            (for_each [Sample.article_of "first" [Sample.step_x]]
               (export_article Sample.offline)
               (reset_book
                  (_add_book_title "book"
                     (Sample.in_paragraph 2 [])).2)).2)) ∧
  Sample.paragraph_texts
    (document
       (export_book Sample.offline More.book_with_snippet
          (Sample.in_paragraph 2 [])).2)
  = ["book"; newline +:+ "first"; "1. x"].
Proof.
  split; [|vm_compute; reflexivity].
  apply (X18_export_book_unresolved_snippet Sample.offline
           More.book_with_snippet
           [Sample.article_of "first" [Sample.step_x]]
           (Sample.article_of "second"
              [Sample.text_after; More.snippet_block; Sample.step_y])
           [Sample.article_of "third" [Sample.step_y]]
           [Sample.text_after] More.snippet_block [Sample.step_y] "17"
           (Sample.in_paragraph 2 [])).
  - reflexivity.
  - repeat constructor; discriminate.
  - reflexivity.
  - repeat constructor; discriminate.
  - reflexivity.
  - reflexivity.
  - reflexivity.
Defined.

(** ** Dictionaries *)

(** X19 (the first entry of a dictionary).  A dictionary block that
    follows no dictionary block (or comes while no dictionary is open)
    opens a table of three columns and one row, shades the row and
    writes its text in column 0; the cursor is then 1. *)
Theorem X19_add_dict_opens (W : World) (i : nat) (s : Exporter)
    (b : Block) (j : nat) (old_block : Block) :
  article_blocks s !! i = Some b →
  Py.index (keys s) (key b) = Some j →
  Py.getitem (article_blocks s) (Z.of_nat j - 1) = Some old_block →
  drops_dict old_block j = true ∨ dict s = None →
  ∃ s',
    _add_dict W (InArticle i) s = (Ok tt, s') ∧
    document s' =
      document s ++
        [ETable
           (table_map_cell 0 0
              (cell_map_par
                 (par_add_runs
                    (rendered_runs W (bool_decide (is_Some (_paragraph s)))
                       (entity_map s) b)))
              (shade_table 0 "E7E7F9" (new_table 1 3)))] ∧
    cells_d s' = 1 ∧
    dict s' = Some (length (document s)).
Proof. apply add_dict_opens. Qed.

Lemma X19_add_dict_opens_witness :
  (∃ s',
     _add_dict Sample.offline (InArticle 0)
       (Sample.in_article 2 [More.term_block]) = (Ok tt, s') ∧
     document s' =
       document (Sample.in_article 2 [More.term_block]) ++
         [ETable
            (table_map_cell 0 0
               (cell_map_par
                  (par_add_runs
                     (rendered_runs Sample.offline
                        (bool_decide
                           (is_Some
                              (_paragraph
                                 (Sample.in_article 2 [More.term_block]))))
                        (entity_map (Sample.in_article 2 [More.term_block]))
                        More.term_block)))
               (shade_table 0 "E7E7F9" (new_table 1 3)))] ∧
     cells_d s' = 1 ∧
     dict s' = Some (length (document
                                (Sample.in_article 2 [More.term_block])))) ∧
  Sample.tables_texts
    (document
       (_add_dict Sample.offline (InArticle 0)
          (Sample.in_article 2 [More.term_block])).2)
  = [[["term"; ""; ""]]].
Proof.
  split; [|vm_compute; reflexivity].
  apply (X19_add_dict_opens Sample.offline 0
           (Sample.in_article 2 [More.term_block]) More.term_block 0
           More.term_block).
  - reflexivity.
  - reflexivity.
  - reflexivity.
  - left. reflexivity.
Defined.

(** X20 (the next entries of a dictionary).  A dictionary block that
    follows a dictionary block while the dictionary table is open is
    written to that table: in the last row when the cursor is within
    it, in a row appended to the table when it is not; the row is
    shaded when its index is even; the dividing column 1 is skipped,
    so that with the cursor at 1 the text goes to column 2 of the same
    row, and with the cursor at 3 to column 0 of a new row. *)
Theorem X20_add_dict_continues (W : World) (i : nat) (s : Exporter)
    (b : Block) (j : nat) (old_block : Block) (t : nat) (tb : Table) :
  article_blocks s !! i = Some b →
  Py.index (keys s) (key b) = Some j →
  Py.getitem (article_blocks s) (Z.of_nat j - 1) = Some old_block →
  drops_dict old_block j = false →
  dict s = Some t →
  doc_table (document s) t = Some tb →
  wf_table tb →
  tbl_cols tb = 3%nat →
  0 ≤ cells_d s →
  let tb1 := shade_even (placed_table tb (cells_d s)) in
  let r := (length (tbl_rows tb1) - 1)%nat in
  let c := entry_column (placed_column tb (cells_d s)) in
  let runs := rendered_runs W (bool_decide (is_Some (_paragraph s)))
                (entity_map s) b in
  (∃ s',
     _add_dict W (InArticle i) s = (Ok tt, s') ∧
     document s' =
       <[t := ETable (table_map_cell r c (cell_map_par (par_add_runs runs))
                        tb1)]> (document s) ∧
     cells_d s' = Z.of_nat c + 1 ∧
     dict s' = Some t) ∧
  (cells_d s = 1 → c = 2%nat ∧ r = (length (tbl_rows tb) - 1)%nat) ∧
  (cells_d s = 3 → c = 0%nat ∧ r = length (tbl_rows tb)).
Proof.
  intros Hb Hj Hold Hdrop Ht Hdoc Hwf Hcols Hc tb1 r c runs.
  split; [by eapply add_dict_continues|].
  subst tb1 r c. rewrite shade_even_rows.
  unfold entry_column, placed_column, placed_table. rewrite Hcols.
  split; intros ->; simpl; [done|].
  split; [done|]. rewrite length_app. simpl. lia.
Qed.

Lemma X20_add_dict_continues_witness :
  Sample.tables_texts
    (document
       (_add_dict Sample.offline (InArticle 1) More.open_dictionary).2)
  = [[[""; ""; "meaning"]]] ∧
  ∃ s',
    _add_dict Sample.offline (InArticle 1) More.open_dictionary
      = (Ok tt, s') ∧
    cells_d s' = 3 ∧
    dict s' = Some 0%nat.
Proof.
  split; [vm_compute; reflexivity|].
  destruct (X20_add_dict_continues Sample.offline 1 More.open_dictionary
              More.definition_block 1 More.term_block 0 (new_table 1 3))
    as [(s' & Hrun & _ & Hcells & Hdict) _].
  - reflexivity.
  - reflexivity.
  - reflexivity.
  - reflexivity.
  - reflexivity.
  - reflexivity.
  - apply wf_new_table. lia.
  - reflexivity.
  - simpl. lia.
  - exists s'. split; [exact Hrun|]. split; [exact Hcells|exact Hdict].
Defined.
